(** * Bayes by Backprop: the variational layer and network of [variational.py]

    A shallow embedding of [project/code/variational.py]: the variational
    linear layer [VarLinear], the network base class [VarEstimator] with its
    task-specific subclasses, the two prior constructors, signal-to-noise
    pruning and the hand-over to dead-neuron compression; the two
    likelihood terms and [ReducedVarMNIST.assign_params]; and [get_action]
    of [project/code/reinforcement_learning.py], which calls the network.

    Numbers.  The program computes on [tf.float32] tensors.  A tensor entry is
    modelled as a [scalar]: an exact real number or one of the IEEE-754
    special values +inf, -inf and NaN.  Arithmetic on finite values is exact
    (rounding, overflow and the sign of zero are not modelled); the special
    values follow IEEE-754, which is what decides the fate of a pruned entry,
    whose scale is 0 and whose raw scale is -inf.

    Tensors.  A matrix is the list of its rows and a tensor is taken at its
    value when the operation runs (eager execution).  The entries of an input
    are assumed to fit its static shape.

    Effects.  Python exceptions are the [Raise] branch of [result]; the
    state in which an exception leaves an object is not tracked.  Random
    draws come from an explicit generator state [Rng] that is threaded
    through every call that samples.  A method that assigns to attributes or
    variables of [self] hands back the new [self]. *)

From Stdlib Require Import Reals Lra Lia String ZArith Bool List.
Import ListNotations.

Set Implicit Arguments.

(** ** Scalars: exact reals with the IEEE-754 special values *)

Inductive scalar : Type :=
| Real (r : R)
| PInf
| NInf
| NaN.

(** The sign of a real number, decided by the order of [R]. *)
Definition Rsign (r : R) : comparison :=
  match total_order_T r 0 with
  | inleft (left _) => Lt
  | inleft (right _) => Eq
  | inright _ => Gt
  end.

Definition fneg (a : scalar) : scalar :=
  match a with
  | Real r => Real (- r)
  | PInf => NInf
  | NInf => PInf
  | NaN => NaN
  end.

Definition fadd (a b : scalar) : scalar :=
  match a, b with
  | Real x, Real y => Real (x + y)
  | NaN, _ | _, NaN => NaN
  | PInf, NInf | NInf, PInf => NaN
  | PInf, _ | _, PInf => PInf
  | NInf, _ | _, NInf => NInf
  end.

Definition fsub (a b : scalar) : scalar := fadd a (fneg b).

(** An infinity scaled by the sign of a finite factor: 0 * inf is NaN. *)
Definition inf_times_sign (pos : bool) (r : R) : scalar :=
  match Rsign r with
  | Eq => NaN
  | Gt => if pos then PInf else NInf
  | Lt => if pos then NInf else PInf
  end.

Definition fmul (a b : scalar) : scalar :=
  match a, b with
  | Real x, Real y => Real (x * y)
  | NaN, _ | _, NaN => NaN
  | PInf, Real y | Real y, PInf => inf_times_sign true y
  | NInf, Real y | Real y, NInf => inf_times_sign false y
  | PInf, PInf | NInf, NInf => PInf
  | PInf, NInf | NInf, PInf => NInf
  end.

Definition fdiv (a b : scalar) : scalar :=
  match a, b with
  | NaN, _ | _, NaN => NaN
  | Real x, Real y =>
      match Rsign y with
      | Eq => match Rsign x with Eq => NaN | Gt => PInf | Lt => NInf end
      | _ => Real (x / y)
      end
  | Real _, (PInf | NInf) => Real 0
  | PInf, Real y =>
      match Rsign y with Lt => NInf | _ => PInf end
  | NInf, Real y =>
      match Rsign y with Lt => PInf | _ => NInf end
  | (PInf | NInf), (PInf | NInf) => NaN
  end.

Definition fabs (a : scalar) : scalar :=
  match a with
  | Real r => Real (Rabs r)
  | PInf | NInf => PInf
  | NaN => NaN
  end.

Definition fexp (a : scalar) : scalar :=
  match a with
  | Real r => Real (exp r)
  | PInf => PInf
  | NInf => Real 0
  | NaN => NaN
  end.

(** [tf.math.log]: the natural logarithm. *)
Definition flog (a : scalar) : scalar :=
  match a with
  | Real r =>
      match Rsign r with
      | Gt => Real (ln r)
      | Eq => NInf
      | Lt => NaN
      end
  | PInf => PInf
  | NInf | NaN => NaN
  end.

(** [tf.math.greater]: false whenever an operand is NaN. *)
Definition fgreater (a b : scalar) : bool :=
  match a, b with
  | NaN, _ | _, NaN => false
  | Real x, Real y => if Rgt_dec x y then true else false
  | PInf, PInf => false
  | PInf, _ => true
  | _, PInf => false
  | NInf, _ => false
  | Real _, NInf => true
  end.

(** [tf.cast(_, dtype=tf.float32)] of a boolean. *)
Definition cast_bool (b : bool) : scalar := if b then Real 1 else Real 0.

(** [tf.nn.softplus]: log(1 + exp x). *)
Definition softplus (x : scalar) : scalar := flog (fadd (Real 1) (fexp x)).

(** [tf.contrib.distributions.softplus_inverse]: log(exp x - 1), which is
    -inf at 0. *)
Definition softplus_inverse (x : scalar) : scalar :=
  flog (fsub (fexp x) (Real 1)).

(** ** Exceptions *)

(** Sonnet's [NotConnectedError] and [IncompatibleShapeError], Python's
    built-in exceptions, and [ExternalError] for whatever a function that is
    not among the sources raises. *)
Inductive exn : Type :=
| NotConnectedError
| IncompatibleShapeError
| NameError (name : string)
| AttributeError (attr : string)
| ValueError
| IndexError
| ExternalError.

Inductive result (A : Type) : Type :=
| Ok (a : A)
| Raise (e : exn).

Arguments Ok {A} a.
Arguments Raise {A} e.

Definition bind {A B : Type} (m : result A) (k : A -> result B) : result B :=
  match m with
  | Ok a => k a
  | Raise e => Raise e
  end.

Declare Scope result_scope.
Delimit Scope result_scope with result.
Notation "x <- m ;; k" := (bind m (fun x => k))
  (at level 61, m at next level, right associativity) : result_scope.
Notation "m ;;; k" := (bind m (fun _ => k))
  (at level 61, right associativity) : result_scope.
Open Scope result_scope.

Definition attr {A : Type} (name : string) (field : option A) : result A :=
  match field with
  | Some a => Ok a
  | None => Raise (AttributeError name)
  end.

Fixpoint mapM {A B : Type} (f : A -> result B) (l : list A) : result (list B) :=
  match l with
  | [] => Ok []
  | a :: l' => b <- f a ;; bs <- mapM f l' ;; Ok (b :: bs)
  end.

(** ** Tensors *)

Definition vector : Type := list scalar.
Definition matrix : Type := list (list scalar).

(** A TensorFlow variable or a numpy array: a shape and the entries. *)
Record Array (A : Type) : Type := mkArray {
  shape : list nat;
  value : A
}.

(** [v.assign(x)]: new entries, same variable. *)
Definition assign {A : Type} (v : Array A) (x : A) : Array A :=
  mkArray (shape v) x.

(** An input tensor of a module: its static shape, where [None] is a
    dimension unknown when the module is built, and its entries seen as one
    row per example of the batch. *)
Record Tensor : Type := mkTensor {
  static_shape : list (option nat);
  rows : matrix
}.

Fixpoint zipWith {A B C : Type} (f : A -> B -> C) (u : list A) (v : list B)
  : list C :=
  match u, v with
  | a :: u', b :: v' => f a b :: zipWith f u' v'
  | _, _ => []
  end.

Definition mmap (f : scalar -> scalar) (m : matrix) : matrix := map (map f) m.

Definition mzip (f : scalar -> scalar -> scalar) (a b : matrix) : matrix :=
  zipWith (zipWith f) a b.

(** [tf.reshape(x, [-1])] of a matrix: the rows one after the other. *)
Definition flatten (m : matrix) : vector := concat m.

Definition reduce_sum_vector (v : vector) : scalar :=
  fold_left fadd v (Real 0).

(** [tf.reduce_sum] over every entry. *)
Definition reduce_sum (m : matrix) : scalar := reduce_sum_vector (flatten m).

Definition dot (u v : vector) : scalar :=
  reduce_sum_vector (zipWith fmul u v).

Definition column (j : nat) (w : matrix) : vector :=
  map (fun row => nth j row (Real 0)) w.

(** [tf.matmul(x, w)] for [w] with [out] columns. *)
Definition matmul (x w : matrix) (out : nat) : matrix :=
  map (fun xi => map (fun j => dot xi (column j w)) (seq 0 out)) x.

(** [outputs += b]: the bias is added to every row. *)
Definition add_bias (m : matrix) (b : vector) : matrix :=
  map (fun row => zipWith fadd row b) m.

(** [tf.nn.relu]. *)
Definition relu (x : scalar) : scalar :=
  match x with
  | Real r => Real (Rmax r 0)
  | PInf => PInf
  | NInf => Real 0
  | NaN => NaN
  end.

(** ** Distributions of [tensorflow_probability] *)

Record Normal : Type := mkNormal {
  loc : scalar;
  scale : scalar
}.

Definition fsquare (x : scalar) : scalar := fmul x x.

(** [Normal.log_prob]: -0.5 z^2 - (0.5 log(2 pi) + log scale), with
    z = (x - loc) / scale. *)
Definition Normal_log_prob (d : Normal) (x : scalar) : scalar :=
  fsub (fmul (Real (- / 2)) (fsquare (fdiv (fsub x (loc d)) (scale d))))
       (fadd (Real (/ 2 * ln (2 * PI))) (flog (scale d))).

Definition zipWith3 {A B C D : Type} (f : A -> B -> C -> D)
  (u : list A) (v : list B) (w : list C) : list D :=
  zipWith (fun p z => f (fst p) (snd p) z) (combine u v) w.

(** [Normal(loc, scale).log_prob(x)] for tensor parameters: entry by entry. *)
Definition log_prob_vector (locs scales xs : vector) : vector :=
  zipWith3 (fun l s x => Normal_log_prob (mkNormal l s) x) locs scales xs.

Definition log_prob_matrix (locs scales xs : matrix) : matrix :=
  zipWith3 log_prob_vector locs scales xs.

(** [tf.reduce_logsumexp]. *)
Definition reduce_logsumexp (l : list scalar) : scalar :=
  flog (reduce_sum_vector (map fexp l)).

Definition log_softmax (l : list scalar) : list scalar :=
  map (fun x => fsub x (reduce_logsumexp l)) l.

Inductive Distribution : Type :=
| NormalDist (d : Normal)
| Mixture (cat_probs : list scalar) (components : list Normal).

(** [Mixture.log_prob]: the log-sum-exp over the components of the
    categorical log-probability plus the component's log-density. *)
Definition log_prob (p : Distribution) (x : scalar) : scalar :=
  match p with
  | NormalDist d => Normal_log_prob d x
  | Mixture cat_probs components =>
      reduce_logsumexp
        (zipWith fadd (log_softmax (map flog cat_probs))
                      (map (fun d => Normal_log_prob d x) components))
  end.

(** The hyperparameter dictionary [params] handed to the prior
    constructors. *)
Record Params : Type := mkParams {
  mu : scalar;
  sigma : scalar;
  mix_prop : scalar;
  sigma1 : scalar;
  sigma2 : scalar
}.

Definition create_gaussian_prior (params : Params) : Distribution :=
  NormalDist (mkNormal (mu params) (fexp (fneg (sigma params)))).

Definition create_mixture_prior (params : Params) : Distribution :=
  Mixture [mix_prop params; fsub (Real 1) (mix_prop params)]
          [mkNormal (Real 0) (fexp (fneg (sigma1 params)));
           mkNormal (Real 0) (fexp (fneg (sigma2 params)))].

(** ** The random generator *)

(** [normal_stream] feeds the standard-normal noise of [sample()],
    [uniform_stream] the uniform draws of the initialisers; [sample_calls]
    counts the calls of [sample()]. *)
Record Rng : Type := mkRng {
  normal_stream : nat -> scalar;
  uniform_stream : nat -> scalar;
  normal_pos : nat;
  uniform_pos : nat;
  sample_calls : nat
}.

Definition stream_vector (s : nat -> scalar) (pos n : nat) : vector :=
  map s (seq pos n).

Definition stream_matrix (s : nat -> scalar) (pos r c : nat) : matrix :=
  map (fun i => stream_vector s (pos + i * c) c) (seq 0 r).

Definition after_sample (n : nat) (g : Rng) : Rng :=
  mkRng (normal_stream g) (uniform_stream g)
        (normal_pos g + n) (uniform_pos g) (S (sample_calls g)).

Definition after_init (n : nat) (g : Rng) : Rng :=
  mkRng (normal_stream g) (uniform_stream g)
        (normal_pos g) (uniform_pos g + n) (sample_calls g).

(** [Normal(loc, scale).sample()] for matrix parameters of shape [r, c]:
    loc + scale * eps with fresh standard-normal eps. *)
Definition sample_matrix (locs scales : matrix) (r c : nat) (g : Rng)
  : matrix * Rng :=
  (mzip fadd locs
        (mzip fmul scales (stream_matrix (normal_stream g) (normal_pos g) r c)),
   after_sample (r * c) g).

Definition sample_vector (locs scales : vector) (n : nat) (g : Rng)
  : vector * Rng :=
  (zipWith fadd locs
           (zipWith fmul scales
                    (stream_vector (normal_stream g) (normal_pos g) n)),
   after_sample n g).

(** [tf.initializers.glorot_uniform]: uniform on [-limit, limit] with
    limit = sqrt(3 / max(1, (fan_in + fan_out) / 2)). *)
Definition glorot_limit (fan_in fan_out : nat) : R :=
  sqrt (3 / Rmax 1 ((INR fan_in + INR fan_out) / 2)).

Definition glorot_uniform (fan_in fan_out : nat) (u : scalar) : scalar :=
  fadd (fmul u (Real (2 * glorot_limit fan_in fan_out)))
       (Real (- glorot_limit fan_in fan_out)).

Definition mu_init_matrix (r c : nat) (g : Rng) : matrix * Rng :=
  (mmap (glorot_uniform r c)
        (stream_matrix (uniform_stream g) (uniform_pos g) r c),
   after_init (r * c) g).

Definition mu_init_vector (n : nat) (g : Rng) : vector * Rng :=
  (map (glorot_uniform n n) (stream_vector (uniform_stream g) (uniform_pos g) n),
   after_init n g).

(** [tf.initializers.constant(-3)]. *)
Definition rho_init_matrix (r c : nat) (g : Rng) : matrix * Rng :=
  (repeat (repeat (Real (-3)) c) r, g).

Definition rho_init_vector (n : nat) (g : Rng) : vector * Rng :=
  (repeat (Real (-3)) n, g).

(** [tf.get_variable] inside a Sonnet template: the first call creates the
    variable from its initialiser, every later call returns the variable
    that exists and refuses another shape. *)
Definition get_variable {A : Type} (existing : option (Array A))
  (shp : list nat) (initializer : Rng -> A * Rng) (g : Rng)
  : result (Array A * Rng) :=
  match existing with
  | Some v =>
      if list_eq_dec Nat.eq_dec shp (shape v) then Ok (v, g)
      else Raise ValueError
  | None =>
      let (x, g') := initializer g in Ok (mkArray shp x, g')
  end.

(** ** [class VarLinear]: the variational fully-connected layer *)

Module VarLinear.

(** The attributes of a layer object; [None] is an attribute that has not
    been set.  [is_connected] is Sonnet's flag, set when a call of the
    module has returned. *)
Record t : Type := mk {
  is_connected : bool;
  _input_shape : option (list (option nat));
  _use_bias : bool;
  output_size : nat;
  prior : Distribution;
  _num_weights : option nat;
  _num_biases : option nat;
  _w_mu : option (Array matrix);
  _w_rho : option (Array matrix);
  _b_mu : option (Array vector);
  _b_rho : option (Array vector);
  _kl_divergence : option scalar
}.

Definition __init__ (output_size : nat) (prior : Distribution)
  (use_bias : bool) : t :=
  mk false None use_bias output_size prior None None None None None None None.

Definition set_w_mu (self : t) (v : Array matrix) : t :=
  mk (is_connected self) (_input_shape self) (_use_bias self)
     (output_size self) (prior self) (_num_weights self) (_num_biases self)
     (Some v) (_w_rho self) (_b_mu self) (_b_rho self) (_kl_divergence self).

Definition set_w_rho (self : t) (v : Array matrix) : t :=
  mk (is_connected self) (_input_shape self) (_use_bias self)
     (output_size self) (prior self) (_num_weights self) (_num_biases self)
     (_w_mu self) (Some v) (_b_mu self) (_b_rho self) (_kl_divergence self).

Definition set_b_mu (self : t) (v : Array vector) : t :=
  mk (is_connected self) (_input_shape self) (_use_bias self)
     (output_size self) (prior self) (_num_weights self) (_num_biases self)
     (_w_mu self) (_w_rho self) (Some v) (_b_rho self) (_kl_divergence self).

Definition set_b_rho (self : t) (v : Array vector) : t :=
  mk (is_connected self) (_input_shape self) (_use_bias self)
     (output_size self) (prior self) (_num_weights self) (_num_biases self)
     (_w_mu self) (_w_rho self) (_b_mu self) (Some v) (_kl_divergence self).

Definition set_connected (self : t) : t :=
  mk true (_input_shape self) (_use_bias self)
     (output_size self) (prior self) (_num_weights self) (_num_biases self)
     (_w_mu self) (_w_rho self) (_b_mu self) (_b_rho self)
     (_kl_divergence self).

Definition _ensure_is_connected (self : t) : result unit :=
  if is_connected self then Ok tt else Raise NotConnectedError.

(** *** The properties *)

Definition kl_divergence (self : t) : result scalar :=
  _ensure_is_connected self ;;;
  attr "_kl_divergence" (_kl_divergence self).

Definition w_mu (self : t) : result (Array matrix) :=
  _ensure_is_connected self ;;; attr "_w_mu" (_w_mu self).

Definition w_rho (self : t) : result (Array matrix) :=
  _ensure_is_connected self ;;; attr "_w_rho" (_w_rho self).

Definition w_sigma (self : t) : result (Array matrix) :=
  _ensure_is_connected self ;;;
  rho <- attr "_w_rho" (_w_rho self) ;;
  Ok (assign rho (mmap softplus (value rho))).

Definition b_mu (self : t) : result (Array vector) :=
  _ensure_is_connected self ;;; attr "_b_mu" (_b_mu self).

Definition b_rho (self : t) : result (Array vector) :=
  _ensure_is_connected self ;;; attr "_b_rho" (_b_rho self).

Definition b_sigma (self : t) : result (Array vector) :=
  _ensure_is_connected self ;;;
  rho <- attr "_b_rho" (_b_rho self) ;;
  Ok (assign rho (map softplus (value rho))).

(** *** [_build]: one forward pass

    The three shape checks raise [base.IncompatibleShapeError], but the
    module binds no name [base] (its imports are numpy as np, tensorflow as
    tf, tensorflow_probability as tfp, sonnet as snt, and two functions):
    evaluating the operand of [raise] fails with a [NameError]. *)

Definition raise_IncompatibleShapeError {A : Type} : result A :=
  Raise (NameError "base").

Definition dim_eqb (a b : option nat) : bool :=
  match a, b with
  | Some x, Some y => Nat.eqb x y
  | None, None => true
  | _, _ => false
  end.

Definition width_changed (self : t) (width : nat) : bool :=
  match _input_shape self with
  | Some s => negb (dim_eqb (Some width) (nth 1 s None))
  | None => false
  end.

Definition _build (self : t) (inputs : Tensor) (g : Rng)
  : result (matrix * t * Rng) :=
  let input_shape := static_shape inputs in
  if negb (Nat.eqb (List.length input_shape) 2) then
    raise_IncompatibleShapeError
  else
    match nth 1 input_shape None with
    | None => raise_IncompatibleShapeError
    | Some width =>
        if width_changed self width then raise_IncompatibleShapeError
        else
          let out := output_size self in
          wm <- get_variable (_w_mu self) [width; out]
                             (mu_init_matrix width out) g ;;
          wr <- get_variable (_w_rho self) [width; out]
                             (rho_init_matrix width out) (snd wm) ;;
          let w_mu := fst wm in
          let w_rho := fst wr in
          let w_scale := mmap softplus (value w_rho) in
          let ws := sample_matrix (value w_mu) w_scale width out (snd wr) in
          let w := fst ws in
          let kl :=
            reduce_sum (mzip fsub (log_prob_matrix (value w_mu) w_scale w)
                                  (mmap (log_prob (prior self)) w)) in
          let outputs := matmul (rows inputs) w out in
          if _use_bias self then
            bm <- get_variable (_b_mu self) [out]
                               (mu_init_vector out) (snd ws) ;;
            br <- get_variable (_b_rho self) [out]
                               (rho_init_vector out) (snd bm) ;;
            let b_mu := fst bm in
            let b_rho := fst br in
            let b_scale := map softplus (value b_rho) in
            let bs := sample_vector (value b_mu) b_scale out (snd br) in
            let b := fst bs in
            let kl :=
              fadd kl
                   (reduce_sum_vector
                      (zipWith fsub (log_prob_vector (value b_mu) b_scale b)
                                    (map (log_prob (prior self)) b))) in
            Ok (add_bias outputs b,
                mk (is_connected self) (Some input_shape) (_use_bias self) out
                   (prior self) (Some (width * out)) (Some out)
                   (Some w_mu) (Some w_rho) (Some b_mu) (Some b_rho)
                   (Some kl),
                snd bs)
          else
            Ok (outputs,
                mk (is_connected self) (Some input_shape) (_use_bias self) out
                   (prior self) (Some (width * out)) (_num_biases self)
                   (Some w_mu) (Some w_rho) (_b_mu self) (_b_rho self)
                   (Some kl),
                snd ws)
    end.

(** Calling the module: Sonnet runs [_build] and then marks the module as
    connected. *)
Definition __call__ (self : t) (inputs : Tensor) (g : Rng)
  : result (matrix * t * Rng) :=
  r <- _build self inputs g ;;
  Ok (fst (fst r), set_connected (snd (fst r)), snd r).

(** *** [prune_below_snr], with [verbose] at its default [False] *)

Definition snr_of (m s : scalar) : scalar :=
  fmul (Real 10) (flog (fdiv (fabs m) s)).

Definition prune_below_snr (self : t) (snr : scalar) : result t :=
  _ensure_is_connected self ;;;
  w_mu0 <- attr "_w_mu" (_w_mu self) ;;
  w_sigma0 <- w_sigma self ;;
  let w_snr := mzip snr_of (value w_mu0) (value w_sigma0) in
  let w_mask := mmap (fun x => cast_bool (fgreater x snr)) w_snr in
  let self := set_w_mu self (assign w_mu0 (mzip fmul (value w_mu0) w_mask)) in
  w_rho0 <- attr "_w_rho" (_w_rho self) ;;
  w_sigma1 <- w_sigma self ;;
  let self :=
    set_w_rho self
      (assign w_rho0
              (mmap softplus_inverse (mzip fmul (value w_sigma1) w_mask))) in
  if _use_bias self then
    b_mu0 <- attr "_b_mu" (_b_mu self) ;;
    b_sigma0 <- b_sigma self ;;
    let b_snr := zipWith snr_of (value b_mu0) (value b_sigma0) in
    let b_mask := map (fun x => cast_bool (fgreater x snr)) b_snr in
    let self :=
      set_b_mu self (assign b_mu0 (zipWith fmul (value b_mu0) b_mask)) in
    b_rho0 <- attr "_b_rho" (_b_rho self) ;;
    b_sigma1 <- b_sigma self ;;
    Ok (set_b_rho self
          (assign b_rho0
                  (map softplus_inverse
                       (zipWith fmul (value b_sigma1) b_mask))))
  else Ok self.

End VarLinear.

(** ** [class VarEstimator] and its subclasses *)

(** The activations named in the call of [eliminate_dead_neurons]:
    [tf.nn.relu] and [lambda x: x]. *)
Inductive activation : Type :=
| act_relu
| act_identity.

(** [snt.BatchFlatten]: every dimension but the first is merged into one.
    The entries are already kept as one row per example. *)
Fixpoint prod_dims (dims : list (option nat)) : option nat :=
  match dims with
  | [] => Some 1
  | Some d :: rest =>
      match prod_dims rest with
      | Some p => Some (d * p)
      | None => None
      end
  | None :: _ => None
  end.

Definition BatchFlatten (inputs : Tensor) : result Tensor :=
  match static_shape inputs with
  | [] => Raise ValueError
  | batch :: rest => Ok (mkTensor [batch; prod_dims rest] (rows inputs))
  end.

Definition index {A : Type} (l : list A) (i : nat) : result A :=
  match nth_error l i with
  | Some a => Ok a
  | None => Raise IndexError
  end.

Definition column_index (width : nat) (i : Z) : result nat :=
  if (0 <=? i)%Z && (i <? Z.of_nat width)%Z then Ok (Z.to_nat i)
  else Raise IndexError.

(** Modelled from the spec: [utils.list_slice] is imported by
    [variational.py] but is not among the sources.  The reduced network is
    "given only the retained input features (selected via input_indices)":
    along axis 1 the columns named by [indices] are kept, in that order. *)
Definition list_slice (x : Tensor) (indices : list Z) : result Tensor :=
  match nth 1 (static_shape x) None with
  | None => Raise ValueError
  | Some width =>
      cols <- mapM (column_index width) indices ;;
      Ok (mkTensor [nth 0 (static_shape x) None; Some (List.length cols)]
                   (map (fun row => map (fun j => nth j row (Real 0)) cols)
                        (rows x)))
  end.

Module VarEstimator.

(** The subclass of the network and the fields it adds: [units] for the
    three task networks, the retained inputs and the trimmed parameters for
    the reduced network. *)
Inductive architecture : Type :=
| VarMushroomRL (units : nat)
| VarRegression (units : nat)
| VarMNIST (units : nat)
| ReducedVarMNIST (_input_indices : list Z)
    (_w_mus _w_sigmas : list (Array matrix))
    (_b_mus _b_sigmas : list (Array vector)).

Record t : Type := mk {
  arch : architecture;
  prior : Distribution;
  _layers : list VarLinear.t;
  is_training : bool;
  is_connected : bool
}.

Definition __init__ (a : architecture) (prior : Distribution) : t :=
  mk a prior [] true false.

Definition _ensure_is_connected (self : t) : result unit :=
  if is_connected self then Ok tt else Raise NotConnectedError.

(** The output sizes of the three layers. *)
Definition layer_sizes (a : architecture) : result (nat * nat * nat) :=
  match a with
  | VarMushroomRL units | VarRegression units => Ok (units, units, 1)
  | VarMNIST units => Ok (units, units, 10)
  | ReducedVarMNIST _ w_mus _ _ _ =>
      num_units <- mapM (fun w => index (shape w) 1) w_mus ;;
      n0 <- index num_units 0 ;;
      n1 <- index num_units 1 ;;
      Ok (n0, n1, 10)
  end.

Definition select_inputs (a : architecture) (flattened : Tensor)
  : result Tensor :=
  match a with
  | ReducedVarMNIST input_indices _ _ _ _ =>
      list_slice flattened input_indices
  | _ => Ok flattened
  end.

(** [VarLinear(output_size=..., prior=self.prior)] inside [_build].  Every
    call of the network makes new layer objects; from the second call on,
    [tf.get_variable] finds the variables that the layer in the same
    position created, so the new object starts with them. *)
Definition new_layer (output_size : nat) (prior : Distribution)
  (previous : option VarLinear.t) : VarLinear.t :=
  match previous with
  | None => VarLinear.__init__ output_size prior true
  | Some old =>
      VarLinear.mk false None true output_size prior None None
        (VarLinear._w_mu old) (VarLinear._w_rho old)
        (VarLinear._b_mu old) (VarLinear._b_rho old) None
  end.

(** The output of a layer after [tf.nn.relu], as the next layer's input. *)
Definition hidden (inputs : Tensor) (width : nat) (dense : matrix) : Tensor :=
  mkTensor [nth 0 (static_shape inputs) None; Some width] (mmap relu dense).

Definition _build (self : t) (inputs : Tensor) (g : Rng)
  : result (matrix * t * Rng) :=
  sizes <- layer_sizes (arch self) ;;
  let n1 := fst (fst sizes) in
  let n2 := snd (fst sizes) in
  let n_out := snd sizes in
  flattened <- BatchFlatten inputs ;;
  flattened <- select_inputs (arch self) flattened ;;
  let linear_1 := new_layer n1 (prior self) (nth_error (_layers self) 0) in
  r1 <- VarLinear.__call__ linear_1 flattened g ;;
  let dense := hidden flattened n1 (fst (fst r1)) in
  let linear_2 := new_layer n2 (prior self) (nth_error (_layers self) 1) in
  r2 <- VarLinear.__call__ linear_2 dense (snd r1) ;;
  let dense := hidden dense n2 (fst (fst r2)) in
  let linear_out :=
    new_layer n_out (prior self) (nth_error (_layers self) 2) in
  r3 <- VarLinear.__call__ linear_out dense (snd r2) ;;
  let logits := fst (fst r3) in
  Ok (logits,
      mk (arch self) (prior self)
         [snd (fst r1); snd (fst r2); snd (fst r3)]
         (is_training self) (is_connected self),
      snd r3).

Definition set_connected (self : t) : t :=
  mk (arch self) (prior self) (_layers self) (is_training self) true.

Definition set_layers (self : t) (layers : list VarLinear.t) : t :=
  mk (arch self) (prior self) layers (is_training self) (is_connected self).

Definition __call__ (self : t) (inputs : Tensor) (g : Rng)
  : result (matrix * t * Rng) :=
  r <- _build self inputs g ;;
  Ok (fst (fst r), set_connected (snd (fst r)), snd r).

(** Python's [sum]: a left fold from 0. *)
Definition sum (l : list scalar) : scalar := fold_left fadd l (Real 0).

Definition kl_divergence (self : t) : result scalar :=
  _ensure_is_connected self ;;;
  kls <- mapM VarLinear.kl_divergence (_layers self) ;;
  Ok (sum kls).

(** [tf.concat(values, axis=0)] of vectors; it refuses an empty list. *)
Definition tf_concat (values : list vector) : result vector :=
  match values with
  | [] => Raise ValueError
  | _ => Ok (List.concat values)
  end.

Definition mu_vector (self : t) : result vector :=
  _ensure_is_connected self ;;;
  ws <- mapM (fun layer => v <- VarLinear.w_mu layer ;; Ok (flatten (value v)))
             (_layers self) ;;
  bs <- mapM (fun layer => v <- VarLinear.b_mu layer ;; Ok (value v))
             (_layers self) ;;
  tf_concat (ws ++ bs).

Definition sigma_vector (self : t) : result vector :=
  _ensure_is_connected self ;;;
  ws <- mapM (fun layer =>
                v <- VarLinear.w_sigma layer ;; Ok (flatten (value v)))
             (_layers self) ;;
  bs <- mapM (fun layer => v <- VarLinear.b_sigma layer ;; Ok (value v))
             (_layers self) ;;
  tf_concat (ws ++ bs).

Definition prune_below_snr (self : t) (snr : scalar) : result t :=
  _ensure_is_connected self ;;;
  layers <- mapM (fun layer => VarLinear.prune_below_snr layer snr)
                 (_layers self) ;;
  Ok (set_layers self layers).

Definition sample_posterior (self : t) (g : Rng) : result (vector * Rng) :=
  locs <- mu_vector self ;;
  scales <- sigma_vector self ;;
  Ok (sample_vector locs scales (List.length locs) g).

(** What a Python call hands back: a module object or a pair. *)
Inductive object : Type :=
| Module_ (m : t)
| Pair (first second : object).

Section Compression.

(** [compression.eliminate_dead_neurons] is imported by [variational.py]
    but is not among the sources; it is a parameter of [compress].  It
    receives numpy copies of the parameters and the three activations,
    and hands back [input_indices, w_mus, w_sigmas, b_mus, b_sigmas], or
    fails with an exception of its own ([None]). *)
Variable eliminate_dead_neurons :
  list (Array matrix) -> list (Array matrix) ->
  list (Array vector) -> list (Array vector) -> list activation ->
  option (list Z * list (Array matrix) * list (Array matrix)
          * list (Array vector) * list (Array vector)).

(** [compress]: the value handed back and the network after the call. *)
Definition compress (self : t) : result (object * t) :=
  w_mus <- mapM VarLinear.w_mu (_layers self) ;;
  w_sigmas <- mapM VarLinear.w_sigma (_layers self) ;;
  b_mus <- mapM VarLinear.b_mu (_layers self) ;;
  b_sigmas <- mapM VarLinear.b_sigma (_layers self) ;;
  match eliminate_dead_neurons w_mus w_sigmas b_mus b_sigmas
          [act_relu; act_relu; act_identity] with
  | None => Raise ExternalError
  | Some (input_indices, w_mus', w_sigmas', b_mus', b_sigmas') =>
      let reduced_model :=
        __init__ (ReducedVarMNIST input_indices w_mus' w_sigmas'
                                  b_mus' b_sigmas')
                 (prior self) in
      Ok (Module_ reduced_model, self)
  end.

End Compression.

End VarEstimator.

(** ** [class ReducedVarMNIST]: the mask of the inputs *)

Module ReducedVarMNIST.

(** numpy's index rule for an axis of length [n]: -n <= i < n, a negative
    index counting from the end. *)
Definition normalize_index (n : nat) (i : Z) : result nat :=
  if (0 <=? i)%Z && (i <? Z.of_nat n)%Z then Ok (Z.to_nat i)
  else if (- Z.of_nat n <=? i)%Z && (i <? 0)%Z then
         Ok (Z.to_nat (Z.of_nat n + i))
       else Raise IndexError.

Fixpoint set_nth (i : nat) (x : scalar) (a : vector) : vector :=
  match a, i with
  | [], _ => []
  | _ :: a', O => x :: a'
  | y :: a', S i' => y :: set_nth i' x a'
  end.

(** [a[indices] = x] *)
Definition setitem (a : vector) (indices : list Z) (x : scalar)
  : result vector :=
  positions <- mapM (normalize_index (List.length a)) indices ;;
  Ok (fold_left (fun acc i => set_nth i x acc) positions a).

(** [a.reshape((r, c))] of a vector with r * c entries. *)
Definition reshape (r c : nat) (a : vector) : matrix :=
  map (fun i => firstn c (skipn (i * c) a)) (seq 0 r).

Definition get_unused_input_mask (self : VarEstimator.t)
  : result (Array matrix) :=
  match VarEstimator.arch self with
  | VarEstimator.ReducedVarMNIST input_indices _ _ _ _ =>
      let mask := repeat (Real 0) (28 * 28) in
      mask <- setitem mask input_indices (Real 1) ;;
      Ok (mkArray [28; 28] (reshape 28 28 mask))
  | _ => Raise (AttributeError "get_unused_input_mask")
  end.

(** [tf.assign(ref, value)] under eager execution, which [compress] needs
    for its [.numpy()] reads: the variable keeps its shape and takes the
    entries of [value]; a value of another shape is refused. *)
Definition tf_assign {A : Type} (ref new : Array A) : result (Array A) :=
  if list_eq_dec Nat.eq_dec (shape ref) (shape new)
  then Ok (assign ref (value new))
  else Raise ValueError.

(** Python's [enumerate]. *)
Fixpoint enumerate_from {A : Type} (i : nat) (l : list A) : list (nat * A) :=
  match l with
  | [] => []
  | a :: l' => (i, a) :: enumerate_from (S i) l'
  end.

Definition enumerate {A : Type} (l : list A) : list (nat * A) :=
  enumerate_from 0 l.

(** The body of the loop of [assign_params], for the layer in position [i]:
    four assignments, each reading the layer's property first and the
    stored array second. *)
Definition assign_layer (w_mus w_sigmas : list (Array matrix))
  (b_mus b_sigmas : list (Array vector)) (i : nat) (layer : VarLinear.t)
  : result VarLinear.t :=
  ref <- VarLinear.w_mu layer ;;
  new <- index w_mus i ;;
  ref <- tf_assign ref new ;;
  let layer := VarLinear.set_w_mu layer ref in
  ref <- VarLinear.b_mu layer ;;
  new <- index b_mus i ;;
  ref <- tf_assign ref new ;;
  let layer := VarLinear.set_b_mu layer ref in
  ref <- VarLinear.w_rho layer ;;
  new <- index w_sigmas i ;;
  ref <- tf_assign ref (mkArray (shape new)
                                (mmap softplus_inverse (value new))) ;;
  let layer := VarLinear.set_w_rho layer ref in
  ref <- VarLinear.b_rho layer ;;
  new <- index b_sigmas i ;;
  ref <- tf_assign ref (mkArray (shape new)
                                (map softplus_inverse (value new))) ;;
  Ok (VarLinear.set_b_rho layer ref).

Definition assign_params (self : VarEstimator.t) : result VarEstimator.t :=
  match VarEstimator.arch self with
  | VarEstimator.ReducedVarMNIST _ w_mus w_sigmas b_mus b_sigmas =>
      layers <- mapM (fun il => assign_layer w_mus w_sigmas b_mus b_sigmas
                                             (fst il) (snd il))
                     (enumerate (VarEstimator._layers self)) ;;
      Ok (VarEstimator.set_layers self layers)
  | _ => Raise (AttributeError "assign_params")
  end.

End ReducedVarMNIST.

(** ** The Gaussian likelihood term *)

(** [tf.losses.mean_squared_error(labels, predictions)] with its default
    weight 1.0 and reduction [SUM_BY_NONZERO_WEIGHTS], on tensors kept as a
    shape and the entries in row-major order.  The shapes must be the same
    ([assert_is_compatible_with]); the squared differences, times the
    weight, are summed and divided by their number with [div_no_nan], which
    gives 0 when there is no entry. *)
Definition mean_squared_error (labels predictions : Array vector)
  : result scalar :=
  if list_eq_dec Nat.eq_dec (shape predictions) (shape labels) then
    let losses :=
      zipWith (fun p y => fsquare (fsub p y))
              (value predictions) (value labels) in
    let weighted_losses := map (fun l => fmul l (Real 1)) losses in
    let loss := reduce_sum_vector weighted_losses in
    let num_present := List.length losses in
    Ok (if Nat.eqb num_present 0 then Real 0
        else fdiv loss (Real (INR num_present)))
  else Raise ValueError.

(** [neg_log_prob_with_gaussian]; [tf.reshape(predictions, [-1, 1])] makes
    one row of each entry. *)
Definition neg_log_prob_with_gaussian (predictions : matrix)
  (labels : Array vector) (sigma : scalar) : result scalar :=
  let column := flatten predictions in
  neg_log_prob <- mean_squared_error
                    labels (mkArray [List.length column; 1%nat] column) ;;
  Ok (fadd (fdiv neg_log_prob (fmul (Real 2) (fsquare sigma))) (flog sigma)).

(** ** The categorical likelihood term *)

(** A class label for [num_classes] classes.  TensorFlow's CPU kernel
    refuses a label outside [0, num_classes) with an exception of its own. *)
Definition class_index (num_classes : nat) (label : Z) : result nat :=
  if (0 <=? label)%Z && (label <? Z.of_nat num_classes)%Z
  then Ok (Z.to_nat label)
  else Raise ExternalError.

(** [tf.nn.sparse_softmax_cross_entropy_with_logits] for logits of rank 2:
    the labels must have the shape of the logits without the last
    dimension, and the loss of an example is minus the log-softmax of its
    logits at its label. *)
Definition sparse_softmax_cross_entropy_with_logits
  (labels : Array (list Z)) (logits : Array matrix) : result vector :=
  match shape logits with
  | [n; num_classes] =>
      if list_eq_dec Nat.eq_dec (shape labels) [n] then
        mapM (fun example : Z * vector =>
                class <- class_index num_classes (fst example) ;;
                Ok (fneg (nth class (log_softmax (snd example)) NaN)))
             (combine (value labels) (value logits))
      else Raise ValueError
  | _ => Raise ValueError
  end.

Definition neg_log_prob_with_categorical (logits : Array matrix)
  (labels : Array (list Z)) : result scalar :=
  neg_log_prob <- sparse_softmax_cross_entropy_with_logits labels logits ;;
  Ok (reduce_sum_vector neg_log_prob).

(** ** [reinforcement_learning.py]: choosing the next action *)

(** numpy's global random generator: the draws of [np.random.uniform], the
    draws of [np.random.choice([0, 1])] as positions in [[0, 1]], and the
    number of draws made so far. *)
Record NumpyRandom : Type := mkNumpyRandom {
  uniform_draws : nat -> scalar;
  choice_draws : nat -> bool;
  draws_made : nat
}.

Definition np_random_uniform (size : nat) (np : NumpyRandom)
  : vector * NumpyRandom :=
  (map (uniform_draws np) (seq (draws_made np) size),
   mkNumpyRandom (uniform_draws np) (choice_draws np) (draws_made np + size)).

Definition np_random_choice (size : nat) (np : NumpyRandom)
  : list nat * NumpyRandom :=
  (map (fun i => if choice_draws np i then 1%nat else 0%nat)
       (seq (draws_made np) size),
   mkNumpyRandom (uniform_draws np) (choice_draws np) (draws_made np + size)).

(** The running totals [no_eat_rewards] and [eat_rewards]: a Python int
    before the first forward pass, an array afterwards. *)
Inductive rewards : Type :=
| IntReward (z : Z)
| ArrayReward (m : matrix).

(** [total += y] for an array [y]: an int is added to every entry of [y];
    an array, which here always has the shape of [y], is added entry by
    entry. *)
Definition iadd (total : rewards) (y : matrix) : rewards :=
  match total with
  | IntReward z => ArrayReward (mmap (fadd (Real (IZR z))) y)
  | ArrayReward m => ArrayReward (mzip fadd m y)
  end.

(** [np.hstack([context, a, b])] for the two constant columns that encode
    an action. *)
Definition with_action (context : matrix) (action : vector) : matrix :=
  map (fun row => row ++ action) context.

(** The loop over [range(num_thompson_samples)]: two forward passes of the
    agent per round. *)
Fixpoint thompson_sampling (rounds : nat) (agent : VarEstimator.t)
  (no_eat_action eat_action : Tensor) (no_eat_rewards eat_rewards : rewards)
  (g : Rng) : result (rewards * rewards * VarEstimator.t * Rng) :=
  match rounds with
  | O => Ok (no_eat_rewards, eat_rewards, agent, g)
  | S rounds' =>
      r1 <- VarEstimator.__call__ agent no_eat_action g ;;
      let no_eat_rewards := iadd no_eat_rewards (fst (fst r1)) in
      r2 <- VarEstimator.__call__ (snd (fst r1)) eat_action (snd r1) ;;
      let eat_rewards := iadd eat_rewards (fst (fst r2)) in
      thompson_sampling rounds' (snd (fst r2)) no_eat_action eat_action
                        no_eat_rewards eat_rewards (snd r2)
  end.

(** [np.hstack([no_eat_rewards, eat_rewards])] followed by the axis check
    of [np.argmax(rewards, axis=1)]: two ints stack to a one-dimensional
    array, which has no axis 1 (numpy's [AxisError], an [IndexError]). *)
Definition hstack_rewards (no_eat_rewards eat_rewards : rewards)
  : result matrix :=
  match no_eat_rewards, eat_rewards with
  | ArrayReward a, ArrayReward b => Ok (zipWith (@app scalar) a b)
  | _, _ => Raise IndexError
  end.

(** [np.argmax] along one row: the first position of the largest entry,
    where a NaN counts as larger than every number. *)
Definition beats (x best : scalar) : bool :=
  match best, x with
  | NaN, _ => false
  | _, NaN => true
  | _, _ => fgreater x best
  end.

Fixpoint argmax_from (best : scalar) (best_i i : nat) (l : vector) : nat :=
  match l with
  | [] => best_i
  | x :: l' =>
      if beats x best then argmax_from x i (S i) l'
      else argmax_from best best_i (S i) l'
  end.

Definition argmax (row : vector) : result nat :=
  match row with
  | [] => Raise ValueError
  | x :: l => Ok (argmax_from x 0 1 l)
  end.

(** [action[mask] = values[mask]] for a boolean mask as long as [action]. *)
Definition masked_assign (action : list nat) (mask : list bool)
  (values : list nat) : list nat :=
  zipWith (fun (a : nat) (mv : bool * nat) => if fst mv then snd mv else a)
          action (combine mask values).

(** [get_action]: the actions, and the agent and the two random generators
    after the call.  The context is a two-dimensional array; any other
    array fails in [context.shape[0]] or in [np.hstack]. *)
Definition get_action (agent : VarEstimator.t) (context : Array matrix)
  (epsilon : scalar) (num_thompson_samples : nat) (g : Rng)
  (np : NumpyRandom)
  : result (list nat * VarEstimator.t * Rng * NumpyRandom) :=
  match shape context with
  | [] => Raise IndexError
  | [num_contexts; width] =>
      let no_eat_action :=
        mkTensor [Some num_contexts; Some (width + 2)%nat]
                 (with_action (value context) [Real 1; Real 0]) in
      let eat_action :=
        mkTensor [Some num_contexts; Some (width + 2)%nat]
                 (with_action (value context) [Real 0; Real 1]) in
      r <- thompson_sampling num_thompson_samples agent
                             no_eat_action eat_action
                             (IntReward 0) (IntReward 1) g ;;
      rewards <- hstack_rewards (fst (fst (fst r))) (snd (fst (fst r))) ;;
      action <- mapM argmax rewards ;;
      let uniform := np_random_uniform num_contexts np in
      let rand_indices := map (fun u => fgreater epsilon u) (fst uniform) in
      let rand_actions := np_random_choice num_contexts (snd uniform) in
      if Nat.eqb (List.length action) num_contexts then
        Ok (masked_assign action rand_indices (fst rand_actions),
            snd (fst r), snd r, snd rand_actions)
      else Raise IndexError
  | _ => Raise ValueError
  end.

(** ** State predicates *)

(** The mean and the raw scale of one parameter tensor have the same
    dimensions, entry for entry. *)
Definition aligned_layer (self : VarLinear.t) : Prop :=
  match VarLinear._w_mu self, VarLinear._w_rho self with
  | Some m, Some r =>
      map (@List.length scalar) (value m) = map (@List.length scalar) (value r)
  | None, None => True
  | _, _ => False
  end /\
  match VarLinear._b_mu self, VarLinear._b_rho self with
  | Some m, Some r => List.length (value m) = List.length (value r)
  | None, None => True
  | _, _ => False
  end.

(** A layer that has completed a forward pass. *)
Definition built_layer (self : VarLinear.t) : Prop :=
  VarLinear.is_connected self = true /\
  VarLinear._w_mu self <> None /\
  VarLinear._kl_divergence self <> None /\
  (VarLinear._use_bias self = true -> VarLinear._b_mu self <> None) /\
  aligned_layer self.

(** A network that has completed a forward pass. *)
Definition built_network (self : VarEstimator.t) : Prop :=
  VarEstimator.is_connected self = true /\
  VarEstimator._layers self <> [] /\
  Forall (fun layer => built_layer layer
                       /\ VarLinear._use_bias layer = true)
         (VarEstimator._layers self).

(** ** Pruning, entry by entry *)

(** The keep-mask of one entry with mean [m] and raw scale [rho]. *)
Definition keep_mask (snr m rho : scalar) : scalar :=
  cast_bool (fgreater (VarLinear.snr_of m (softplus rho)) snr).

Definition pruned_mean (snr m rho : scalar) : scalar :=
  fmul m (keep_mask snr m rho).

Definition pruned_rho (snr m rho : scalar) : scalar :=
  softplus_inverse (fmul (softplus rho) (keep_mask snr m rho)).

(** ** The signal-to-noise ratio in the words of the specification *)

Definition flog10 (x : scalar) : scalar := fdiv (flog x) (flog (Real 10)).

(** snr = 10 log10(|mean| / scale) *)
Definition snr_db (m s : scalar) : scalar :=
  fmul (Real 10) (flog10 (fdiv (fabs m) s)).

Definition keep_mask_db (snr m rho : scalar) : scalar :=
  cast_bool (fgreater (snr_db m (softplus rho)) snr).

(** ** Sample states *)

Definition standard_normal_prior : Distribution :=
  create_gaussian_prior (mkParams (Real 0) (Real 0) (Real 0) (Real 0) (Real 0)).

(** A connected layer without bias and with one weight, of mean 10 ln 2 and
    raw scale 0, that is of scale softplus(0) = ln 2: the ratio
    |mean| / scale is 10. *)
Definition ratio_ten_layer : VarLinear.t :=
  VarLinear.mk true (Some [Some 4; Some 1]) false 1 standard_normal_prior
    (Some 1) None
    (Some (mkArray [1; 1] [[Real (10 * ln 2)]]))
    (Some (mkArray [1; 1] [[Real 0]]))
    None None (Some (Real 0)).

(** A generator whose streams are constant. *)
Definition constant_rng (eps u : scalar) : Rng :=
  mkRng (fun _ => eps) (fun _ => u) 0 0 0.

(** A layer that has not been called, and a batch of one example with two
    features. *)
Definition fresh_layer : VarLinear.t :=
  VarLinear.__init__ 1 standard_normal_prior true.

Definition one_example : Tensor :=
  mkTensor [Some 1; Some 2] [[Real 1; Real 2]].

(** Two generator states with the same noise for [sample()], at the same
    position, after the same number of calls of [sample()]. *)
Definition same_noise (g g' : Rng) : Prop :=
  normal_stream g' = normal_stream g /\
  normal_pos g' = normal_pos g /\
  sample_calls g' = sample_calls g.

(** The layer after its first forward pass, on that batch. *)
Definition called_layer : VarLinear.t :=
  match VarLinear.__call__ fresh_layer one_example
          (constant_rng (Real 0) (Real 1)) with
  | Ok (_, layer, _) => layer
  | Raise _ => fresh_layer
  end.

(** A classifier with two hidden units, before and after its first forward
    pass. *)
Definition fresh_network : VarEstimator.t :=
  VarEstimator.__init__ (VarEstimator.VarMNIST 2) standard_normal_prior.

Definition called_network : VarEstimator.t :=
  match VarEstimator.__call__ fresh_network one_example
          (constant_rng (Real 0) (Real 1)) with
  | Ok (_, net, _) => net
  | Raise _ => fresh_network
  end.

(** A layer without bias whose first forward pass, on a [4, 5] batch, fixed
    the input width at 5, and a [4, 6] batch. *)
Definition batch_4_5 : Tensor :=
  mkTensor [Some 4; Some 5] (repeat (repeat (Real 1) 5) 4).

Definition width_five_layer : VarLinear.t :=
  match VarLinear.__call__ (VarLinear.__init__ 1 standard_normal_prior false)
          batch_4_5 (constant_rng (Real 0) (Real 1)) with
  | Ok (_, layer, _) => layer
  | Raise _ => fresh_layer
  end.

Definition batch_4_6 : Tensor :=
  mkTensor [Some 4; Some 6] (repeat (repeat (Real 1) 6) 4).

(** ** The priors in the words of the specification *)

(** N(mean, sd): the density of the normal distribution with mean [mean] and
    standard deviation [sd]. *)
Definition normal_pdf (mean sd x : R) : R :=
  (/ (sd * sqrt (2 * PI)) * exp (- (((x - mean) / sd) ^ 2) / 2))%R.

(** mix_prop * N(0, sd1) + (1 - mix_prop) * N(0, sd2) *)
Definition mixture_pdf (mix_prop sd1 sd2 x : R) : R :=
  (mix_prop * normal_pdf 0 sd1 x + (1 - mix_prop) * normal_pdf 0 sd2 x)%R.

Definition gaussian_params (mu sigma : R) : Params :=
  mkParams (Real mu) (Real sigma) (Real 0) (Real 0) (Real 0).

Definition mixture_params (mix_prop sigma1 sigma2 : R) : Params :=
  mkParams (Real 0) (Real 0) (Real mix_prop) (Real sigma1) (Real sigma2).

(** A stand-in for [eliminate_dead_neurons] that finds nothing dead: every
    input of the first layer is retained and the parameters come back as
    they are. *)
Definition keep_everything
  (w_mus w_sigmas : list (Array matrix)) (b_mus b_sigmas : list (Array vector))
  (activations : list activation)
  : option (list Z * list (Array matrix) * list (Array matrix)
            * list (Array vector) * list (Array vector)) :=
  let inputs :=
    match w_mus with
    | w :: _ => nth 0 (shape w) 0%nat
    | [] => 0%nat
    end in
  Some (map Z.of_nat (seq 0 inputs), w_mus, w_sigmas, b_mus, b_sigmas).

(** The reduced network that retains only the first input position. *)
Definition first_input_only : VarEstimator.t :=
  VarEstimator.__init__
    (VarEstimator.ReducedVarMNIST [0%Z] [] [] [] []) standard_normal_prior.

(** The input position [p] is among the retained positions [indices], a
    negative index counting from the end of the 784 positions. *)
Definition retained (indices : list Z) (p : nat) : Prop :=
  exists i, In i indices /\ (i mod 784)%Z = Z.of_nat p.

(** ** The parameters of a network, one by one *)

(** Every weight of a layer as the pair (mean, raw scale) of the entries in
    the same row and column of [_w_mu] and [_w_rho], row after row. *)
Definition layer_weight_params (layer : VarLinear.t) : list (scalar * scalar) :=
  match VarLinear._w_mu layer, VarLinear._w_rho layer with
  | Some m, Some r =>
      List.concat (zipWith (@combine scalar scalar) (value m) (value r))
  | _, _ => []
  end.

Definition layer_bias_params (layer : VarLinear.t) : list (scalar * scalar) :=
  match VarLinear._b_mu layer, VarLinear._b_rho layer with
  | Some m, Some r => combine (value m) (value r)
  | _, _ => []
  end.

(** The weights of all layers in layer order, then the biases of all layers
    in layer order. *)
Definition parameters (self : VarEstimator.t) : list (scalar * scalar) :=
  List.concat (map layer_weight_params (VarEstimator._layers self))
  ++ List.concat (map layer_bias_params (VarEstimator._layers self)).

(** The mean and the scale of a parameter. *)
Definition mean_of (p : scalar * scalar) : scalar := fst p.
Definition scale_of (p : scalar * scalar) : scalar := softplus (snd p).

(** ** Shapes *)

(** A matrix of [r] rows of [c] entries. *)
Definition has_shape (r c : nat) (m : matrix) : Prop :=
  List.length m = r /\ Forall (fun row => List.length row = c) m.

(** The entries of a variable fit the shape it was created with. *)
Definition fits2 (v : Array matrix) : Prop :=
  exists r c, shape v = [r; c] /\ has_shape r c (value v).

Definition fits1 (v : Array vector) : Prop :=
  shape v = [List.length (value v)].

(** The variables of a layer come in pairs (mean, raw scale) of one shape,
    and their entries fit it. *)
Definition well_shaped_layer (self : VarLinear.t) : Prop :=
  match VarLinear._w_mu self, VarLinear._w_rho self with
  | Some m, Some r => fits2 m /\ fits2 r /\ shape m = shape r
  | None, None => True
  | _, _ => False
  end /\
  match VarLinear._b_mu self, VarLinear._b_rho self with
  | Some m, Some r => fits1 m /\ fits1 r /\ shape m = shape r
  | None, None => True
  | _, _ => False
  end.

(** The width of the logits of a network. *)
Definition out_dim (a : VarEstimator.architecture) : nat :=
  match a with
  | VarEstimator.VarMushroomRL _ | VarEstimator.VarRegression _ => 1
  | VarEstimator.VarMNIST _ | VarEstimator.ReducedVarMNIST _ _ _ _ _ => 10
  end.

(** The task networks, as opposed to the reduced network. *)
Definition task_network (a : VarEstimator.architecture) : Prop :=
  match a with
  | VarEstimator.ReducedVarMNIST _ _ _ _ _ => False
  | _ => True
  end.

(** Pruning one parameter, as the pair (mean, raw scale). *)
Definition prune_entry (snr : scalar) (p : scalar * scalar) : scalar * scalar :=
  (pruned_mean snr (fst p) (snd p), pruned_rho snr (fst p) (snd p)).

(** ** A posterior that sits on the prior *)

Definition finite (x : scalar) : Prop := exists r : R, x = Real r.

(** A layer whose prior is the normal distribution of mean [m0] and scale
    softplus([r0]) and whose every weight and bias has mean [m0] and raw
    scale [r0]. *)
Definition at_prior (m0 r0 : R) (self : VarLinear.t) : Prop :=
  VarLinear.prior self = NormalDist (mkNormal (Real m0) (softplus (Real r0))) /\
  (exists wm wr,
      VarLinear._w_mu self = Some wm /\ VarLinear._w_rho self = Some wr /\
      Forall (Forall (fun e => e = Real m0)) (value wm) /\
      Forall (Forall (fun e => e = Real r0)) (value wr)) /\
  (VarLinear._use_bias self = true ->
   exists bm br,
     VarLinear._b_mu self = Some bm /\ VarLinear._b_rho self = Some br /\
     Forall (fun e => e = Real m0) (value bm) /\
     Forall (fun e => e = Real r0) (value br)).

(** A trained layer without bias whose one weight has mean 0 and raw scale
    0, under the prior N(0, softplus(0)), and a batch of one example with
    one feature. *)
Definition prior_layer : VarLinear.t :=
  VarLinear.mk true (Some [Some 1; Some 1]) false 1
    (NormalDist (mkNormal (Real 0) (softplus (Real 0))))
    (Some 1) None
    (Some (mkArray [1; 1] [[Real 0]]))
    (Some (mkArray [1; 1] [[Real 0]]))
    None None (Some (Real 0)).

Definition one_feature : Tensor := mkTensor [Some 1; Some 1] [[Real 1]].

(** ** Transplanting stored parameters *)

(** A connected layer whose four variables have the shapes of the four
    arrays. *)
Definition receives (layer : VarLinear.t) (wm ws : Array matrix)
  (bm bs : Array vector) : Prop :=
  VarLinear.is_connected layer = true /\
  exists w_mu w_rho b_mu b_rho,
    VarLinear._w_mu layer = Some w_mu /\
    VarLinear._w_rho layer = Some w_rho /\
    VarLinear._b_mu layer = Some b_mu /\
    VarLinear._b_rho layer = Some b_rho /\
    shape w_mu = shape wm /\ shape w_rho = shape ws /\
    shape b_mu = shape bm /\ shape b_rho = shape bs.

(** The layer holds the two arrays of means as its means, and the
    softplus inverse of the two arrays of scales as its raw scales. *)
Definition reads_back (layer : VarLinear.t) (wm ws : Array matrix)
  (bm bs : Array vector) : Prop :=
  VarLinear.w_mu layer = Ok wm /\
  VarLinear.w_rho layer
  = Ok (mkArray (shape ws) (mmap softplus_inverse (value ws))) /\
  VarLinear.b_mu layer = Ok bm /\
  VarLinear.b_rho layer
  = Ok (mkArray (shape bs) (map softplus_inverse (value bs))).

(** The arrays stored in position [k] of a reduced network. *)
Definition stored (a : VarEstimator.architecture) (k : nat)
  (wm ws : Array matrix) (bm bs : Array vector) : Prop :=
  match a with
  | VarEstimator.ReducedVarMNIST _ w_mus w_sigmas b_mus b_sigmas =>
      nth_error w_mus k = Some wm /\ nth_error w_sigmas k = Some ws /\
      nth_error b_mus k = Some bm /\ nth_error b_sigmas k = Some bs
  | _ => False
  end.

(** A connected layer with one input and [out] outputs whose parameters are
    all 0, and a reduced network made of three of them that stores arrays
    of the same shapes. *)
Definition unit_layer (out : nat) : VarLinear.t :=
  VarLinear.mk true (Some [Some 1%nat; Some 1%nat]) true out
    standard_normal_prior (Some out) (Some out)
    (Some (mkArray [1%nat; out] [repeat (Real 0) out]))
    (Some (mkArray [1%nat; out] [repeat (Real 0) out]))
    (Some (mkArray [out] (repeat (Real 0) out)))
    (Some (mkArray [out] (repeat (Real 0) out)))
    (Some (Real 0)).

Definition stored_matrix (out : nat) (x : scalar) : Array matrix :=
  mkArray [1%nat; out] [repeat x out].

Definition stored_vector (out : nat) (x : scalar) : Array vector :=
  mkArray [out] (repeat x out).

Definition transplant_network : VarEstimator.t :=
  VarEstimator.mk
    (VarEstimator.ReducedVarMNIST [0%Z]
       [stored_matrix 1 (Real 2); stored_matrix 1 (Real 2);
        stored_matrix 10 (Real 2)]
       [stored_matrix 1 (Real 1); stored_matrix 1 (Real 1);
        stored_matrix 10 (Real 1)]
       [stored_vector 1 (Real 3); stored_vector 1 (Real 3);
        stored_vector 10 (Real 3)]
       [stored_vector 1 (Real 1); stored_vector 1 (Real 1);
        stored_vector 10 (Real 1)])
    standard_normal_prior [unit_layer 1; unit_layer 1; unit_layer 10]
    true true.

(** ** Magnitudes that float32 carries through the likelihood *)

(** A magnitude of at most 2^20: the squares, sums and quotients that the
    Gaussian likelihood term takes of such values stay far inside the
    range of float32. *)
Definition moderate (x : R) : Prop := (Rabs x <= 1048576)%R.

(** A scale between 2^-20 and 2^20. *)
Definition moderate_scale (sd : R) : Prop := (/ 1048576 <= sd <= 1048576)%R.


(** ** Sums of reals *)

Definition Rsum (l : list R) : R := fold_right Rplus 0%R l.

(** The negative log-density of the label [y] under the normal
    distribution centred on the prediction [p]. *)
Definition gaussian_nll (sd p y : R) : R := (- ln (normal_pdf p sd y))%R.

(** Labels for two predictions, as a column. *)
Definition two_labels : Array vector := mkArray [2%nat; 1%nat] [Real 1; Real 3].

Definition two_predictions : matrix := [[Real 2]; [Real 5]].

(** ** A network that can be called again *)

(** A variable that, if it exists, has the shape [shp]. *)
Definition holds {A : Type} (v : option (Array A)) (shp : list nat) : Prop :=
  match v with
  | Some a => shape a = shp
  | None => True
  end.

(** The layer in a position of the network, if there is one, has variables
    for [width] inputs and [out] outputs. *)
Definition takes (previous : option VarLinear.t) (width out : nat) : Prop :=
  match previous with
  | None => True
  | Some old =>
      holds (VarLinear._w_mu old) [width; out] /\
      holds (VarLinear._w_rho old) [width; out] /\
      holds (VarLinear._b_mu old) [out] /\
      holds (VarLinear._b_rho old) [out]
  end.

(** A network that has never been called, or whose layers were built for
    inputs of [width] features. *)
Definition accepts (self : VarEstimator.t) (width : nat) : Prop :=
  Forall well_shaped_layer (VarEstimator._layers self) /\
  exists n1 n2 n3,
    VarEstimator.layer_sizes (VarEstimator.arch self) = Ok (n1, n2, n3) /\
    takes (nth_error (VarEstimator._layers self) 0) width n1 /\
    takes (nth_error (VarEstimator._layers self) 1) n1 n2 /\
    takes (nth_error (VarEstimator._layers self) 2) n2 n3.

(** A uniform draw lies in [0, 1). *)
Definition unit_interval (x : scalar) : Prop :=
  exists u : R, x = Real u /\ (0 <= u < 1)%R.

(** One context of one feature, and a generator whose draws are all 1/2. *)
Definition one_context : Array matrix := mkArray [1%nat; 1%nat] [[Real 1]].

Definition half_draws : NumpyRandom :=
  mkNumpyRandom (fun _ => Real (/ 2)) (fun _ => true) 0.

Definition fresh_agent : VarEstimator.t :=
  VarEstimator.__init__ (VarEstimator.VarMushroomRL 1) standard_normal_prior.

(** A running total that, once it is an array, has one entry per context. *)
Definition reward_shape (n : nat) (r : rewards) : Prop :=
  match r with
  | IntReward _ => True
  | ArrayReward m => has_shape n 1 m
  end.

Definition is_array (r : rewards) : Prop := exists m, r = ArrayReward m.

(** The two actions: 0 is not to eat, 1 is to eat. *)
Definition is_action (a : nat) : Prop := a = 0%nat \/ a = 1%nat.

(** The two inputs that [get_action] gives to the agent. *)
Definition no_eat_input (context : Array matrix) (n d : nat) : Tensor :=
  mkTensor [Some n; Some (d + 2)%nat]
           (with_action (value context) [Real 1; Real 0]).

Definition eat_input (context : Array matrix) (n d : nat) : Tensor :=
  mkTensor [Some n; Some (d + 2)%nat]
           (with_action (value context) [Real 0; Real 1]).

(** ** One entry of a matrix *)

Definition entry (m : matrix) (i j : nat) : option scalar :=
  match nth_error m i with
  | Some row => nth_error row j
  | None => None
  end.

(** A raw scale as [prune_below_snr] leaves it on a pruned entry. *)
Definition dead_scale (rho : scalar) : Prop := rho = NInf \/ rho = NaN.

(** A connected layer with one weight, of mean 0 and raw scale 0, and one
    bias, and a network of three such layers. *)
Definition weak_layer : VarLinear.t :=
  VarLinear.mk true (Some [Some 1%nat; Some 1%nat]) true 1
    standard_normal_prior (Some 1%nat) (Some 1%nat)
    (Some (mkArray [1%nat; 1%nat] [[Real 0]]))
    (Some (mkArray [1%nat; 1%nat] [[Real 0]]))
    (Some (mkArray [1%nat] [Real 1]))
    (Some (mkArray [1%nat] [Real 0]))
    (Some (Real 0)).

Definition weak_network : VarEstimator.t :=
  VarEstimator.mk (VarEstimator.VarMushroomRL 1) standard_normal_prior
    [weak_layer; weak_layer; weak_layer] true true.

(** ** The softmax probabilities *)

(** The probability that the softmax of the logits [row] gives to the class
    [class]. *)
Definition softmax_probability (row : list R) (class : nat) : R :=
  (exp (nth class row 0) / Rsum (map exp row))%R.

(** Two examples with three classes each, and their labels. *)
Definition two_examples : Array matrix :=
  mkArray [2%nat; 3%nat] [[Real 0; Real 1; Real 2]; [Real 5; Real 5; Real 5]].

Definition two_classes : Array (list Z) := mkArray [2%nat] [2%Z; 0%Z].

(** ** The variables of a network *)

(** The four variables of a layer. *)
Definition layer_variables (layer : VarLinear.t)
  : option (Array matrix) * option (Array matrix)
    * option (Array vector) * option (Array vector) :=
  (VarLinear._w_mu layer, VarLinear._w_rho layer,
   VarLinear._b_mu layer, VarLinear._b_rho layer).

(** The variables of every layer of a network, in layer order. *)
Definition variables (self : VarEstimator.t)
  : list (option (Array matrix) * option (Array matrix)
          * option (Array vector) * option (Array vector)) :=
  map layer_variables (VarEstimator._layers self).

(** A connected layer for three inputs, and an agent built for contexts of
    one feature. *)
Definition wide_layer : VarLinear.t :=
  VarLinear.mk true (Some [Some 1%nat; Some 3%nat]) true 1
    standard_normal_prior (Some 3%nat) (Some 1%nat)
    (Some (mkArray [3%nat; 1%nat] [[Real 0]; [Real 0]; [Real 0]]))
    (Some (mkArray [3%nat; 1%nat] [[Real 0]; [Real 0]; [Real 0]]))
    (Some (mkArray [1%nat] [Real 1]))
    (Some (mkArray [1%nat] [Real 0]))
    (Some (Real 0)).

Definition built_agent : VarEstimator.t :=
  VarEstimator.mk (VarEstimator.VarMushroomRL 1) standard_normal_prior
    [wide_layer; weak_layer; weak_layer] true true.

(** * Properties *)

(** ** Scalars *)

Lemma Rsign_pos (r : R) : (0 < r)%R -> Rsign r = Gt.
Proof.
  intros H. unfold Rsign.
  destruct (total_order_T r 0) as [[Hlt | Heq] | Hgt]; try reflexivity; lra.
Qed.

Lemma Rsign_neg (r : R) : (r < 0)%R -> Rsign r = Lt.
Proof.
  intros H. unfold Rsign.
  destruct (total_order_T r 0) as [[Hlt | Heq] | Hgt]; try reflexivity; lra.
Qed.

Lemma Rsign_zero (r : R) : r = 0%R -> Rsign r = Eq.
Proof.
  intros H. unfold Rsign.
  destruct (total_order_T r 0) as [[Hlt | Heq] | Hgt]; try reflexivity; lra.
Qed.

Lemma Rsign_Gt_inv (r : R) : Rsign r = Gt -> (0 < r)%R.
Proof.
  unfold Rsign.
  destruct (total_order_T r 0) as [[Hlt | Heq] | Hgt]; intros E;
    try discriminate; lra.
Qed.

Lemma Real_ext (a b : R) : a = b -> Real a = Real b.
Proof. intros ->. reflexivity. Qed.

Lemma flog_Real_pos (r : R) : (0 < r)%R -> flog (Real r) = Real (ln r).
Proof. intros H. unfold flog. rewrite Rsign_pos by assumption. reflexivity. Qed.

Lemma flog_Real_zero (r : R) : r = 0%R -> flog (Real r) = NInf.
Proof. intros H. unfold flog. rewrite Rsign_zero by assumption. reflexivity. Qed.

Lemma fdiv_Real_pos (x y : R) :
  (0 < y)%R -> fdiv (Real x) (Real y) = Real (x / y).
Proof. intros H. unfold fdiv. rewrite Rsign_pos by assumption. reflexivity. Qed.

Lemma fmul_10_NInf : fmul (Real 10) NInf = NInf.
Proof.
  unfold fmul, inf_times_sign. rewrite Rsign_pos by lra. reflexivity.
Qed.

Lemma fmul_1_r (x : scalar) : fmul x (Real 1) = x.
Proof.
  destruct x; simpl; try reflexivity.
  - apply Real_ext. lra.
  - unfold inf_times_sign. rewrite Rsign_pos by lra. reflexivity.
  - unfold inf_times_sign. rewrite Rsign_pos by lra. reflexivity.
Qed.

Lemma fmul_0_r (x : scalar) :
  fmul x (Real 0) = Real 0 \/ fmul x (Real 0) = NaN.
Proof.
  destruct x; simpl.
  - left. apply Real_ext. lra.
  - right. unfold inf_times_sign. rewrite Rsign_zero; reflexivity.
  - right. unfold inf_times_sign. rewrite Rsign_zero; reflexivity.
  - right. reflexivity.
Qed.

Lemma fgreater_NaN_l (t : scalar) : fgreater NaN t = false.
Proof. reflexivity. Qed.

Lemma softplus_Real (r : R) : softplus (Real r) = Real (ln (1 + exp r)).
Proof.
  unfold softplus. simpl.
  assert (H : (0 < exp r)%R) by apply exp_pos.
  rewrite Rsign_pos by lra. reflexivity.
Qed.

Lemma softplus_Real_pos (r : R) : (0 < ln (1 + exp r))%R.
Proof.
  assert (H : (0 < exp r)%R) by apply exp_pos.
  rewrite <- ln_1. apply ln_increasing; lra.
Qed.

Lemma softplus_NInf : softplus NInf = Real 0.
Proof.
  unfold softplus. simpl. rewrite Rsign_pos by lra.
  apply Real_ext. replace (1 + 0)%R with 1%R by lra. apply ln_1.
Qed.

Lemma softplus_PInf : softplus PInf = PInf.
Proof. reflexivity. Qed.

Lemma softplus_NaN : softplus NaN = NaN.
Proof. reflexivity. Qed.

Lemma softplus_inverse_0 : softplus_inverse (Real 0) = NInf.
Proof.
  unfold softplus_inverse, fsub. simpl.
  rewrite Rsign_zero; [reflexivity |]. rewrite exp_0. lra.
Qed.

Lemma softplus_inverse_NaN : softplus_inverse NaN = NaN.
Proof. reflexivity. Qed.

(** The scale of every finite raw scale is strictly positive. *)
Lemma softplus_positive (r : R) :
  exists s : R, softplus (Real r) = Real s /\ (0 < s)%R.
Proof.
  exists (ln (1 + exp r)). split.
  - apply softplus_Real.
  - apply softplus_Real_pos.
Qed.

(** ** Pruning one entry *)

Lemma keep_mask_cases (snr m rho : scalar) :
  keep_mask snr m rho = Real 1 \/ keep_mask snr m rho = Real 0.
Proof.
  unfold keep_mask.
  destruct (fgreater (VarLinear.snr_of m (softplus rho)) snr); simpl; auto.
Qed.

(** A kept entry keeps its mean; its raw scale is derived again from its
    scale. *)
Lemma kept_entry (snr m rho : scalar) :
  keep_mask snr m rho = Real 1 ->
  pruned_mean snr m rho = m /\
  pruned_rho snr m rho = softplus_inverse (softplus rho).
Proof.
  intros H. unfold pruned_mean, pruned_rho. rewrite H.
  rewrite !fmul_1_r. split; reflexivity.
Qed.

(** A pruned entry has mean 0 and raw scale -inf, or NaN where the entry was
    not finite. *)
Lemma pruned_entry (snr m rho : scalar) :
  keep_mask snr m rho = Real 0 ->
  (pruned_mean snr m rho = Real 0 \/ pruned_mean snr m rho = NaN) /\
  (pruned_rho snr m rho = NInf \/ pruned_rho snr m rho = NaN).
Proof.
  intros H. unfold pruned_mean, pruned_rho. rewrite H. split.
  - apply fmul_0_r.
  - destruct (fmul_0_r (softplus rho)) as [E | E]; rewrite E.
    + left. apply softplus_inverse_0.
    + right. reflexivity.
Qed.

Lemma snr_of_dead (m rho : scalar) :
  m = Real 0 \/ m = NaN -> rho = NInf \/ rho = NaN ->
  VarLinear.snr_of m (softplus rho) = NaN.
Proof.
  intros [-> | ->] [-> | ->];
    rewrite ?softplus_NInf, ?softplus_NaN; unfold VarLinear.snr_of; simpl;
    try reflexivity.
  rewrite (Rsign_zero (r := 0)) by reflexivity.
  rewrite (Rsign_zero (r := Rabs 0)) by apply Rabs_R0.
  reflexivity.
Qed.

(** An entry that has been pruned is pruned again, and does not change. *)
Lemma dead_entry_fixed (snr m rho : scalar) :
  m = Real 0 \/ m = NaN -> rho = NInf \/ rho = NaN ->
  pruned_mean snr m rho = m /\ pruned_rho snr m rho = rho.
Proof.
  intros Hm Hrho. unfold pruned_mean, pruned_rho, keep_mask.
  rewrite (snr_of_dead Hm Hrho). simpl.
  destruct Hm as [-> | ->], Hrho as [-> | ->];
    rewrite ?softplus_NInf, ?softplus_NaN; simpl; split;
    try reflexivity; try (apply Real_ext; lra).
  - replace (0 * 0)%R with 0%R by lra. apply softplus_inverse_0.
  - replace (0 * 0)%R with 0%R by lra. apply softplus_inverse_0.
Qed.

(** A finite entry is kept exactly when 10 ln(|mean| / scale) is strictly
    above a finite threshold; a zero mean is never kept. *)
Lemma keep_mask_finite (t m rho : R) :
  keep_mask (Real t) (Real m) (Real rho)
  = if Req_dec_T m 0 then Real 0
    else if Rgt_dec (10 * ln (Rabs m / ln (1 + exp rho))) t then Real 1
         else Real 0.
Proof.
  unfold keep_mask, VarLinear.snr_of. rewrite softplus_Real.
  pose proof (softplus_Real_pos rho) as Hs.
  change (fabs (Real m)) with (Real (Rabs m)).
  rewrite (fdiv_Real_pos _ Hs).
  destruct (Req_dec_T m 0) as [-> | Hm].
  - rewrite flog_Real_zero by (rewrite Rabs_R0; unfold Rdiv; lra).
    rewrite fmul_10_NInf. reflexivity.
  - assert (Hq : (0 < Rabs m / ln (1 + exp rho))%R).
    { apply Rdiv_lt_0_compat; [apply Rabs_pos_lt; assumption | assumption]. }
    rewrite (flog_Real_pos Hq). simpl.
    destruct (Rgt_dec (10 * ln (Rabs m / ln (1 + exp rho))) t); reflexivity.
Qed.

(** ** Pruning a tensor is pruning each of its entries *)

Lemma prune_vector_mean (snr : scalar) (mu rho : vector) :
  zipWith fmul mu
    (map (fun x => cast_bool (fgreater x snr))
         (zipWith VarLinear.snr_of mu (map softplus rho)))
  = zipWith (pruned_mean snr) mu rho.
Proof.
  revert rho. induction mu as [| m mu IH]; intros [| r rho]; simpl;
    try reflexivity.
  rewrite IH. reflexivity.
Qed.

Lemma prune_vector_rho (snr : scalar) (mu rho : vector) :
  map softplus_inverse
    (zipWith fmul (map softplus rho)
       (map (fun x => cast_bool (fgreater x snr))
            (zipWith VarLinear.snr_of mu (map softplus rho))))
  = zipWith (pruned_rho snr) mu rho.
Proof.
  revert rho. induction mu as [| m mu IH]; intros [| r rho]; simpl;
    try reflexivity.
  rewrite IH. reflexivity.
Qed.

Lemma prune_matrix_mean (snr : scalar) (mu rho : matrix) :
  mzip fmul mu
    (mmap (fun x => cast_bool (fgreater x snr))
          (mzip VarLinear.snr_of mu (mmap softplus rho)))
  = mzip (pruned_mean snr) mu rho.
Proof.
  unfold mzip, mmap. revert rho.
  induction mu as [| m mu IH]; intros [| r rho]; simpl; try reflexivity.
  rewrite IH, prune_vector_mean. reflexivity.
Qed.

Lemma prune_matrix_rho (snr : scalar) (mu rho : matrix) :
  mmap softplus_inverse
    (mzip fmul (mmap softplus rho)
       (mmap (fun x => cast_bool (fgreater x snr))
             (mzip VarLinear.snr_of mu (mmap softplus rho))))
  = mzip (pruned_rho snr) mu rho.
Proof.
  unfold mzip, mmap. revert rho.
  induction mu as [| m mu IH]; intros [| r rho]; simpl; try reflexivity.
  rewrite IH, prune_vector_rho. reflexivity.
Qed.

(** ** One forward pass of a layer *)

Lemma get_variable_noise {A : Type} (existing : option (Array A))
  (shp : list nat) (initializer : Rng -> A * Rng) (g : Rng)
  (v : Array A) (g' : Rng) :
  (forall g0, same_noise g0 (snd (initializer g0))) ->
  get_variable existing shp initializer g = Ok (v, g') ->
  same_noise g g'.
Proof.
  intros Hinit. unfold get_variable.
  destruct existing as [v0 |].
  - destruct (list_eq_dec Nat.eq_dec shp (shape v0)); intros E.
    + injection E as _ <-. repeat split.
    + discriminate.
  - specialize (Hinit g). destruct (initializer g) as [x g1].
    intros E. injection E as _ <-. exact Hinit.
Qed.

Lemma mu_init_matrix_noise (r c : nat) (g : Rng) :
  same_noise g (snd (mu_init_matrix r c g)).
Proof. repeat split. Qed.

Lemma rho_init_matrix_noise (r c : nat) (g : Rng) :
  same_noise g (snd (rho_init_matrix r c g)).
Proof. repeat split. Qed.

Lemma mu_init_vector_noise (n : nat) (g : Rng) :
  same_noise g (snd (mu_init_vector n g)).
Proof. repeat split. Qed.

Lemma rho_init_vector_noise (n : nat) (g : Rng) :
  same_noise g (snd (rho_init_vector n g)).
Proof. repeat split. Qed.

(** The successful runs of [_build], step by step. *)
Lemma _build_inversion (self : VarLinear.t) (inputs : Tensor) (g : Rng)
  (y : matrix) (self' : VarLinear.t) (g' : Rng) :
  VarLinear._build self inputs g = Ok (y, self', g') ->
  exists width w_mu g1 w_rho g2,
    nth 1 (static_shape inputs) None = Some width /\
    List.length (static_shape inputs) = 2%nat /\
    VarLinear.width_changed self width = false /\
    let out := VarLinear.output_size self in
    get_variable (VarLinear._w_mu self) [width; out]
                 (mu_init_matrix width out) g = Ok (w_mu, g1) /\
    get_variable (VarLinear._w_rho self) [width; out]
                 (rho_init_matrix width out) g1 = Ok (w_rho, g2) /\
    let w_scale := mmap softplus (value w_rho) in
    let ws := sample_matrix (value w_mu) w_scale width out g2 in
    let w := fst ws in
    let kl_w :=
      reduce_sum (mzip fsub (log_prob_matrix (value w_mu) w_scale w)
                            (mmap (log_prob (VarLinear.prior self)) w)) in
    if VarLinear._use_bias self then
      exists b_mu g3 b_rho g4,
        get_variable (VarLinear._b_mu self) [out]
                     (mu_init_vector out) (snd ws) = Ok (b_mu, g3) /\
        get_variable (VarLinear._b_rho self) [out]
                     (rho_init_vector out) g3 = Ok (b_rho, g4) /\
        let b_scale := map softplus (value b_rho) in
        let bs := sample_vector (value b_mu) b_scale out g4 in
        let b := fst bs in
        y = add_bias (matmul (rows inputs) w out) b /\
        g' = snd bs /\
        self' = VarLinear.mk (VarLinear.is_connected self)
                  (Some (static_shape inputs)) true out (VarLinear.prior self)
                  (Some (width * out)%nat) (Some out)
                  (Some w_mu) (Some w_rho) (Some b_mu) (Some b_rho)
                  (Some (fadd kl_w
                     (reduce_sum_vector
                        (zipWith fsub (log_prob_vector (value b_mu) b_scale b)
                           (map (log_prob (VarLinear.prior self)) b)))))
    else
      y = matmul (rows inputs) w out /\
      g' = snd ws /\
      self' = VarLinear.mk (VarLinear.is_connected self)
                (Some (static_shape inputs)) false out (VarLinear.prior self)
                (Some (width * out)%nat) (VarLinear._num_biases self)
                (Some w_mu) (Some w_rho)
                (VarLinear._b_mu self) (VarLinear._b_rho self) (Some kl_w).
Proof.
  unfold VarLinear._build.
  destruct (Nat.eqb (List.length (static_shape inputs)) 2) eqn:Hrank;
    [| discriminate].
  apply Nat.eqb_eq in Hrank. cbn [negb].
  destruct (nth 1 (static_shape inputs) None) as [width |]; [| discriminate].
  destruct (VarLinear.width_changed self width) eqn:Hw; [discriminate |].
  destruct (get_variable (VarLinear._w_mu self) _ _ g) as [[w_mu g1] |] eqn:E1;
    [| discriminate].
  cbn [bind fst snd].
  destruct (get_variable (VarLinear._w_rho self) _ _ g1) as [[w_rho g2] |]
    eqn:E2; [| discriminate].
  cbn [bind fst snd].
  intros H. exists width, w_mu, g1, w_rho, g2.
  repeat (split; [first [reflexivity | assumption] |]).
  cbv zeta.
  destruct (VarLinear._use_bias self) eqn:Hub.
  - destruct (get_variable (VarLinear._b_mu self) _ _ _) as [[b_mu g3] |]
      eqn:E3; [| discriminate].
    cbn [bind fst snd] in H.
    destruct (get_variable (VarLinear._b_rho self) _ _ g3) as [[b_rho g4] |]
      eqn:E4; [| discriminate].
    cbn [bind fst snd] in H.
    exists b_mu, g3, b_rho, g4. injection H as <- <- <-.
    repeat split; assumption.
  - injection H as <- <- <-. repeat split.
Qed.



(** ** Shapes of fresh variables *)

Lemma map_length_stream_matrix (s : nat -> scalar) (pos r c : nat) :
  map (@List.length scalar) (stream_matrix s pos r c) = repeat c r.
Proof.
  unfold stream_matrix, stream_vector. rewrite map_map.
  generalize 0%nat as k. induction r as [| r IH]; intros k; simpl.
  - reflexivity.
  - rewrite length_map, length_seq, IH. reflexivity.
Qed.

Lemma map_length_mmap (f : scalar -> scalar) (m : matrix) :
  map (@List.length scalar) (mmap f m) = map (@List.length scalar) m.
Proof.
  unfold mmap. rewrite map_map. apply map_ext. intros row.
  apply length_map.
Qed.

Lemma map_length_repeat (x : scalar) (r c : nat) :
  map (@List.length scalar) (repeat (repeat x c) r) = repeat c r.
Proof.
  induction r as [| r IH]; simpl.
  - reflexivity.
  - rewrite repeat_length, IH. reflexivity.
Qed.

Lemma get_variable_cases {A : Type} (existing : option (Array A))
  (shp : list nat) (initializer : Rng -> A * Rng) (g : Rng)
  (v : Array A) (g' : Rng) :
  get_variable existing shp initializer g = Ok (v, g') ->
  existing = Some v \/
  (existing = None /\ v = mkArray shp (fst (initializer g))).
Proof.
  unfold get_variable. destruct existing as [v0 |].
  - destruct (list_eq_dec Nat.eq_dec shp (shape v0)); intros E.
    + injection E as <- _. left. reflexivity.
    + discriminate.
  - destruct (initializer g) as [x g1]. intros E. injection E as <- _.
    right. split; reflexivity.
Qed.

(** A call of a layer whose variables, if any, are aligned leaves a built
    layer. *)
Lemma call_builds_layer (self : VarLinear.t) (inputs : Tensor) (g : Rng)
  (y : matrix) (self' : VarLinear.t) (g' : Rng) :
  aligned_layer self ->
  VarLinear.__call__ self inputs g = Ok (y, self', g') ->
  built_layer self' /\ VarLinear._use_bias self' = VarLinear._use_bias self.
Proof.
  intros [Ha1 Ha2]. unfold VarLinear.__call__. intros H.
  destruct (VarLinear._build self inputs g) as [[[y0 s0] g0] |] eqn:Hb;
    [| discriminate].
  cbn [bind fst snd] in H. injection H as <- <- <-.
  apply _build_inversion in Hb.
  destruct Hb as (width & w_mu & g1 & w_rho & g2 & Hw & _ & _ & Hb).
  cbv zeta in Hb. destruct Hb as (E1 & E2 & Hb).
  apply get_variable_cases in E1. apply get_variable_cases in E2.
  assert (Hw_al : map (@List.length scalar) (value w_mu)
                  = map (@List.length scalar) (value w_rho)).
  { destruct E1 as [E1 | [E1 ->]], E2 as [E2 | [E2 ->]];
      rewrite E1, E2 in Ha1; try contradiction.
    - exact Ha1.
    - cbn [value fst mu_init_matrix rho_init_matrix].
      rewrite map_length_mmap, map_length_stream_matrix, map_length_repeat.
      reflexivity. }
  destruct (VarLinear._use_bias self) eqn:Hub.
  - destruct Hb as (b_mu & g3 & b_rho & g4 & E3 & E4 & _ & _ & ->).
    apply get_variable_cases in E3. apply get_variable_cases in E4.
    assert (Hb_al : List.length (value b_mu) = List.length (value b_rho)).
    { destruct E3 as [E3 | [E3 ->]], E4 as [E4 | [E4 ->]];
        rewrite E3, E4 in Ha2; try contradiction.
      - exact Ha2.
      - cbn [value fst mu_init_vector rho_init_vector].
        unfold stream_vector.
        rewrite !length_map, length_seq, repeat_length. reflexivity. }
    split; [| reflexivity].
    unfold built_layer, aligned_layer. cbn.
    repeat split; try discriminate; assumption.
  - destruct Hb as (_ & _ & ->).
    split; [| reflexivity].
    unfold built_layer, aligned_layer. cbn.
    repeat split; try discriminate; try assumption.
Qed.

Lemma aligned_new_layer (out : nat) (p : Distribution)
  (previous : option VarLinear.t) :
  (forall old, previous = Some old -> aligned_layer old) ->
  aligned_layer (VarEstimator.new_layer out p previous).
Proof.
  intros H. destruct previous as [old |]; simpl.
  - exact (H old eq_refl).
  - split; exact I.
Qed.

(** A call of a network whose layers, if any, are aligned leaves a built
    network of three layers. *)
Lemma call_builds_network (self : VarEstimator.t) (inputs : Tensor) (g : Rng)
  (y : matrix) (self' : VarEstimator.t) (g' : Rng) :
  Forall aligned_layer (VarEstimator._layers self) ->
  VarEstimator.__call__ self inputs g = Ok (y, self', g') ->
  built_network self' /\ List.length (VarEstimator._layers self') = 3%nat.
Proof.
  intros Hal. unfold VarEstimator.__call__, VarEstimator._build. intros H.
  assert (Hold : forall i old,
             nth_error (VarEstimator._layers self) i = Some old ->
             aligned_layer old).
  { intros i old Hi. rewrite Forall_forall in Hal.
    apply Hal. eapply nth_error_In. exact Hi. }
  destruct (VarEstimator.layer_sizes (VarEstimator.arch self))
    as [[[n1 n2] n3] |]; [| discriminate].
  cbn [bind fst snd] in H.
  destruct (BatchFlatten inputs) as [fl |]; [| discriminate].
  cbn [bind] in H.
  destruct (VarEstimator.select_inputs (VarEstimator.arch self) fl)
    as [fl' |]; [| discriminate].
  cbn [bind] in H.
  destruct (VarLinear.__call__ (VarEstimator.new_layer n1 _ _) fl' g)
    as [[[y1 l1] g1] |] eqn:E1; [| discriminate].
  cbn [bind fst snd] in H.
  destruct (VarLinear.__call__ (VarEstimator.new_layer n2 _ _) _ g1)
    as [[[y2 l2] g2] |] eqn:E2; [| discriminate].
  cbn [bind fst snd] in H.
  destruct (VarLinear.__call__ (VarEstimator.new_layer n3 _ _) _ g2)
    as [[[y3 l3] g3] |] eqn:E3; [| discriminate].
  cbn [bind fst snd] in H. injection H as <- <- <-.
  apply call_builds_layer in E1; [| apply aligned_new_layer; eauto].
  apply call_builds_layer in E2; [| apply aligned_new_layer; eauto].
  apply call_builds_layer in E3; [| apply aligned_new_layer; eauto].
  assert (Hu : forall n p prev,
             VarLinear._use_bias (VarEstimator.new_layer n p prev) = true).
  { intros n p [old |]; reflexivity. }
  rewrite Hu in E1, E2, E3.
  split; [| reflexivity].
  unfold built_network. cbn. split; [reflexivity |].
  split; [discriminate |].
  repeat (apply Forall_cons; [assumption |]). apply Forall_nil.
Qed.

(** ** A first forward pass returns *)

Lemma get_variable_fresh {A : Type} (shp : list nat)
  (initializer : Rng -> A * Rng) (g : Rng) :
  get_variable None shp initializer g
  = Ok (mkArray shp (fst (initializer g)), snd (initializer g)).
Proof.
  unfold get_variable. destruct (initializer g) as [x g1]. reflexivity.
Qed.

(** A layer that has never been called accepts every rank-2 input whose
    width is known. *)
Lemma fresh_layer_call_succeeds (out : nat) (p : Distribution)
  (use_bias : bool) (batch : option nat) (width : nat) (x : matrix)
  (g : Rng) :
  exists y self' g',
    VarLinear.__call__ (VarLinear.__init__ out p use_bias)
                       (mkTensor [batch; Some width] x) g
    = Ok (y, self', g').
Proof.
  unfold VarLinear.__call__, VarLinear._build, VarLinear.__init__.
  cbn [static_shape List.length Nat.eqb negb nth VarLinear.width_changed
       VarLinear._input_shape VarLinear._w_mu VarLinear._w_rho
       VarLinear._b_mu VarLinear._b_rho VarLinear.output_size
       VarLinear._use_bias].
  rewrite !get_variable_fresh. cbn [bind].
  destruct use_bias.
  - rewrite !get_variable_fresh. cbn [bind].
    eexists. eexists. eexists. reflexivity.
  - eexists. eexists. eexists. reflexivity.
Qed.

Lemma call_layer_input_shape (self : VarLinear.t) (inputs : Tensor) (g : Rng)
  (y : matrix) (self' : VarLinear.t) (g' : Rng) :
  VarLinear.__call__ self inputs g = Ok (y, self', g') ->
  VarLinear._input_shape self' = Some (static_shape inputs).
Proof.
  unfold VarLinear.__call__. intros H.
  destruct (VarLinear._build self inputs g) as [[[y0 s0] g0] |] eqn:Hb;
    [| discriminate].
  cbn [bind fst snd] in H. injection H as <- <- <-.
  apply _build_inversion in Hb.
  destruct Hb as (width & w_mu & g1 & w_rho & g2 & _ & _ & _ & Hb).
  cbv zeta in Hb. destruct Hb as (_ & _ & Hb).
  destruct (VarLinear._use_bias self).
  - destruct Hb as (b_mu & g3 & b_rho & g4 & _ & _ & _ & _ & ->). reflexivity.
  - destruct Hb as (_ & _ & ->). reflexivity.
Qed.

(** The first forward pass of a task network returns on every input whose
    dimensions after the batch dimension are known. *)
Lemma network_first_call_succeeds (a : VarEstimator.architecture)
  (p : Distribution) (batch : option nat) (rest : list (option nat))
  (width : nat) (x : matrix) (g : Rng) :
  (forall i wm ws bm bs, a <> VarEstimator.ReducedVarMNIST i wm ws bm bs) ->
  prod_dims rest = Some width ->
  exists y self' g',
    VarEstimator.__call__ (VarEstimator.__init__ a p)
                          (mkTensor (batch :: rest) x) g
    = Ok (y, self', g').
Proof.
  intros Ha Hw.
  unfold VarEstimator.__call__, VarEstimator._build, VarEstimator.__init__,
    BatchFlatten.
  cbn [VarEstimator.arch VarEstimator.prior VarEstimator._layers
       static_shape rows nth_error VarEstimator.new_layer].
  rewrite Hw.
  assert (Hs : exists n1 n2 n3,
             VarEstimator.layer_sizes a = Ok (n1, n2, n3) /\
             forall t, VarEstimator.select_inputs a t = Ok t).
  { destruct a as [u | u | u | i wm ws bm bs].
    - exists u, u, 1%nat. split; reflexivity.
    - exists u, u, 1%nat. split; reflexivity.
    - exists u, u, 10%nat. split; reflexivity.
    - exfalso. eapply Ha. reflexivity. }
  destruct Hs as (n1 & n2 & n3 & -> & Hsel).
  cbn [bind fst snd]. rewrite Hsel. cbn [bind].
  destruct (fresh_layer_call_succeeds n1 p true batch width x g)
    as (y1 & l1 & g1 & E1).
  rewrite E1. cbn [bind fst snd].
  unfold VarEstimator.hidden at 1. cbn [static_shape nth].
  destruct (fresh_layer_call_succeeds n2 p true batch n1 (mmap relu y1) g1)
    as (y2 & l2 & g2 & E2).
  rewrite E2. cbn [bind fst snd].
  unfold VarEstimator.hidden. cbn [static_shape nth].
  destruct (fresh_layer_call_succeeds n3 p true batch n2 (mmap relu y2) g2)
    as (y3 & l3 & g3 & E3).
  rewrite E3. cbn [bind fst snd].
  eexists. eexists. eexists. reflexivity.
Qed.

Lemma built_called_layer : built_layer called_layer.
Proof.
  unfold called_layer.
  destruct (fresh_layer_call_succeeds 1 standard_normal_prior true (Some 1%nat)
              2 [[Real 1; Real 2]] (constant_rng (Real 0) (Real 1)))
    as (y & l & g & E).
  change (VarLinear.__call__ fresh_layer one_example
            (constant_rng (Real 0) (Real 1)) = Ok (y, l, g)) in E.
  rewrite E. apply call_builds_layer in E.
  - apply E.
  - split; exact I.
Qed.

Lemma built_called_network : built_network called_network.
Proof.
  unfold called_network.
  destruct (@network_first_call_succeeds (VarEstimator.VarMNIST 2)
              standard_normal_prior (Some 1%nat) [Some 2%nat] 2
              [[Real 1; Real 2]] (constant_rng (Real 0) (Real 1)))
    as (y & net & g & E).
  { discriminate. }
  { reflexivity. }
  change (VarEstimator.__call__ fresh_network one_example
            (constant_rng (Real 0) (Real 1)) = Ok (y, net, g)) in E.
  rewrite E. apply call_builds_network in E.
  - apply E.
  - apply Forall_nil.
Qed.

Lemma width_five_layer_input_shape :
  VarLinear._input_shape width_five_layer = Some [Some 4; Some 5]%nat.
Proof.
  unfold width_five_layer.
  destruct (fresh_layer_call_succeeds 1 standard_normal_prior false
              (Some 4%nat) 5 (repeat (repeat (Real 1) 5) 4)
              (constant_rng (Real 0) (Real 1)))
    as (y & l & g & E).
  change (VarLinear.__call__ (VarLinear.__init__ 1 standard_normal_prior false)
            batch_4_5 (constant_rng (Real 0) (Real 1)) = Ok (y, l, g)) in E.
  rewrite E. apply call_layer_input_shape in E. exact E.
Qed.

(** ** Pruning a layer *)

Lemma built_layer_fields (self : VarLinear.t) :
  built_layer self ->
  VarLinear.is_connected self = true /\
  (exists w_mu w_rho,
      VarLinear._w_mu self = Some w_mu /\ VarLinear._w_rho self = Some w_rho) /\
  (exists kl, VarLinear._kl_divergence self = Some kl) /\
  (VarLinear._use_bias self = true ->
   exists b_mu b_rho,
     VarLinear._b_mu self = Some b_mu /\ VarLinear._b_rho self = Some b_rho).
Proof.
  intros (Hc & Hw & Hk & Hb & Ha1 & Ha2). split; [assumption |].
  split; [| split].
  - destruct (VarLinear._w_mu self) as [m |]; [| congruence].
    destruct (VarLinear._w_rho self) as [r |]; [| contradiction].
    eauto.
  - destruct (VarLinear._kl_divergence self) as [k |]; [eauto | congruence].
  - intros Hu. specialize (Hb Hu).
    destruct (VarLinear._b_mu self) as [m |]; [| congruence].
    destruct (VarLinear._b_rho self) as [r |]; [| contradiction].
    eauto.
Qed.

(** What [prune_below_snr] leaves in a connected layer whose variables
    exist: every entry of the weights, and of the biases when the layer has
    them, is pruned on its own. *)
Lemma prune_layer_result (c : bool) (ish : option (list (option nat)))
  (ub : bool) (out : nat) (p : Distribution) (nw nb : option nat)
  (wm wr : Array matrix) (bm br : option (Array vector))
  (kl : option scalar) (snr : scalar) :
  (ub = true -> bm <> None /\ br <> None) ->
  exists bm' br',
    VarLinear.prune_below_snr
      (VarLinear.mk true ish ub out p nw nb (Some wm) (Some wr) bm br kl) snr
    = Ok (VarLinear.mk true ish ub out p nw nb
            (Some (assign wm (mzip (pruned_mean snr) (value wm) (value wr))))
            (Some (assign wr (mzip (pruned_rho snr) (value wm) (value wr))))
            bm' br' kl) /\
    match ub, bm, br with
    | true, Some m, Some r =>
        bm' = Some (assign m (zipWith (pruned_mean snr) (value m) (value r)))
        /\ br' = Some (assign r (zipWith (pruned_rho snr) (value m) (value r)))
    | _, _, _ => bm' = bm /\ br' = br
    end.
Proof.
  intros Hb. unfold VarLinear.prune_below_snr. simpl.
  rewrite prune_matrix_mean, prune_matrix_rho.
  destruct ub.
  - destruct (Hb eq_refl) as [Hm Hr].
    destruct bm as [m |]; [| congruence]. destruct br as [r |]; [| congruence].
    simpl. rewrite prune_vector_mean, prune_vector_rho.
    eexists; eexists; split; [reflexivity | split; reflexivity].
  - eexists; eexists; split; [reflexivity |].
    destruct bm, br; split; reflexivity.
Qed.

(** C3 (as amended).  For every built layer and every threshold,
    [prune_below_snr] succeeds and prunes entry by entry: the keep-mask of an
    entry is the strict comparison of 10 * ln(|mean| / scale) with the
    threshold, where ln is the natural logarithm of [tf.math.log] and
    scale = softplus(raw_scale); the new mean is mean * mask and the new raw
    scale is the softplus inverse of scale * mask.  The biases are pruned in
    the same way when the layer uses a bias and are left alone otherwise.
    For finite entries and a finite threshold an entry is kept exactly when
    its mean is not 0 and 10 * ln(|mean| / scale) > threshold, so an entry
    whose ratio equals the threshold is pruned. *)
Theorem prune_below_snr_entrywise (self : VarLinear.t) (snr : scalar) :
  built_layer self ->
  exists w_mu w_rho self',
    VarLinear._w_mu self = Some w_mu /\
    VarLinear._w_rho self = Some w_rho /\
    VarLinear.prune_below_snr self snr = Ok self' /\
    VarLinear._w_mu self'
    = Some (assign w_mu (mzip (pruned_mean snr) (value w_mu) (value w_rho))) /\
    VarLinear._w_rho self'
    = Some (assign w_rho (mzip (pruned_rho snr) (value w_mu) (value w_rho))) /\
    (if VarLinear._use_bias self then
       exists b_mu b_rho,
         VarLinear._b_mu self = Some b_mu /\
         VarLinear._b_rho self = Some b_rho /\
         VarLinear._b_mu self'
         = Some (assign b_mu
                   (zipWith (pruned_mean snr) (value b_mu) (value b_rho))) /\
         VarLinear._b_rho self'
         = Some (assign b_rho
                   (zipWith (pruned_rho snr) (value b_mu) (value b_rho)))
     else
       VarLinear._b_mu self' = VarLinear._b_mu self /\
       VarLinear._b_rho self' = VarLinear._b_rho self) /\
    (forall m rho : scalar,
        keep_mask snr m rho
        = cast_bool
            (fgreater (fmul (Real 10) (flog (fdiv (fabs m) (softplus rho))))
                      snr) /\
        pruned_mean snr m rho = fmul m (keep_mask snr m rho) /\
        pruned_rho snr m rho
        = softplus_inverse (fmul (softplus rho) (keep_mask snr m rho))) /\
    (forall t m rho : R,
        keep_mask (Real t) (Real m) (Real rho)
        = if Req_dec_T m 0 then Real 0
          else if Rgt_dec (10 * ln (Rabs m / ln (1 + exp rho))) t then Real 1
               else Real 0).
Proof.
  intros Hb.
  destruct (built_layer_fields Hb) as (Hc & (wm & wr & Hwm & Hwr) & _ & Hbias).
  destruct self as [c ish ub out p nw nb owm owr bm br kl].
  simpl in *. subst c owm owr.
  destruct (@prune_layer_result true ish ub out p nw nb wm wr bm br kl snr)
    as (bm' & br' & Hp & Hbb).
  { intros Hu. destruct (Hbias Hu) as (m & r & -> & ->).
    split; discriminate. }
  exists wm, wr. eexists. repeat split; try eassumption; try reflexivity.
  - simpl. destruct ub.
    + destruct (Hbias eq_refl) as (m & r & -> & ->).
      destruct Hbb as [-> ->]. exists m, r. repeat split; reflexivity.
    + assert (E : bm' = bm /\ br' = br) by (destruct bm, br; exact Hbb).
      exact E.
  - apply keep_mask_finite.
Qed.

Lemma prune_below_snr_entrywise_witness :
  exists w_mu w_rho self',
    VarLinear._w_mu called_layer = Some w_mu /\
    VarLinear._w_rho called_layer = Some w_rho /\
    VarLinear.prune_below_snr called_layer (Real 0) = Ok self' /\
    VarLinear._w_mu self'
    = Some (assign w_mu
              (mzip (pruned_mean (Real 0)) (value w_mu) (value w_rho))).
Proof.
  pose proof built_called_layer as Hb.
  destruct (@prune_below_snr_entrywise called_layer (Real 0) Hb)
    as (w_mu & w_rho & self' & Hm & Hr & Hp & Hm' & _).
  exists w_mu, w_rho, self'. repeat split; assumption.
Defined.

(** ** The decibel reading of the ratio fails *)

Lemma ln_2_pos : (0 < ln 2)%R.
Proof. pose proof ln_lt_2. lra. Qed.

Lemma ln_10_gt_2 : (2 < ln 10)%R.
Proof.
  rewrite <- (ln_exp 2). apply ln_increasing.
  - apply exp_pos.
  - replace 2%R with (1 + 1)%R by lra. rewrite exp_plus.
    pose proof exp_le_3 as H3. pose proof (exp_pos 1) as H0. nra.
Qed.

Lemma ratio_ten : (Rabs (10 * ln 2) / ln (1 + exp 0) = 10)%R.
Proof.
  pose proof ln_2_pos as H.
  rewrite exp_0. replace (1 + 1)%R with 2%R by lra.
  rewrite Rabs_right by lra. field. lra.
Qed.

Lemma ratio_ten_kept :
  keep_mask (Real 20) (Real (10 * ln 2)) (Real 0) = Real 1.
Proof.
  rewrite keep_mask_finite. pose proof ln_2_pos as H2.
  destruct (Req_dec_T (10 * ln 2) 0) as [E | _]; [lra |].
  rewrite ratio_ten. pose proof ln_10_gt_2 as H10.
  destruct (Rgt_dec (10 * ln 10) 20) as [_ | N]; [reflexivity | lra].
Qed.

Lemma ratio_ten_pruned_db :
  keep_mask_db (Real 20) (Real (10 * ln 2)) (Real 0) = Real 0.
Proof.
  unfold keep_mask_db, snr_db, flog10. rewrite softplus_Real.
  change (fabs (Real (10 * ln 2))) with (Real (Rabs (10 * ln 2))).
  rewrite (fdiv_Real_pos _ (softplus_Real_pos 0)), ratio_ten.
  pose proof ln_10_gt_2 as H10.
  rewrite flog_Real_pos by lra. rewrite fdiv_Real_pos by lra. simpl.
  destruct (Rgt_dec (10 * (ln 10 / ln 10)) 20) as [G | _]; [| reflexivity].
  exfalso. replace (10 * (ln 10 / ln 10))%R with 10%R in G by (field; lra).
  lra.
Qed.

(** C3, as stated, fails.  The layer has one weight with |mean| / scale = 10
    and the threshold is 20.  With the base-10 logarithm of the claim the
    ratio is 10 * log10(10) = 10, below the threshold: the weight would be
    zeroed.  The code takes the natural logarithm, 10 * ln(10) > 20, and
    keeps the weight. *)
Lemma prune_below_snr_log10_counterexample :
  exists self' w,
    VarLinear.prune_below_snr ratio_ten_layer (Real 20) = Ok self' /\
    VarLinear._w_mu self' = Some w /\
    value w
    <> mzip (fun m rho => fmul m (keep_mask_db (Real 20) m rho))
            [[Real (10 * ln 2)]] [[Real 0]].
Proof.
  destruct (@prune_layer_result true (Some [Some 4; Some 1]) false 1
              standard_normal_prior (Some 1%nat) None
              (mkArray [1; 1]%nat [[Real (10 * ln 2)]])
              (mkArray [1; 1]%nat [[Real 0]]) None None (Some (Real 0))
              (Real 20))
    as (bm' & br' & Hp & _).
  { discriminate. }
  eexists. eexists. split; [exact Hp |]. split; [reflexivity |].
  change ([[pruned_mean (Real 20) (Real (10 * ln 2)) (Real 0)]]
          <> [[fmul (Real (10 * ln 2))
                    (keep_mask_db (Real 20) (Real (10 * ln 2)) (Real 0))]]).
  unfold pruned_mean. rewrite ratio_ten_kept, ratio_ten_pruned_db.
  simpl. intros E. injection E as E. pose proof ln_2_pos. lra.
Qed.

(** ** Pruning keeps a layer and a network built *)

Lemma map_length_mzip (f h : scalar -> scalar -> scalar) (a b : matrix) :
  map (@List.length scalar) (mzip f a b)
  = map (@List.length scalar) (mzip h a b).
Proof.
  unfold mzip. revert b.
  induction a as [| x a IH]; intros [| y b]; simpl; try reflexivity.
  rewrite IH. f_equal.
  revert y. induction x as [| e x IHx]; intros [| e' y]; simpl;
    try reflexivity.
  rewrite IHx. reflexivity.
Qed.

Lemma length_zipWith_same (f h : scalar -> scalar -> scalar) (a b : vector) :
  List.length (zipWith f a b) = List.length (zipWith h a b).
Proof.
  revert b. induction a as [| x a IH]; intros [| y b]; simpl;
    try reflexivity.
  rewrite IH. reflexivity.
Qed.

Lemma prune_keeps_layer_built (self self' : VarLinear.t) (snr : scalar) :
  built_layer self ->
  VarLinear.prune_below_snr self snr = Ok self' ->
  built_layer self' /\
  VarLinear._use_bias self' = VarLinear._use_bias self /\
  VarLinear.kl_divergence self' = VarLinear.kl_divergence self.
Proof.
  intros Hb Hp.
  destruct (built_layer_fields Hb)
    as (Hc & (wm & wr & Hwm & Hwr) & (k & Hk) & Hbias).
  destruct self as [c ish ub out p nw nb owm owr bm br kl].
  simpl in *. subst c owm owr kl.
  destruct (@prune_layer_result true ish ub out p nw nb wm wr bm br
              (Some k) snr) as (bm' & br' & E & Hbb).
  { intros Hu. destruct (Hbias Hu) as (m & r & -> & ->).
    split; discriminate. }
  rewrite E in Hp. injection Hp as <-.
  split; [| split; reflexivity].
  unfold built_layer, aligned_layer. cbn.
  split; [reflexivity |]. split; [discriminate |]. split; [discriminate |].
  destruct ub.
  - destruct (Hbias eq_refl) as (m & r & -> & ->).
    destruct Hbb as [-> ->]. cbn.
    split; [intros _; discriminate |].
    split; [apply map_length_mzip | apply length_zipWith_same].
  - assert (Ebb : bm' = bm /\ br' = br) by (destruct bm, br; exact Hbb).
    destruct Ebb as [-> ->].
    split; [discriminate |].
    split; [apply map_length_mzip |].
    destruct Hb as (_ & _ & _ & _ & _ & Ha2). exact Ha2.
Qed.

Lemma prune_keeps_layers_built (layers : list VarLinear.t) (snr : scalar) :
  Forall (fun layer => built_layer layer /\ VarLinear._use_bias layer = true)
         layers ->
  exists layers',
    mapM (fun layer => VarLinear.prune_below_snr layer snr) layers
    = Ok layers' /\
    Forall (fun layer => built_layer layer /\ VarLinear._use_bias layer = true)
           layers' /\
    mapM VarLinear.kl_divergence layers'
    = mapM VarLinear.kl_divergence layers /\
    List.length layers' = List.length layers.
Proof.
  induction 1 as [| layer layers [Hb Hu] _ (layers' & HM & HF & HK & HL)].
  - exists []. repeat split. constructor.
  - destruct (built_layer_fields Hb)
      as (Hc & (wm & wr & Hwm & Hwr) & _ & Hbias).
    assert (Hp : exists layer',
               VarLinear.prune_below_snr layer snr = Ok layer').
    { destruct layer as [c ish ub out p nw nb owm owr bm br kl].
      simpl in *. subst c owm owr.
      destruct (@prune_layer_result true ish ub out p nw nb wm wr bm br kl
                  snr) as (bm' & br' & E & _).
      - intros Hub. destruct (Hbias Hub) as (m & r & -> & ->).
        split; discriminate.
      - eexists. exact E. }
    destruct Hp as (layer' & Hp).
    destruct (@prune_keeps_layer_built layer layer' snr Hb Hp)
      as (Hb' & Hu' & Hk').
    exists (layer' :: layers'). simpl. rewrite Hp, HM. cbn [bind].
    split; [reflexivity |]. split; [| split].
    + constructor; [split; [exact Hb' | congruence] | exact HF].
    + rewrite Hk', HK. reflexivity.
    + rewrite HL. reflexivity.
Qed.

(** Pruning a built network succeeds, leaves it built and does not change
    its KL divergence, which is that of the last forward pass. *)
Lemma prune_keeps_network_built (self : VarEstimator.t) (snr : scalar) :
  built_network self ->
  exists self',
    VarEstimator.prune_below_snr self snr = Ok self' /\
    built_network self' /\
    VarEstimator.kl_divergence self' = VarEstimator.kl_divergence self.
Proof.
  intros (Hc & Hne & Hl).
  destruct (@prune_keeps_layers_built (VarEstimator._layers self) snr Hl)
    as (layers' & HM & HF & HK & HL).
  unfold VarEstimator.prune_below_snr, VarEstimator._ensure_is_connected.
  rewrite Hc. cbn [bind]. rewrite HM. cbn [bind].
  eexists. split; [reflexivity |]. split.
  - unfold built_network, VarEstimator.set_layers. cbn.
    split; [exact Hc |]. split; [| exact HF].
    destruct layers'; [| discriminate].
    destruct (VarEstimator._layers self); [congruence | discriminate].
  - unfold VarEstimator.kl_divergence, VarEstimator._ensure_is_connected,
      VarEstimator.set_layers. cbn. rewrite Hc. cbn [bind].
    rewrite HK. reflexivity.
Qed.

(** ** The KL divergence of a network *)

Lemma built_layers_kl (layers : list VarLinear.t) :
  Forall (fun layer => built_layer layer /\ VarLinear._use_bias layer = true)
         layers ->
  exists kls,
    Forall2 (fun layer kl => VarLinear.kl_divergence layer = Ok kl)
            layers kls /\
    mapM VarLinear.kl_divergence layers = Ok kls.
Proof.
  induction 1 as [| layer layers [Hb _] _ IH].
  - exists []. split; [constructor | reflexivity].
  - destruct IH as (kls & HF & HM).
    destruct (built_layer_fields Hb) as (Hc & _ & (kl & Hk) & _).
    assert (E : VarLinear.kl_divergence layer = Ok kl).
    { unfold VarLinear.kl_divergence, VarLinear._ensure_is_connected.
      rewrite Hc, Hk. reflexivity. }
    exists (kl :: kls). split.
    + constructor; assumption.
    + simpl. rewrite E, HM. reflexivity.
Qed.

(** C2.  For every network that has completed a forward pass, so that each
    of its layers holds the KL term of its own forward pass, the network's
    [kl_divergence] is the sum, from 0 and in layer order, of the
    [kl_divergence] of each of its layers, each layer counted once. *)
Theorem network_kl_is_sum_of_layer_kls (self : VarEstimator.t) :
  built_network self ->
  exists kls,
    Forall2 (fun layer kl => VarLinear.kl_divergence layer = Ok kl)
            (VarEstimator._layers self) kls /\
    VarEstimator.kl_divergence self = Ok (fold_left fadd kls (Real 0)).
Proof.
  intros (Hc & _ & Hl).
  destruct (built_layers_kl Hl) as (kls & HF & HM).
  exists kls. split; [exact HF |].
  unfold VarEstimator.kl_divergence, VarEstimator._ensure_is_connected.
  rewrite Hc. cbn [bind]. rewrite HM. reflexivity.
Qed.

Lemma network_kl_is_sum_of_layer_kls_witness :
  exists kls,
    Forall2 (fun layer kl => VarLinear.kl_divergence layer = Ok kl)
            (VarEstimator._layers called_network) kls /\
    VarEstimator.kl_divergence called_network
    = Ok (fold_left fadd kls (Real 0)).
Proof.
  apply network_kl_is_sum_of_layer_kls.
  exact built_called_network.
Defined.

(** The same, read off a forward pass: after a call of the network its KL
    divergence is 0 + kl1 + kl2 + kl3 for the KL terms that the three layers
    stored during that call. *)
Lemma forward_pass_sums_three_kls (self : VarEstimator.t) (inputs : Tensor)
  (g : Rng) (y : matrix) (self' : VarEstimator.t) (g' : Rng) :
  Forall aligned_layer (VarEstimator._layers self) ->
  VarEstimator.__call__ self inputs g = Ok (y, self', g') ->
  exists l1 l2 l3 k1 k2 k3,
    VarEstimator._layers self' = [l1; l2; l3] /\
    VarLinear.kl_divergence l1 = Ok k1 /\
    VarLinear.kl_divergence l2 = Ok k2 /\
    VarLinear.kl_divergence l3 = Ok k3 /\
    VarEstimator.kl_divergence self'
    = Ok (fadd (fadd (fadd (Real 0) k1) k2) k3).
Proof.
  intros Hal Hcall.
  destruct (@call_builds_network self inputs g y self' g' Hal Hcall)
    as ((Hc & _ & Hl) & Hlen).
  destruct (built_layers_kl Hl) as (kls & HF & HM).
  destruct (VarEstimator._layers self') as [| l1 [| l2 [| l3 [| l4 ls]]]] eqn:El;
    try discriminate.
  inversion HF as [| ? k1 ? ks1 H1 HF1]; subst.
  inversion HF1 as [| ? k2 ? ks2 H2 HF2]; subst.
  inversion HF2 as [| ? k3 ? ks3 H3 HF3]; subst.
  inversion HF3; subst.
  exists l1, l2, l3, k1, k2, k3.
  repeat (split; [first [reflexivity | assumption] |]).
  unfold VarEstimator.kl_divergence, VarEstimator._ensure_is_connected.
  rewrite Hc, El. cbn [bind]. rewrite HM. reflexivity.
Qed.

(** A layer without bias has no [b_mu], also after a forward pass. *)
Lemma bias_free_layer_has_no_b_mu (out : nat) (p : Distribution)
  (inputs : Tensor) (g : Rng) (y : matrix) (self' : VarLinear.t) (g' : Rng) :
  VarLinear.__call__ (VarLinear.__init__ out p false) inputs g
  = Ok (y, self', g') ->
  VarLinear.b_mu self' = Raise (AttributeError "_b_mu").
Proof.
  unfold VarLinear.__call__. intros H.
  destruct (VarLinear._build _ inputs g) as [[[y0 s0] g0] |] eqn:Hb;
    [| discriminate].
  cbn [bind fst snd] in H. injection H as <- <- <-.
  apply _build_inversion in Hb.
  destruct Hb as (width & w_mu & g1 & w_rho & g2 & _ & _ & _ & Hb).
  cbv zeta in Hb. destruct Hb as (_ & _ & Hb).
  cbn [VarLinear._use_bias VarLinear.__init__] in Hb.
  destruct Hb as (_ & _ & ->). reflexivity.
Qed.

(** ** Use before the first forward pass *)

Lemma unbuilt_layer_raises (self : VarLinear.t) (snr : scalar) :
  VarLinear.is_connected self = false ->
  VarLinear.kl_divergence self = Raise NotConnectedError /\
  VarLinear.w_mu self = Raise NotConnectedError /\
  VarLinear.w_sigma self = Raise NotConnectedError /\
  VarLinear.b_mu self = Raise NotConnectedError /\
  VarLinear.b_sigma self = Raise NotConnectedError /\
  VarLinear.prune_below_snr self snr = Raise NotConnectedError.
Proof.
  intros H.
  unfold VarLinear.kl_divergence, VarLinear.w_mu, VarLinear.w_sigma,
    VarLinear.b_mu, VarLinear.b_sigma, VarLinear.prune_below_snr,
    VarLinear._ensure_is_connected.
  rewrite H. repeat split.
Qed.

Lemma built_layer_reads (self : VarLinear.t) :
  built_layer self -> VarLinear._use_bias self = true ->
  (exists kl, VarLinear.kl_divergence self = Ok kl) /\
  (exists v, VarLinear.w_mu self = Ok v) /\
  (exists v, VarLinear.w_sigma self = Ok v) /\
  (exists v, VarLinear.b_mu self = Ok v) /\
  (exists v, VarLinear.b_sigma self = Ok v).
Proof.
  intros Hb Hu.
  destruct (built_layer_fields Hb)
    as (Hc & (wm & wr & Hwm & Hwr) & (kl & Hk) & Hbias).
  destruct (Hbias Hu) as (bm & br & Hbm & Hbr).
  unfold VarLinear.kl_divergence, VarLinear.w_mu, VarLinear.w_sigma,
    VarLinear.b_mu, VarLinear.b_sigma, VarLinear._ensure_is_connected.
  rewrite Hc, Hk, Hwm, Hwr, Hbm, Hbr. cbn [bind attr].
  repeat split; eexists; reflexivity.
Qed.

(** C5, the failing case.  On a network that has never been called,
    [kl_divergence], [mu_vector], [sigma_vector] and [prune_below_snr] raise
    the not-connected error, but [compress] does not: it has no guard of its
    own and the network has no layer whose guard could fire, so it hands
    four empty lists to [eliminate_dead_neurons] and wraps whatever comes
    back. *)
Theorem compress_before_forward_is_not_guarded
  (eliminate_dead_neurons :
     list (Array matrix) -> list (Array matrix) ->
     list (Array vector) -> list (Array vector) -> list activation ->
     option (list Z * list (Array matrix) * list (Array matrix)
             * list (Array vector) * list (Array vector)))
  (a : VarEstimator.architecture) (p : Distribution) (snr : scalar) :
  let net := VarEstimator.__init__ a p in
  VarEstimator.kl_divergence net = Raise NotConnectedError /\
  VarEstimator.mu_vector net = Raise NotConnectedError /\
  VarEstimator.sigma_vector net = Raise NotConnectedError /\
  VarEstimator.prune_below_snr net snr = Raise NotConnectedError /\
  VarEstimator.compress eliminate_dead_neurons net
  = match eliminate_dead_neurons [] [] [] []
            [act_relu; act_relu; act_identity] with
    | None => Raise ExternalError
    | Some (input_indices, w_mus, w_sigmas, b_mus, b_sigmas) =>
        Ok (VarEstimator.Module_
              (VarEstimator.__init__
                 (VarEstimator.ReducedVarMNIST input_indices w_mus w_sigmas
                                               b_mus b_sigmas) p),
            net)
    end /\
  VarEstimator.compress eliminate_dead_neurons net <> Raise NotConnectedError.
Proof.
  cbv zeta. repeat split.
  unfold VarEstimator.compress. simpl.
  destruct (eliminate_dead_neurons [] [] [] [] _) as [[[[[i wm] ws] bm] bs] |];
    discriminate.
Qed.

(** ** The shape checks *)

(** C6, the failing cases.  Each of the three shape checks of [_build] ends
    the forward pass with an exception, but the exception is the
    [NameError] for the unbound name [base], not Sonnet's
    [IncompatibleShapeError] that the [raise] statements spell out. *)
Theorem shape_checks_raise_NameError (self : VarLinear.t) (inputs : Tensor)
  (g : Rng) :
  List.length (static_shape inputs) <> 2%nat \/
  nth 1 (static_shape inputs) None = None \/
  (exists s width,
      VarLinear._input_shape self = Some s /\
      nth 1 (static_shape inputs) None = Some width /\
      nth 1 s None <> Some width) ->
  VarLinear.__call__ self inputs g = Raise (NameError "base").
Proof.
  intros H. unfold VarLinear.__call__, VarLinear._build.
  destruct (Nat.eqb (List.length (static_shape inputs)) 2) eqn:Hrank;
    [| reflexivity].
  apply Nat.eqb_eq in Hrank. cbn [negb].
  destruct H as [H | [H | (s & width & Hs & Hw & Hne)]].
  - contradiction.
  - rewrite H. reflexivity.
  - rewrite Hw. unfold VarLinear.width_changed. rewrite Hs.
    assert (E : VarLinear.dim_eqb (Some width) (nth 1 s None) = false).
    { destruct (nth 1 s None) as [d |]; simpl; [| reflexivity].
      apply Nat.eqb_neq. congruence. }
    rewrite E. reflexivity.
Qed.

Lemma shape_checks_raise_NameError_witness :
  VarLinear.__call__ width_five_layer batch_4_6
                     (constant_rng (Real 0) (Real 0))
  = Raise (NameError "base").
Proof.
  apply shape_checks_raise_NameError. right. right.
  exists [Some 4%nat; Some 5%nat], 6%nat.
  split; [exact width_five_layer_input_shape |].
  split; [reflexivity |]. simpl. discriminate.
Defined.

(** The same from a layer that has never been called: a first pass on a
    [4, 5] batch succeeds and binds the width, the next pass on a [4, 6]
    batch raises. *)
Lemma width_change_after_first_pass (out : nat) (p : Distribution)
  (use_bias : bool) (g : Rng) (x5 x6 : matrix) :
  (r <- VarLinear.__call__ (VarLinear.__init__ out p use_bias)
                           (mkTensor [Some 4%nat; Some 5%nat] x5) g ;;
   VarLinear.__call__ (snd (fst r)) (mkTensor [Some 4%nat; Some 6%nat] x6)
                      (snd r))
  = Raise (NameError "base").
Proof.
  destruct use_bias; reflexivity.
Qed.

(** ** The priors *)

Lemma ln_sqrt_half (y : R) : (0 < y)%R -> ln (sqrt y) = (/ 2 * ln y)%R.
Proof.
  intros H. rewrite <- (Rpower_sqrt y H). apply ln_Rpower.
Qed.

Lemma normal_pdf_pos (mean sd x : R) : (0 < sd)%R -> (0 < normal_pdf mean sd x)%R.
Proof.
  intros H. unfold normal_pdf.
  assert (Hs : (0 < sqrt (2 * PI))%R).
  { apply sqrt_lt_R0. pose proof PI_RGT_0. lra. }
  apply Rmult_lt_0_compat.
  - apply Rinv_0_lt_compat. apply Rmult_lt_0_compat; assumption.
  - apply exp_pos.
Qed.

Lemma ln_normal_pdf (mean sd x : R) :
  (0 < sd)%R ->
  ln (normal_pdf mean sd x)
  = (- / 2 * ((x + - mean) / sd * ((x + - mean) / sd))
     + - (/ 2 * ln (2 * PI) + ln sd))%R.
Proof.
  intros H. unfold normal_pdf.
  assert (H2 : (0 < 2 * PI)%R) by (pose proof PI_RGT_0; lra).
  assert (Hs : (0 < sqrt (2 * PI))%R) by (apply sqrt_lt_R0; exact H2).
  assert (Hp : (0 < sd * sqrt (2 * PI))%R)
    by (apply Rmult_lt_0_compat; assumption).
  rewrite ln_mult;
    [| apply Rinv_0_lt_compat; exact Hp | apply exp_pos].
  rewrite ln_Rinv by exact Hp.
  rewrite ln_mult by assumption.
  rewrite ln_exp, ln_sqrt_half by exact H2.
  unfold Rminus. field. lra.
Qed.

(** The log-density of [Normal(loc, scale)] at a finite point, for finite
    parameters and a positive scale. *)
Lemma Normal_log_prob_finite (mean sd x : R) :
  (0 < sd)%R ->
  Normal_log_prob (mkNormal (Real mean) (Real sd)) (Real x)
  = Real (ln (normal_pdf mean sd x)).
Proof.
  intros H. unfold Normal_log_prob, fsub, fsquare. cbn [loc scale fneg].
  change (fadd (Real x) (Real (- mean))) with (Real (x + - mean)).
  rewrite (fdiv_Real_pos _ H), (flog_Real_pos H).
  cbn [fmul fadd fneg]. apply Real_ext.
  rewrite ln_normal_pdf by exact H. reflexivity.
Qed.

Lemma prior_scale_of_sigma (s : R) : fexp (fneg (Real s)) = Real (exp (- s)).
Proof. reflexivity. Qed.

(** The categorical log-weights of a mixture with weights p and 1 - p are
    already normalised. *)
Lemma logsumexp_weights (p : R) :
  (0 <= p <= 1)%R ->
  reduce_logsumexp [flog (Real p); flog (fsub (Real 1) (Real p))] = Real 0.
Proof.
  intros [H0 H1]. unfold reduce_logsumexp, reduce_sum_vector, fsub.
  cbn [fneg fadd map fold_left].
  destruct (Req_dec_T p 0) as [-> | Hp0].
  - rewrite (flog_Real_zero (r := 0)) by reflexivity.
    rewrite flog_Real_pos by lra. cbn [fexp fadd].
    rewrite exp_ln by lra.
    rewrite flog_Real_pos by lra. apply Real_ext.
    replace (0 + 0 + (1 + - 0))%R with 1%R by lra. apply ln_1.
  - destruct (Req_dec_T p 1) as [-> | Hp1].
    + rewrite flog_Real_pos by lra.
      rewrite (flog_Real_zero (r := 1 + - (1))) by lra. cbn [fexp fadd].
      rewrite exp_ln by lra.
      rewrite flog_Real_pos by lra. apply Real_ext.
      replace (0 + 1 + 0)%R with 1%R by lra. apply ln_1.
    + rewrite !flog_Real_pos by lra. cbn [fexp fadd].
      rewrite !exp_ln by lra.
      rewrite flog_Real_pos by lra. apply Real_ext.
      replace (0 + p + (1 + - p))%R with 1%R by lra. apply ln_1.
Qed.

(** A component's share: exp(log weight - 0 + log density) is
    weight * density, also for the weight 0, whose logarithm is -inf. *)
Lemma weighted_component (p d : R) :
  (0 <= p)%R -> (0 < d)%R ->
  fexp (fadd (fsub (flog (Real p)) (Real 0)) (Real (ln d))) = Real (p * d).
Proof.
  intros Hp Hd. destruct (Req_dec_T p 0) as [-> | Hp0].
  - rewrite (flog_Real_zero (r := 0)) by reflexivity. cbn.
    apply Real_ext. lra.
  - rewrite flog_Real_pos by lra. unfold fsub. cbn [fneg fadd fexp].
    apply Real_ext.
    rewrite !exp_plus, !exp_ln by lra.
    rewrite Ropp_0, exp_0. lra.
Qed.

(** C7 (as amended).  The hyperparameters [sigma], [sigma1] and [sigma2]
    are negated logarithms of the standard deviations: the Gaussian prior
    built from [mu], [sigma] has the log-density of the normal distribution
    with mean [mu] and standard deviation exp(-sigma), and the mixture prior
    built from [mix_prop] in [0, 1], [sigma1], [sigma2] has the density
    mix_prop * N(0, exp(-sigma1)) + (1 - mix_prop) * N(0, exp(-sigma2)).
    The standard deviations are strictly positive whatever the sign of the
    hyperparameters. *)
Theorem prior_scales_are_exp_of_negated_sigma :
  (forall mu sigma x : R,
      log_prob (create_gaussian_prior (gaussian_params mu sigma)) (Real x)
      = Real (ln (normal_pdf mu (exp (- sigma)) x))) /\
  (forall mix_prop sigma1 sigma2 x : R,
      (0 <= mix_prop <= 1)%R ->
      log_prob (create_mixture_prior (mixture_params mix_prop sigma1 sigma2))
               (Real x)
      = Real (ln (mixture_pdf mix_prop (exp (- sigma1)) (exp (- sigma2)) x)))
  /\
  (forall sigma : R, (0 < exp (- sigma))%R).
Proof.
  split; [| split].
  - intros m s x. unfold create_gaussian_prior, gaussian_params.
    cbn [log_prob mu sigma]. rewrite prior_scale_of_sigma.
    apply Normal_log_prob_finite, exp_pos.
  - intros p s1 s2 x Hp.
    unfold create_mixture_prior, mixture_params.
    cbn [log_prob mix_prop sigma1 sigma2].
    rewrite !prior_scale_of_sigma.
    unfold log_softmax. cbn [map].
    rewrite (logsumexp_weights Hp).
    rewrite !Normal_log_prob_finite by apply exp_pos.
    pose proof (@normal_pdf_pos 0 (exp (- s1)) x (exp_pos _)) as H1.
    pose proof (@normal_pdf_pos 0 (exp (- s2)) x (exp_pos _)) as H2.
    unfold reduce_logsumexp, reduce_sum_vector.
    cbn [zipWith map fold_left].
    rewrite (weighted_component (p := p)) by (lra || assumption).
    change (fsub (Real 1) (Real p)) with (Real (1 + - p)).
    rewrite (weighted_component (p := 1 + - p)) by (lra || assumption).
    cbn [fadd].
    assert (Hpos : (0 < 0 + p * normal_pdf 0 (exp (- s1)) x
                        + (1 + - p) * normal_pdf 0 (exp (- s2)) x)%R).
    { destruct (Req_dec_T p 0) as [-> | Hp0]; [lra |].
      assert (0 < p * normal_pdf 0 (exp (- s1)) x)%R
        by (apply Rmult_lt_0_compat; lra).
      assert (0 <= (1 + - p) * normal_pdf 0 (exp (- s2)) x)%R
        by (apply Rmult_le_pos; lra).
      lra. }
    rewrite (flog_Real_pos Hpos). apply Real_ext. f_equal.
    unfold mixture_pdf. lra.
  - intros s. apply exp_pos.
Qed.

Lemma prior_scales_are_exp_of_negated_sigma_witness :
  log_prob (create_mixture_prior (mixture_params (/ 4) 7 1)) (Real 0)
  = Real (ln (mixture_pdf (/ 4) (exp (- 7)) (exp (- 1)) 0)).
Proof.
  apply (proj1 (proj2 prior_scales_are_exp_of_negated_sigma)). lra.
Defined.

(** C7, as stated, fails.  With mu = 0 and sigma = 1 the prior is not the
    normal distribution of mean 0 and standard deviation 1: at 0 its
    log-density is larger by 1, because its standard deviation is exp(-1). *)
Lemma gaussian_prior_sigma_counterexample :
  log_prob (create_gaussian_prior (gaussian_params 0 1)) (Real 0)
  <> Normal_log_prob (mkNormal (Real 0) (Real 1)) (Real 0).
Proof.
  unfold create_gaussian_prior, gaussian_params.
  cbn [log_prob mu sigma]. rewrite prior_scale_of_sigma.
  rewrite !Normal_log_prob_finite by (apply exp_pos || lra).
  rewrite !ln_normal_pdf by (apply exp_pos || lra).
  rewrite ln_exp, ln_1. intros E. injection E as E.
  replace (0 + - 0)%R with 0%R in E by lra.
  unfold Rdiv in E. rewrite !Rmult_0_l in E. lra.
Qed.

(** ** Compression *)

Lemma mapM_Forall {A B : Type} (f : A -> result B) (l : list A) :
  Forall (fun a => exists b, f a = Ok b) l ->
  exists bs, Forall2 (fun a b => f a = Ok b) l bs /\ mapM f l = Ok bs.
Proof.
  induction 1 as [| a l [b Hb] _ (bs & HF & HM)].
  - exists []. split; [constructor | reflexivity].
  - exists (b :: bs). split.
    + constructor; assumption.
    + simpl. rewrite Hb, HM. reflexivity.
Qed.

Lemma built_network_reads (self : VarEstimator.t) :
  built_network self ->
  (exists vs, Forall2 (fun l v => VarLinear.w_mu l = Ok v)
                      (VarEstimator._layers self) vs
              /\ mapM VarLinear.w_mu (VarEstimator._layers self) = Ok vs) /\
  (exists vs, Forall2 (fun l v => VarLinear.w_sigma l = Ok v)
                      (VarEstimator._layers self) vs
              /\ mapM VarLinear.w_sigma (VarEstimator._layers self) = Ok vs) /\
  (exists vs, Forall2 (fun l v => VarLinear.b_mu l = Ok v)
                      (VarEstimator._layers self) vs
              /\ mapM VarLinear.b_mu (VarEstimator._layers self) = Ok vs) /\
  (exists vs, Forall2 (fun l v => VarLinear.b_sigma l = Ok v)
                      (VarEstimator._layers self) vs
              /\ mapM VarLinear.b_sigma (VarEstimator._layers self) = Ok vs).
Proof.
  intros (_ & _ & Hl).
  repeat split; apply mapM_Forall; (eapply Forall_impl; [| exact Hl]);
    intros l [Hb Hu]; destruct (built_layer_reads Hb Hu) as (_ & ? & ? & ? & ?);
    assumption.
Qed.

Lemma compress_of_built_network
  (eliminate_dead_neurons :
     list (Array matrix) -> list (Array matrix) ->
     list (Array vector) -> list (Array vector) -> list activation ->
     option (list Z * list (Array matrix) * list (Array matrix)
             * list (Array vector) * list (Array vector)))
  (self : VarEstimator.t) :
  built_network self ->
  exists w_mus w_sigmas b_mus b_sigmas,
    Forall2 (fun l v => VarLinear.w_mu l = Ok v)
            (VarEstimator._layers self) w_mus /\
    Forall2 (fun l v => VarLinear.w_sigma l = Ok v)
            (VarEstimator._layers self) w_sigmas /\
    Forall2 (fun l v => VarLinear.b_mu l = Ok v)
            (VarEstimator._layers self) b_mus /\
    Forall2 (fun l v => VarLinear.b_sigma l = Ok v)
            (VarEstimator._layers self) b_sigmas /\
    VarEstimator.compress eliminate_dead_neurons self
    = match eliminate_dead_neurons w_mus w_sigmas b_mus b_sigmas
              [act_relu; act_relu; act_identity] with
      | None => Raise ExternalError
      | Some (input_indices, w_mus', w_sigmas', b_mus', b_sigmas') =>
          Ok (VarEstimator.Module_
                (VarEstimator.mk
                   (VarEstimator.ReducedVarMNIST input_indices w_mus' w_sigmas'
                                                 b_mus' b_sigmas')
                   (VarEstimator.prior self) [] true false),
              self)
      end.
Proof.
  intros Hb.
  destruct (built_network_reads Hb)
    as ((wm & F1 & M1) & (ws & F2 & M2) & (bm & F3 & M3) & (bs & F4 & M4)).
  exists wm, ws, bm, bs. repeat (split; [assumption |]).
  unfold VarEstimator.compress. rewrite M1, M2, M3, M4. cbn [bind].
  destruct (eliminate_dead_neurons wm ws bm bs _)
    as [[[[[i wm'] ws'] bm'] bs'] |]; reflexivity.
Qed.

(** C8 (as amended).  For every built network, [compress] reads the four
    parameter tensors of every layer, hands them to
    [eliminate_dead_neurons], and hands back one object, the new reduced
    network, never a pair: the retained input indices and the trimmed
    tensors are fields of that network, which shares the prior, has no
    layers yet and is not connected.  The network that was compressed is
    left as it was.  When [eliminate_dead_neurons] fails, so does
    [compress]. *)
Theorem compress_hands_back_the_reduced_network
  (eliminate_dead_neurons :
     list (Array matrix) -> list (Array matrix) ->
     list (Array vector) -> list (Array vector) -> list activation ->
     option (list Z * list (Array matrix) * list (Array matrix)
             * list (Array vector) * list (Array vector)))
  (self : VarEstimator.t) :
  built_network self ->
  (exists w_mus w_sigmas b_mus b_sigmas,
      Forall2 (fun l v => VarLinear.w_mu l = Ok v)
              (VarEstimator._layers self) w_mus /\
      Forall2 (fun l v => VarLinear.w_sigma l = Ok v)
              (VarEstimator._layers self) w_sigmas /\
      Forall2 (fun l v => VarLinear.b_mu l = Ok v)
              (VarEstimator._layers self) b_mus /\
      Forall2 (fun l v => VarLinear.b_sigma l = Ok v)
              (VarEstimator._layers self) b_sigmas /\
      VarEstimator.compress eliminate_dead_neurons self
      = match eliminate_dead_neurons w_mus w_sigmas b_mus b_sigmas
                [act_relu; act_relu; act_identity] with
        | None => Raise ExternalError
        | Some (input_indices, w_mus', w_sigmas', b_mus', b_sigmas') =>
            Ok (VarEstimator.Module_
                  (VarEstimator.mk
                     (VarEstimator.ReducedVarMNIST input_indices w_mus'
                        w_sigmas' b_mus' b_sigmas')
                     (VarEstimator.prior self) [] true false),
                self)
        end) /\
  (forall first second self',
      VarEstimator.compress eliminate_dead_neurons self
      <> Ok (VarEstimator.Pair first second, self')) /\
  (forall value self',
      VarEstimator.compress eliminate_dead_neurons self = Ok (value, self') ->
      self' = self).
Proof.
  intros Hb.
  destruct (compress_of_built_network eliminate_dead_neurons Hb)
    as (wm & ws & bm & bs & F1 & F2 & F3 & F4 & E).
  split; [| split].
  - exists wm, ws, bm, bs. repeat (split; [assumption |]). exact E.
  - intros first second self'. rewrite E.
    destruct (eliminate_dead_neurons wm ws bm bs _)
      as [[[[[i wm'] ws'] bm'] bs'] |]; discriminate.
  - intros v self'. rewrite E.
    destruct (eliminate_dead_neurons wm ws bm bs _)
      as [[[[[i wm'] ws'] bm'] bs'] |]; [| discriminate].
    intros H. injection H as _ <-. reflexivity.
Qed.

Lemma compress_hands_back_the_reduced_network_witness :
  exists m,
    VarEstimator.compress keep_everything called_network
    = Ok (VarEstimator.Module_ m, called_network).
Proof.
  pose proof built_called_network as Hb.
  destruct (@compress_hands_back_the_reduced_network keep_everything
              called_network Hb)
    as ((wm & ws & bm & bs & _ & _ & _ & _ & E) & _ & _).
  remember (VarEstimator.compress keep_everything called_network) as c.
  unfold keep_everything in E. subst c.
  eexists. exact E.
Defined.

(** C8, as stated, fails.  Compressing the small network, with nothing found
    dead, succeeds and the value handed back is not a pair. *)
Lemma compress_pair_counterexample :
  (exists m self',
      VarEstimator.compress keep_everything called_network
      = Ok (VarEstimator.Module_ m, self')) /\
  ~ (exists first second self',
        VarEstimator.compress keep_everything called_network
        = Ok (VarEstimator.Pair first second, self')).
Proof.
  destruct (compress_of_built_network keep_everything built_called_network)
    as (wm & ws & bm & bs & _ & _ & _ & _ & E).
  remember (VarEstimator.compress keep_everything called_network) as c.
  unfold keep_everything in E. subst c. split.
  - eexists. eexists. exact E.
  - intros (first & second & self' & H). rewrite E in H. discriminate.
Qed.

(** ** The mask of the reduced network *)

Lemma length_set_nth (i : nat) (x : scalar) (a : vector) :
  List.length (ReducedVarMNIST.set_nth i x a) = List.length a.
Proof.
  revert i. induction a as [| y a IH]; intros [| i]; simpl;
    try reflexivity.
  rewrite IH. reflexivity.
Qed.

Lemma nth_set_nth (p i : nat) (x d : scalar) (a : vector) :
  (i < List.length a)%nat ->
  nth p (ReducedVarMNIST.set_nth i x a) d
  = if Nat.eqb p i then x else nth p a d.
Proof.
  revert p i. induction a as [| y a IH]; intros p i Hi; simpl in Hi.
  - lia.
  - destruct i as [| i], p as [| p]; simpl; try reflexivity.
    apply IH. lia.
Qed.

Lemma nth_setitem_fold (p : nat) (x d : scalar) (positions : list nat)
  (a : vector) :
  Forall (fun i => (i < List.length a)%nat) positions ->
  nth p (fold_left (fun acc i => ReducedVarMNIST.set_nth i x acc) positions a)
      d
  = if existsb (Nat.eqb p) positions then x else nth p a d.
Proof.
  revert a. induction positions as [| i positions IH]; intros a H; simpl.
  - reflexivity.
  - inversion H as [| i' ps Hi Hps]; subst.
    rewrite IH.
    + rewrite (@nth_set_nth p i x d a Hi).
      rewrite (Nat.eqb_sym p i).
      destruct (Nat.eqb i p), (existsb (Nat.eqb p) positions); reflexivity.
    + rewrite length_set_nth. exact Hps.
Qed.

Lemma length_setitem_fold (x : scalar) (positions : list nat) (a : vector) :
  List.length
    (fold_left (fun acc i => ReducedVarMNIST.set_nth i x acc) positions a)
  = List.length a.
Proof.
  revert a. induction positions as [| i positions IH]; intros a; simpl.
  - reflexivity.
  - rewrite IH. apply length_set_nth.
Qed.

Lemma normalize_index_in_range (i : Z) :
  (-784 <= i < 784)%Z ->
  ReducedVarMNIST.normalize_index 784 i = Ok (Z.to_nat (i mod 784)) /\
  (Z.to_nat (i mod 784) < 784)%nat.
Proof.
  intros H. unfold ReducedVarMNIST.normalize_index.
  change (Z.of_nat 784) with 784%Z.
  assert (Hmod : (0 <= i mod 784 < 784)%Z) by (apply Z.mod_pos_bound; lia).
  split; [| lia].
  destruct (Z.leb_spec 0 i) as [Hnn | Hneg]; simpl.
  - destruct (Z.ltb_spec i 784) as [_ | Hge]; [| lia].
    rewrite Z.mod_small by lia. reflexivity.
  - destruct (Z.leb_spec (-784) i) as [_ | Hlt]; [| lia].
    destruct (Z.ltb_spec i 0) as [_ | Hge]; [| lia]. simpl.
    assert (E : (i mod 784 = 784 + i)%Z).
    { symmetry. apply (Z.mod_unique_pos i 784 (-1) (784 + i)); lia. }
    rewrite E. reflexivity.
Qed.

Lemma mapM_normalize_index (indices : list Z) :
  Forall (fun i => (-784 <= i < 784)%Z) indices ->
  mapM (ReducedVarMNIST.normalize_index 784) indices
  = Ok (map (fun i => Z.to_nat (i mod 784)) indices).
Proof.
  induction 1 as [| i indices Hi _ IH]; simpl.
  - reflexivity.
  - rewrite (proj1 (normalize_index_in_range Hi)), IH. reflexivity.
Qed.

Lemma nth_reshape (r c rr cc : nat) (a : vector) (d : scalar) :
  (r < rr)%nat -> (c < cc)%nat ->
  nth c (nth r (ReducedVarMNIST.reshape rr cc a) []) d
  = nth (r * cc + c) a d.
Proof.
  intros Hr Hc. unfold ReducedVarMNIST.reshape.
  rewrite (nth_indep _ [] (firstn cc (skipn (0 * cc) a)))
    by (rewrite length_map, length_seq; exact Hr).
  rewrite (map_nth (fun i => firstn cc (skipn (i * cc) a))).
  rewrite seq_nth by exact Hr. simpl.
  rewrite nth_firstn.
  destruct (Nat.ltb_spec c cc) as [_ | Hge]; [| lia].
  apply nth_skipn.
Qed.

Lemma existsb_retained (indices : list Z) (p : nat) :
  existsb (Nat.eqb p) (map (fun i => Z.to_nat (i mod 784)) indices) = true
  <-> retained indices p.
Proof.
  rewrite existsb_exists. unfold retained. split.
  - intros (q & Hin & Hq). apply in_map_iff in Hin.
    destruct Hin as (i & <- & Hi). apply Nat.eqb_eq in Hq.
    exists i. split; [exact Hi |].
    assert (0 <= i mod 784 < 784)%Z by (apply Z.mod_pos_bound; lia). lia.
  - intros (i & Hi & Hp). exists (Z.to_nat (i mod 784)). split.
    + apply in_map_iff. exists i. split; [reflexivity | exact Hi].
    + apply Nat.eqb_eq. lia.
Qed.

Lemma unused_input_mask_entries (indices : list Z) :
  Forall (fun i => (-784 <= i < 784)%Z) indices ->
  exists mask1,
    ReducedVarMNIST.setitem (repeat (Real 0) (28 * 28)) indices (Real 1)
    = Ok mask1 /\
    List.length mask1 = 784%nat /\
    forall p, (p < 784)%nat ->
      nth p mask1 NaN
      = if existsb (Nat.eqb p) (map (fun i => Z.to_nat (i mod 784)) indices)
        then Real 1 else Real 0.
Proof.
  intros H. unfold ReducedVarMNIST.setitem.
  rewrite repeat_length. change (28 * 28)%nat with 784%nat.
  rewrite (mapM_normalize_index H). cbn [bind].
  eexists. split; [reflexivity |]. split.
  - rewrite length_setitem_fold. apply repeat_length.
  - intros p Hp. rewrite nth_setitem_fold.
    + rewrite nth_repeat_lt by exact Hp. reflexivity.
    + rewrite repeat_length. apply Forall_forall. intros q Hq.
      apply in_map_iff in Hq. destruct Hq as (i & <- & Hi).
      rewrite Forall_forall in H.
      apply (proj2 (normalize_index_in_range (H i Hi))).
Qed.

(** C9 (as amended).  For every reduced network whose retained input
    positions are valid indices of the 784 inputs, [get_unused_input_mask]
    hands back a 28 x 28 array of zeros and ones, the shape of one input
    image, in which the ones are exactly the retained input positions, those
    listed in [input_indices], and the zeros are exactly the positions that
    compression discarded. *)
Theorem unused_input_mask_marks_retained_inputs (self : VarEstimator.t)
  (input_indices : list Z) (w_mus w_sigmas : list (Array matrix))
  (b_mus b_sigmas : list (Array vector)) :
  VarEstimator.arch self
  = VarEstimator.ReducedVarMNIST input_indices w_mus w_sigmas b_mus b_sigmas ->
  Forall (fun i => (-784 <= i < 784)%Z) input_indices ->
  exists mask,
    ReducedVarMNIST.get_unused_input_mask self = Ok (mkArray [28; 28]%nat mask)
    /\ List.length mask = 28%nat
    /\ Forall (fun row => List.length row = 28%nat) mask
    /\ forall r c, (r < 28)%nat -> (c < 28)%nat ->
         (retained input_indices (r * 28 + c) ->
          nth c (nth r mask []) NaN = Real 1) /\
         (~ retained input_indices (r * 28 + c) ->
          nth c (nth r mask []) NaN = Real 0).
Proof.
  intros Harch Hidx. unfold ReducedVarMNIST.get_unused_input_mask.
  rewrite Harch.
  destruct (unused_input_mask_entries Hidx) as (mask1 & E & Hlen & Hnth).
  rewrite E. cbn [bind]. eexists. split; [reflexivity |].
  split; [| split].
  - unfold ReducedVarMNIST.reshape. rewrite length_map, length_seq.
    reflexivity.
  - unfold ReducedVarMNIST.reshape. apply Forall_forall. intros row Hrow.
    apply in_map_iff in Hrow. destruct Hrow as (i & <- & Hi).
    apply in_seq in Hi. rewrite length_firstn, length_skipn. lia.
  - intros r c Hr Hc. rewrite (@nth_reshape r c 28 28 mask1 NaN Hr Hc).
    rewrite Hnth by lia.
    destruct (existsb (Nat.eqb (r * 28 + c)) _) eqn:Ex.
    + split; [reflexivity |]. intros Hn. exfalso. apply Hn.
      apply existsb_retained. exact Ex.
    + split; [| reflexivity]. intros Hret.
      apply existsb_retained in Hret. congruence.
Qed.

Lemma unused_input_mask_marks_retained_inputs_witness :
  exists mask,
    ReducedVarMNIST.get_unused_input_mask first_input_only
    = Ok (mkArray [28; 28]%nat mask)
    /\ nth 0 (nth 0 mask []) NaN = Real 1.
Proof.
  destruct (@unused_input_mask_marks_retained_inputs first_input_only
              [0%Z] [] [] [] [] eq_refl)
    as (mask & E & _ & _ & H).
  { apply Forall_cons; [lia | apply Forall_nil]. }
  exists mask. split; [exact E |].
  apply (proj1 (H 0%nat 0%nat ltac:(lia) ltac:(lia))).
  exists 0%Z. split; [left; reflexivity | reflexivity].
Defined.

(** C9, as stated, fails.  The reduced network retains input position 0 and
    nothing else.  Position 0 was not discarded, yet the mask is 1 there;
    position 1 was discarded, yet the mask is 0 there. *)
Lemma unused_input_mask_counterexample :
  exists mask,
    ReducedVarMNIST.get_unused_input_mask first_input_only
    = Ok (mkArray [28; 28]%nat mask) /\
    retained [0%Z] 0 /\ nth 0 (nth 0 mask []) NaN = Real 1 /\
    ~ retained [0%Z] 1 /\ nth 1 (nth 0 mask []) NaN = Real 0.
Proof.
  eexists. split; [reflexivity |].
  split; [| split; [| split]].
  - exists 0%Z. split; [left; reflexivity | reflexivity].
  - reflexivity.
  - intros (i & [<- | []] & Hi). discriminate.
  - reflexivity.
Qed.

(** ** The parameter vectors *)

Lemma means_of_combine (a b : vector) :
  List.length a = List.length b -> map mean_of (combine a b) = a.
Proof.
  revert b. induction a as [| x a IH]; intros [| y b] H; simpl in *;
    try reflexivity; try discriminate.
  rewrite IH by lia. reflexivity.
Qed.

Lemma scales_of_combine (a b : vector) :
  List.length a = List.length b ->
  map scale_of (combine a b) = map softplus b.
Proof.
  revert b. induction a as [| x a IH]; intros [| y b] H; simpl in *;
    try reflexivity; try discriminate.
  rewrite IH by lia. reflexivity.
Qed.

Lemma means_of_rows (a b : matrix) :
  map (@List.length scalar) a = map (@List.length scalar) b ->
  map mean_of (List.concat (zipWith (@combine scalar scalar) a b))
  = flatten a.
Proof.
  unfold flatten. revert b.
  induction a as [| x a IH]; intros [| y b] H; simpl in *;
    try reflexivity; try discriminate.
  injection H as Hxy H.
  rewrite map_app, means_of_combine, IH by assumption. reflexivity.
Qed.

Lemma scales_of_rows (a b : matrix) :
  map (@List.length scalar) a = map (@List.length scalar) b ->
  map scale_of (List.concat (zipWith (@combine scalar scalar) a b))
  = flatten (mmap softplus b).
Proof.
  unfold flatten, mmap. revert b.
  induction a as [| x a IH]; intros [| y b] H; simpl in *;
    try reflexivity; try discriminate.
  injection H as Hxy H.
  rewrite map_app, scales_of_combine, IH by assumption.
  reflexivity.
Qed.

(** What the four reads of a built layer with a bias give. *)
Lemma built_layer_vectors (layer : VarLinear.t) :
  built_layer layer -> VarLinear._use_bias layer = true ->
  (v <- VarLinear.w_mu layer ;; Ok (flatten (value v)))
  = Ok (map mean_of (layer_weight_params layer)) /\
  (v <- VarLinear.w_sigma layer ;; Ok (flatten (value v)))
  = Ok (map scale_of (layer_weight_params layer)) /\
  (v <- VarLinear.b_mu layer ;; Ok (value v))
  = Ok (map mean_of (layer_bias_params layer)) /\
  (v <- VarLinear.b_sigma layer ;; Ok (value v))
  = Ok (map scale_of (layer_bias_params layer)).
Proof.
  intros Hb Hu.
  destruct (built_layer_fields Hb)
    as (Hc & (wm & wr & Hwm & Hwr) & _ & Hbias).
  destruct (Hbias Hu) as (bm & br & Hbm & Hbr).
  destruct Hb as (_ & _ & _ & _ & Ha1 & Ha2).
  rewrite Hwm, Hwr in Ha1. rewrite Hbm, Hbr in Ha2.
  unfold VarLinear.w_mu, VarLinear.w_sigma, VarLinear.b_mu, VarLinear.b_sigma,
    VarLinear._ensure_is_connected, layer_weight_params, layer_bias_params.
  rewrite Hc, Hwm, Hwr, Hbm, Hbr. cbn [bind attr assign value].
  rewrite (means_of_rows _ _ Ha1), (scales_of_rows _ _ Ha1).
  rewrite (means_of_combine _ _ Ha2), (scales_of_combine _ _ Ha2).
  repeat split.
Qed.

Lemma mapM_ext_Forall {A B : Type} (f : A -> result B) (h : A -> B)
  (l : list A) :
  Forall (fun a => f a = Ok (h a)) l -> mapM f l = Ok (map h l).
Proof.
  induction 1 as [| a l Ha _ IH]; simpl.
  - reflexivity.
  - rewrite Ha, IH. reflexivity.
Qed.

Lemma zipWith_sample (params : list (scalar * scalar)) (eps : vector) :
  zipWith fadd (map mean_of params)
          (zipWith fmul (map scale_of params) eps)
  = zipWith (fun p e => fadd (mean_of p) (fmul (scale_of p) e)) params eps.
Proof.
  revert eps. induction params as [| p params IH]; intros [| e eps]; simpl;
    try reflexivity.
  rewrite IH. reflexivity.
Qed.

Lemma tf_concat_app (ws bs : list vector) :
  ws <> [] ->
  VarEstimator.tf_concat (ws ++ bs) = Ok (List.concat ws ++ List.concat bs).
Proof.
  intros H. unfold VarEstimator.tf_concat.
  destruct ws as [| w ws]; [congruence |].
  rewrite <- concat_app. reflexivity.
Qed.

Lemma map_nonempty {A B : Type} (f : A -> B) (l : list A) :
  l <> [] -> map f l <> [].
Proof. destruct l; [congruence | discriminate]. Qed.

Lemma concat_map_map {A B C : Type} (h : B -> C) (f : A -> list B)
  (l : list A) :
  List.concat (map (fun a => map h (f a)) l)
  = map h (List.concat (map f l)).
Proof. rewrite concat_map, map_map. reflexivity. Qed.

(** C10.  For every built network, [mu_vector] and [sigma_vector] list the
    same parameters in the same order: the weights of every layer, row after
    row and in layer order, then the biases of every layer in layer order.
    Entry i of [mu_vector] is the mean and entry i of [sigma_vector] is the
    scale of the same parameter i, and [sample_posterior] draws parameter i
    as its own mean plus its own scale times a fresh standard-normal draw. *)
Theorem parameter_vectors_are_aligned (self : VarEstimator.t) :
  built_network self ->
  VarEstimator.mu_vector self = Ok (map mean_of (parameters self)) /\
  VarEstimator.sigma_vector self = Ok (map scale_of (parameters self)) /\
  forall g : Rng,
    VarEstimator.sample_posterior self g
    = Ok (zipWith (fun p eps => fadd (mean_of p) (fmul (scale_of p) eps))
                  (parameters self)
                  (stream_vector (normal_stream g) (normal_pos g)
                                 (List.length (parameters self))),
          after_sample (List.length (parameters self)) g).
Proof.
  intros (Hc & Hne & Hl).
  assert (Hv : Forall (fun layer =>
                 (v <- VarLinear.w_mu layer ;; Ok (flatten (value v)))
                 = Ok (map mean_of (layer_weight_params layer)) /\
                 (v <- VarLinear.w_sigma layer ;; Ok (flatten (value v)))
                 = Ok (map scale_of (layer_weight_params layer)) /\
                 (v <- VarLinear.b_mu layer ;; Ok (value v))
                 = Ok (map mean_of (layer_bias_params layer)) /\
                 (v <- VarLinear.b_sigma layer ;; Ok (value v))
                 = Ok (map scale_of (layer_bias_params layer)))
               (VarEstimator._layers self)).
  { eapply Forall_impl; [| exact Hl]. intros layer [Hb Hu].
    apply built_layer_vectors; assumption. }
  assert (Hmu : VarEstimator.mu_vector self
                = Ok (map mean_of (parameters self))).
  { unfold VarEstimator.mu_vector, VarEstimator._ensure_is_connected.
    rewrite Hc. cbn [bind].
    rewrite (mapM_ext_Forall _ (fun l => map mean_of (layer_weight_params l)))
      by (eapply Forall_impl; [| exact Hv]; intros l H; apply H).
    cbn [bind].
    rewrite (mapM_ext_Forall _ (fun l => map mean_of (layer_bias_params l)))
      by (eapply Forall_impl; [| exact Hv]; intros l H; apply H).
    cbn [bind]. rewrite tf_concat_app by (apply map_nonempty; exact Hne).
    unfold parameters. rewrite map_app, !concat_map_map. reflexivity. }
  assert (Hsigma : VarEstimator.sigma_vector self
                   = Ok (map scale_of (parameters self))).
  { unfold VarEstimator.sigma_vector, VarEstimator._ensure_is_connected.
    rewrite Hc. cbn [bind].
    rewrite (mapM_ext_Forall _ (fun l => map scale_of (layer_weight_params l)))
      by (eapply Forall_impl; [| exact Hv]; intros l H; apply H).
    cbn [bind].
    rewrite (mapM_ext_Forall _ (fun l => map scale_of (layer_bias_params l)))
      by (eapply Forall_impl; [| exact Hv]; intros l H; apply H).
    cbn [bind]. rewrite tf_concat_app by (apply map_nonempty; exact Hne).
    unfold parameters. rewrite map_app, !concat_map_map. reflexivity. }
  split; [exact Hmu |]. split; [exact Hsigma |].
  intros g. unfold VarEstimator.sample_posterior.
  rewrite Hmu, Hsigma. cbn [bind]. unfold sample_vector.
  rewrite length_map, zipWith_sample. reflexivity.
Qed.

Lemma parameter_vectors_are_aligned_witness :
  VarEstimator.mu_vector called_network
  = Ok (map mean_of (parameters called_network)) /\
  VarEstimator.sigma_vector called_network
  = Ok (map scale_of (parameters called_network)).
Proof.
  pose proof built_called_network as Hb.
  destruct (@parameter_vectors_are_aligned called_network Hb) as (H1 & H2 & _).
  split; assumption.
Defined.

(** * Further properties of the layer and the network *)

(** ** Shapes are kept *)

Lemma length_zipWith {A B C : Type} (f : A -> B -> C) (u : list A)
  (v : list B) :
  List.length (zipWith f u v) = Nat.min (List.length u) (List.length v).
Proof.
  revert v. induction u as [| a u IH]; intros [| b v]; simpl;
    try reflexivity.
  rewrite IH. reflexivity.
Qed.

Lemma has_shape_stream_matrix (s : nat -> scalar) (pos r c : nat) :
  has_shape r c (stream_matrix s pos r c).
Proof.
  unfold has_shape, stream_matrix. split.
  - rewrite length_map, length_seq. reflexivity.
  - apply Forall_forall. intros row Hrow. apply in_map_iff in Hrow.
    destruct Hrow as (i & <- & _). unfold stream_vector.
    rewrite length_map, length_seq. reflexivity.
Qed.

Lemma has_shape_mmap (f : scalar -> scalar) (r c : nat) (m : matrix) :
  has_shape r c m -> has_shape r c (mmap f m).
Proof.
  intros [Hl Hr]. unfold has_shape, mmap. split.
  - rewrite length_map. exact Hl.
  - apply Forall_forall. intros row Hrow. apply in_map_iff in Hrow.
    destruct Hrow as (row0 & <- & Hin). rewrite length_map.
    rewrite Forall_forall in Hr. apply Hr. exact Hin.
Qed.

Lemma has_shape_repeat (x : scalar) (r c : nat) :
  has_shape r c (repeat (repeat x c) r).
Proof.
  unfold has_shape. split.
  - apply repeat_length.
  - apply Forall_forall. intros row Hrow. apply repeat_spec in Hrow.
    subst row. apply repeat_length.
Qed.

Lemma has_shape_mzip (f : scalar -> scalar -> scalar) (r c : nat)
  (a b : matrix) :
  has_shape r c a -> has_shape r c b -> has_shape r c (mzip f a b).
Proof.
  unfold has_shape, mzip. intros [Hla Hra] [Hlb Hrb]. split.
  - rewrite length_zipWith. lia.
  - clear Hla Hlb. revert b Hrb.
    induction Hra as [| x a Hx _ IH]; intros [| y b] Hrb; simpl;
      try constructor.
    + inversion Hrb; subst. rewrite length_zipWith. lia.
    + inversion Hrb; subst. apply IH. assumption.
Qed.

Lemma matmul_shape (x w : matrix) (out : nat) :
  has_shape (List.length x) out (matmul x w out).
Proof.
  unfold has_shape, matmul. split.
  - apply length_map.
  - apply Forall_forall. intros row Hrow. apply in_map_iff in Hrow.
    destruct Hrow as (xi & <- & _). rewrite length_map, length_seq.
    reflexivity.
Qed.

Lemma add_bias_shape (r c : nat) (m : matrix) (b : vector) :
  has_shape r c m -> List.length b = c -> has_shape r c (add_bias m b).
Proof.
  intros [Hl Hr] Hb. unfold has_shape, add_bias. split.
  - rewrite length_map. exact Hl.
  - apply Forall_forall. intros row Hrow. apply in_map_iff in Hrow.
    destruct Hrow as (row0 & <- & Hin). rewrite length_zipWith.
    rewrite Forall_forall in Hr. rewrite (Hr row0 Hin). lia.
Qed.

(** What [get_variable] hands back has the shape that was asked for, and is
    the variable that existed or a new one from the initialiser. *)
Lemma get_variable_shape {A : Type} (existing : option (Array A))
  (shp : list nat) (initializer : Rng -> A * Rng) (g : Rng)
  (v : Array A) (g' : Rng) :
  get_variable existing shp initializer g = Ok (v, g') ->
  shape v = shp /\
  (existing = Some v \/
   (existing = None /\ v = mkArray shp (fst (initializer g)))).
Proof.
  unfold get_variable. destruct existing as [v0 |].
  - destruct (list_eq_dec Nat.eq_dec shp (shape v0)) as [E | N]; intros H.
    + injection H as <- _. split; [symmetry; exact E | left; reflexivity].
    + discriminate.
  - destruct (initializer g) as [x g1]. intros H. injection H as <- _.
    split; [reflexivity | right; split; reflexivity].
Qed.

Lemma fits2_shape (v : Array matrix) (r c : nat) :
  fits2 v -> shape v = [r; c] -> has_shape r c (value v).
Proof.
  intros (r0 & c0 & Hs & Hv) E. rewrite Hs in E. injection E as <- <-.
  exact Hv.
Qed.

Lemma fits1_shape (v : Array vector) (n : nat) :
  fits1 v -> shape v = [n] -> List.length (value v) = n.
Proof.
  unfold fits1. intros Hs E. rewrite Hs in E. injection E as <-.
  reflexivity.
Qed.

Lemma well_shaped_after_build (self : VarLinear.t) (inputs : Tensor) (g : Rng)
  (y : matrix) (self' : VarLinear.t) (g' : Rng) :
  well_shaped_layer self ->
  VarLinear._build self inputs g = Ok (y, self', g') ->
  exists width,
    nth 1 (static_shape inputs) None = Some width /\
    has_shape (List.length (rows inputs)) (VarLinear.output_size self) y /\
    well_shaped_layer self' /\
    VarLinear.output_size self' = VarLinear.output_size self /\
    VarLinear._use_bias self' = VarLinear._use_bias self /\
    VarLinear.is_connected self' = VarLinear.is_connected self /\
    exists m r,
      VarLinear._w_mu self' = Some m /\ VarLinear._w_rho self' = Some r /\
      shape m = [width; VarLinear.output_size self] /\
      shape r = [width; VarLinear.output_size self].
Proof.
  intros [Hw Hbs] Hb. apply _build_inversion in Hb.
  destruct Hb as (width & w_mu & g1 & w_rho & g2 & Hwd & _ & _ & Hb).
  cbv zeta in Hb. destruct Hb as (E1 & E2 & Hb).
  apply get_variable_shape in E1. apply get_variable_shape in E2.
  destruct E1 as [S1 E1]. destruct E2 as [S2 E2].
  set (out := VarLinear.output_size self) in *.
  assert (Hfit : fits2 w_mu /\ fits2 w_rho).
  { destruct E1 as [E1 | [E1 ->]], E2 as [E2 | [E2 ->]];
      rewrite E1, E2 in Hw; try contradiction.
    - split; apply Hw.
    - split; exists width, out; (split; [reflexivity |]).
      + cbn [value fst mu_init_matrix]. apply has_shape_mmap.
        apply has_shape_stream_matrix.
      + cbn [value fst rho_init_matrix]. apply has_shape_repeat. }
  destruct Hfit as [Fm Fr].
  exists width. split; [exact Hwd |].
  destruct (VarLinear._use_bias self) eqn:Hub.
  - destruct Hb as (b_mu & g3 & b_rho & g4 & E3 & E4 & -> & _ & ->).
    apply get_variable_shape in E3. apply get_variable_shape in E4.
    destruct E3 as [S3 E3]. destruct E4 as [S4 E4].
    assert (Hfit : fits1 b_mu /\ fits1 b_rho).
    { destruct E3 as [E3 | [E3 ->]], E4 as [E4 | [E4 ->]];
        rewrite E3, E4 in Hbs; try contradiction.
      - split; apply Hbs.
      - unfold fits1. cbn [value shape fst mu_init_vector rho_init_vector].
        unfold stream_vector.
        rewrite !length_map, length_seq, repeat_length. split; reflexivity. }
    destruct Hfit as [Gm Gr].
    split.
    + apply add_bias_shape; [apply matmul_shape |].
      cbn [sample_vector fst]. unfold stream_vector.
      rewrite !length_zipWith, !length_map, length_seq.
      rewrite (fits1_shape Gm S3), (fits1_shape Gr S4). lia.
    + cbn. repeat split; try assumption; try congruence.
      exists w_mu, w_rho. repeat split; assumption.
  - destruct Hb as (-> & _ & ->).
    split; [apply matmul_shape |].
    cbn. repeat split; try assumption; try congruence.
    exists w_mu, w_rho. repeat split; assumption.
Qed.

(** X1.  A forward pass of a layer whose variables, if any, fit their shapes
    returns one output row per input row, each with [output_size] entries,
    and leaves a layer whose variables fit the shapes [width, output_size]
    and [output_size]. *)
Theorem layer_call_output_shape (self : VarLinear.t) (inputs : Tensor)
  (g : Rng) (y : matrix) (self' : VarLinear.t) (g' : Rng) :
  well_shaped_layer self ->
  VarLinear.__call__ self inputs g = Ok (y, self', g') ->
  exists width,
    nth 1 (static_shape inputs) None = Some width /\
    has_shape (List.length (rows inputs)) (VarLinear.output_size self) y /\
    well_shaped_layer self' /\
    exists m r,
      VarLinear._w_mu self' = Some m /\ VarLinear._w_rho self' = Some r /\
      shape m = [width; VarLinear.output_size self] /\
      shape r = [width; VarLinear.output_size self].
Proof.
  intros Hws. unfold VarLinear.__call__. intros H.
  destruct (VarLinear._build self inputs g) as [[[y0 s0] g0] |] eqn:Hb;
    [| discriminate].
  cbn [bind fst snd] in H. injection H as <- <- <-.
  destruct (@well_shaped_after_build self inputs g y0 s0 g0 Hws Hb)
    as (width & Hwd & Hy & Hs & _ & _ & _ & Hv).
  exists width. split; [exact Hwd |]. split; [exact Hy |].
  split; [exact Hs | exact Hv].
Qed.

Lemma layer_call_output_shape_witness :
  exists y self' g',
    VarLinear.__call__ fresh_layer one_example (constant_rng (Real 0) (Real 1))
    = Ok (y, self', g') /\
    has_shape 1 1 y.
Proof.
  destruct (fresh_layer_call_succeeds 1 standard_normal_prior true (Some 1%nat)
              2 [[Real 1; Real 2]] (constant_rng (Real 0) (Real 1)))
    as (y & l & g & E).
  change (VarLinear.__call__ fresh_layer one_example
            (constant_rng (Real 0) (Real 1)) = Ok (y, l, g)) in E.
  exists y, l, g. split; [exact E |].
  destruct (@layer_call_output_shape fresh_layer one_example
              (constant_rng (Real 0) (Real 1)) y l g)
    as (width & _ & Hy & _).
  - split; exact I.
  - exact E.
  - exact Hy.
Defined.

Lemma well_shaped_after_call (self : VarLinear.t) (inputs : Tensor) (g : Rng)
  (y : matrix) (self' : VarLinear.t) (g' : Rng) :
  well_shaped_layer self ->
  VarLinear.__call__ self inputs g = Ok (y, self', g') ->
  has_shape (List.length (rows inputs)) (VarLinear.output_size self) y /\
  well_shaped_layer self'.
Proof.
  intros Hws. unfold VarLinear.__call__. intros H.
  destruct (VarLinear._build self inputs g) as [[[y0 s0] g0] |] eqn:Hb;
    [| discriminate].
  cbn [bind fst snd] in H. injection H as <- <- <-.
  destruct (@well_shaped_after_build self inputs g y0 s0 g0 Hws Hb)
    as (width & _ & Hy & Hs & _).
  split; [exact Hy | exact Hs].
Qed.

Lemma well_shaped_new_layer (out : nat) (p : Distribution)
  (previous : option VarLinear.t) :
  (forall old, previous = Some old -> well_shaped_layer old) ->
  well_shaped_layer (VarEstimator.new_layer out p previous) /\
  VarLinear.output_size (VarEstimator.new_layer out p previous) = out.
Proof.
  intros H. destruct previous as [old |]; simpl.
  - split; [exact (H old eq_refl) | reflexivity].
  - split; [split; exact I | reflexivity].
Qed.

Lemma task_network_sizes (a : VarEstimator.architecture) :
  task_network a ->
  (exists n1 n2, VarEstimator.layer_sizes a = Ok (n1, n2, out_dim a)) /\
  forall t, VarEstimator.select_inputs a t = Ok t.
Proof.
  destruct a as [u | u | u | i wm ws bm bs]; intros H;
    try contradiction; (split; [exists u, u; reflexivity | reflexivity]).
Qed.

Lemma logits_shape_after_call (self : VarEstimator.t) (inputs : Tensor)
  (g : Rng) (y : matrix) (self' : VarEstimator.t) (g' : Rng) :
  task_network (VarEstimator.arch self) ->
  Forall well_shaped_layer (VarEstimator._layers self) ->
  VarEstimator.__call__ self inputs g = Ok (y, self', g') ->
  has_shape (List.length (rows inputs)) (out_dim (VarEstimator.arch self)) y /\
  Forall well_shaped_layer (VarEstimator._layers self') /\
  List.length (VarEstimator._layers self') = 3%nat.
Proof.
  intros Ha Hws. unfold VarEstimator.__call__, VarEstimator._build.
  intros H.
  assert (Hold : forall i old,
             nth_error (VarEstimator._layers self) i = Some old ->
             well_shaped_layer old).
  { intros i old Hi. rewrite Forall_forall in Hws.
    apply Hws. eapply nth_error_In. exact Hi. }
  destruct (task_network_sizes _ Ha) as ((n1 & n2 & Hs) & Hsel).
  rewrite Hs in H. cbn [bind fst snd] in H.
  unfold BatchFlatten in H.
  destruct (static_shape inputs) as [| batch rest]; [discriminate |].
  cbn [bind] in H. rewrite Hsel in H. cbn [bind] in H.
  destruct (VarLinear.__call__ (VarEstimator.new_layer n1 _ _) _ g)
    as [[[y1 l1] g1] |] eqn:E1; [| discriminate].
  cbn [bind fst snd] in H.
  destruct (VarLinear.__call__ (VarEstimator.new_layer n2 _ _) _ g1)
    as [[[y2 l2] g2] |] eqn:E2; [| discriminate].
  cbn [bind fst snd] in H.
  destruct (VarLinear.__call__ (VarEstimator.new_layer _ _ _) _ g2)
    as [[[y3 l3] g3] |] eqn:E3; [| discriminate].
  cbn [bind fst snd] in H. injection H as <- <- <-.
  apply well_shaped_after_call in E1;
    [| apply well_shaped_new_layer; eauto].
  apply well_shaped_after_call in E2;
    [| apply well_shaped_new_layer; eauto].
  apply well_shaped_after_call in E3;
    [| apply well_shaped_new_layer; eauto].
  destruct E1 as [[L1 _] W1]. destruct E2 as [[L2 _] W2].
  destruct E3 as [Y3 W3].
  rewrite (proj2 (@well_shaped_new_layer _ _ _
                    (fun old Hi => Hold 2%nat old Hi))) in Y3.
  unfold VarEstimator.hidden, mmap in Y3, L2.
  cbn [rows] in Y3, L2, L1. rewrite length_map in Y3, L2.
  rewrite L2, L1 in Y3.
  split; [exact Y3 |]. cbn. split; [| reflexivity].
  repeat (apply Forall_cons; [assumption |]). apply Forall_nil.
Qed.

(** X2.  A forward pass of a task network whose layers, if any, have
    variables that fit their shapes returns logits with one row per example
    of the batch and [out_dim] columns: 1 for the bandit and regression
    networks, 10 for the classifier.  It leaves three layers whose variables
    fit their shapes. *)
Theorem network_call_logits_shape (self : VarEstimator.t) (inputs : Tensor)
  (g : Rng) (y : matrix) (self' : VarEstimator.t) (g' : Rng) :
  task_network (VarEstimator.arch self) ->
  Forall well_shaped_layer (VarEstimator._layers self) ->
  VarEstimator.__call__ self inputs g = Ok (y, self', g') ->
  has_shape (List.length (rows inputs)) (out_dim (VarEstimator.arch self)) y /\
  Forall well_shaped_layer (VarEstimator._layers self') /\
  List.length (VarEstimator._layers self') = 3%nat.
Proof.
  apply logits_shape_after_call.
Qed.

Lemma network_call_logits_shape_witness :
  exists y self' g',
    VarEstimator.__call__ fresh_network one_example
                          (constant_rng (Real 0) (Real 1))
    = Ok (y, self', g') /\
    has_shape 1 10 y.
Proof.
  destruct (@network_first_call_succeeds (VarEstimator.VarMNIST 2)
              standard_normal_prior (Some 1%nat) [Some 2%nat] 2
              [[Real 1; Real 2]] (constant_rng (Real 0) (Real 1)))
    as (y & net & g & E).
  { discriminate. }
  { reflexivity. }
  change (VarEstimator.__call__ fresh_network one_example
            (constant_rng (Real 0) (Real 1)) = Ok (y, net, g)) in E.
  exists y, net, g. split; [exact E |].
  apply (@network_call_logits_shape fresh_network one_example
           (constant_rng (Real 0) (Real 1)) y net g).
  - exact I.
  - apply Forall_nil.
  - exact E.
Defined.

(** X3.  The first forward pass of a task network never raises when every
    dimension of the input after the batch dimension is known: it returns
    logits of shape [batch, out_dim] and leaves the network built. *)
Theorem first_forward_pass_returns_logits (a : VarEstimator.architecture)
  (p : Distribution) (batch : option nat) (rest : list (option nat))
  (width : nat) (x : matrix) (g : Rng) :
  task_network a ->
  prod_dims rest = Some width ->
  exists y self' g',
    VarEstimator.__call__ (VarEstimator.__init__ a p)
                          (mkTensor (batch :: rest) x) g
    = Ok (y, self', g') /\
    has_shape (List.length x) (out_dim a) y /\
    built_network self'.
Proof.
  intros Ha Hw.
  destruct (@network_first_call_succeeds a p batch rest width x g)
    as (y & net & g' & E).
  { intros i wm ws bm bs ->. exact Ha. }
  { exact Hw. }
  exists y, net, g'. split; [exact E |]. split.
  - apply (@logits_shape_after_call (VarEstimator.__init__ a p)
             (mkTensor (batch :: rest) x) g y net g').
    + exact Ha.
    + apply Forall_nil.
    + exact E.
  - apply call_builds_network in E; [apply E | apply Forall_nil].
Qed.

Lemma first_forward_pass_returns_logits_witness :
  exists y self' g',
    VarEstimator.__call__
      (VarEstimator.__init__ (VarEstimator.VarMushroomRL 3)
                             standard_normal_prior)
      (mkTensor [Some 4%nat; Some 5%nat] (repeat (repeat (Real 1) 5) 4))
      (constant_rng (Real 0) (Real 1))
    = Ok (y, self', g') /\
    has_shape 4 1 y /\
    built_network self'.
Proof.
  apply (@first_forward_pass_returns_logits (VarEstimator.VarMushroomRL 3)
           standard_normal_prior (Some 4%nat) [Some 5%nat] 5
           (repeat (repeat (Real 1) 5) 4) (constant_rng (Real 0) (Real 1))).
  - exact I.
  - reflexivity.
Defined.

(** ** Later forward passes *)

Lemma get_variable_existing {A : Type} (v : Array A) (shp : list nat)
  (initializer : Rng -> A * Rng) (g : Rng) :
  shape v = shp -> get_variable (Some v) shp initializer g = Ok (v, g).
Proof.
  intros E. unfold get_variable.
  destruct (list_eq_dec Nat.eq_dec shp (shape v)) as [_ | N];
    [reflexivity | congruence].
Qed.

(** X4.  After one forward pass of a layer, every later forward pass on a
    rank-2 batch of the same width succeeds, and it works on the same
    variables: means and raw scales are what they were before the pass. *)
Theorem later_forward_pass_reuses_parameters (self0 : VarLinear.t)
  (x0 : Tensor) (g0 : Rng) (y0 : matrix) (self1 : VarLinear.t) (g1 : Rng)
  (x : Tensor) (g : Rng) :
  VarLinear.__call__ self0 x0 g0 = Ok (y0, self1, g1) ->
  List.length (static_shape x) = 2%nat ->
  nth 1 (static_shape x) None = nth 1 (static_shape x0) None ->
  exists y self2 g2,
    VarLinear.__call__ self1 x g = Ok (y, self2, g2) /\
    VarLinear._w_mu self2 = VarLinear._w_mu self1 /\
    VarLinear._w_rho self2 = VarLinear._w_rho self1 /\
    VarLinear._b_mu self2 = VarLinear._b_mu self1 /\
    VarLinear._b_rho self2 = VarLinear._b_rho self1.
Proof.
  intros H0 Hrank Hwidth. unfold VarLinear.__call__ in H0.
  destruct (VarLinear._build self0 x0 g0) as [[[ya sa] ga] |] eqn:Hb;
    [| discriminate].
  cbn [bind fst snd] in H0. injection H0 as <- <- <-.
  apply _build_inversion in Hb.
  destruct Hb as (width & w_mu & ga1 & w_rho & ga2 & Hw0 & _ & _ & Hb).
  cbv zeta in Hb. destruct Hb as (E1 & E2 & Hb).
  apply get_variable_shape in E1. apply get_variable_shape in E2.
  destruct E1 as [S1 _]. destruct E2 as [S2 _].
  rewrite Hw0 in Hwidth.
  unfold VarLinear.__call__, VarLinear._build.
  destruct (VarLinear._use_bias self0) eqn:Hub.
  - destruct Hb as (b_mu & ga3 & b_rho & ga4 & E3 & E4 & _ & _ & ->).
    apply get_variable_shape in E3. apply get_variable_shape in E4.
    destruct E3 as [S3 _]. destruct E4 as [S4 _].
    rewrite Hrank, Hwidth.
    cbn [Nat.eqb negb VarLinear.width_changed VarLinear._input_shape
         VarLinear.set_connected VarLinear._w_mu VarLinear._w_rho
         VarLinear._b_mu VarLinear._b_rho VarLinear.output_size
         VarLinear._use_bias].
    rewrite Hw0. cbn [VarLinear.dim_eqb]. rewrite Nat.eqb_refl. cbn [negb].
    rewrite (@get_variable_existing _ _ _ _ _ S1). cbn [bind fst snd].
    rewrite (@get_variable_existing _ _ _ _ _ S2). cbn [bind fst snd].
    rewrite (@get_variable_existing _ _ _ _ _ S3). cbn [bind fst snd].
    rewrite (@get_variable_existing _ _ _ _ _ S4). cbn [bind fst snd].
    eexists. eexists. eexists. split; [reflexivity |].
    repeat split.
  - destruct Hb as (_ & _ & ->).
    rewrite Hrank, Hwidth.
    cbn [Nat.eqb negb VarLinear.width_changed VarLinear._input_shape
         VarLinear.set_connected VarLinear._w_mu VarLinear._w_rho
         VarLinear._b_mu VarLinear._b_rho VarLinear.output_size
         VarLinear._use_bias].
    rewrite Hw0. cbn [VarLinear.dim_eqb]. rewrite Nat.eqb_refl. cbn [negb].
    rewrite (@get_variable_existing _ _ _ _ _ S1). cbn [bind fst snd].
    rewrite (@get_variable_existing _ _ _ _ _ S2). cbn [bind fst snd].
    eexists. eexists. eexists. split; [reflexivity |].
    repeat split.
Qed.

Lemma later_forward_pass_reuses_parameters_witness :
  exists y self2 g2,
    VarLinear.__call__ called_layer one_example
                       (constant_rng (Real 0) (Real 1))
    = Ok (y, self2, g2) /\
    VarLinear._w_mu self2 = VarLinear._w_mu called_layer.
Proof.
  destruct (fresh_layer_call_succeeds 1 standard_normal_prior true (Some 1%nat)
              2 [[Real 1; Real 2]] (constant_rng (Real 0) (Real 1)))
    as (y & l & g & E).
  change (VarLinear.__call__ fresh_layer one_example
            (constant_rng (Real 0) (Real 1)) = Ok (y, l, g)) in E.
  unfold called_layer. rewrite E.
  destruct (@later_forward_pass_reuses_parameters fresh_layer one_example
              (constant_rng (Real 0) (Real 1)) y l g one_example
              (constant_rng (Real 0) (Real 1)) E eq_refl eq_refl)
    as (y2 & l2 & g2 & E2 & Hm & _).
  exists y2, l2, g2. split; assumption.
Defined.

(** ** Pruning a network *)

Lemma combine_pruned (snr : scalar) (mu rho : vector) :
  combine (zipWith (pruned_mean snr) mu rho) (zipWith (pruned_rho snr) mu rho)
  = map (prune_entry snr) (combine mu rho).
Proof.
  revert rho. induction mu as [| m mu IH]; intros [| r rho]; simpl;
    try reflexivity.
  rewrite IH. reflexivity.
Qed.

Lemma rows_pruned (snr : scalar) (mu rho : matrix) :
  List.concat (zipWith (@combine scalar scalar)
                       (mzip (pruned_mean snr) mu rho)
                       (mzip (pruned_rho snr) mu rho))
  = map (prune_entry snr)
        (List.concat (zipWith (@combine scalar scalar) mu rho)).
Proof.
  unfold mzip. revert rho.
  induction mu as [| m mu IH]; intros [| r rho]; simpl; try reflexivity.
  rewrite IH, combine_pruned, map_app. reflexivity.
Qed.

Lemma prune_layer_params (self self' : VarLinear.t) (snr : scalar) :
  built_layer self -> VarLinear._use_bias self = true ->
  VarLinear.prune_below_snr self snr = Ok self' ->
  layer_weight_params self'
  = map (prune_entry snr) (layer_weight_params self) /\
  layer_bias_params self' = map (prune_entry snr) (layer_bias_params self).
Proof.
  intros Hb Hu Hp.
  destruct (built_layer_fields Hb)
    as (Hc & (wm & wr & Hwm & Hwr) & _ & Hbias).
  destruct (Hbias Hu) as (bm & br & Hbm & Hbr).
  destruct self as [c ish ub out p nw nb owm owr obm obr kl].
  simpl in *. subst c owm owr obm obr ub.
  destruct (@prune_layer_result true ish true out p nw nb wm wr
              (Some bm) (Some br) kl snr) as (bm' & br' & E & Hbb).
  { intros _. split; discriminate. }
  cbn in Hbb. destruct Hbb as [-> ->].
  rewrite E in Hp. injection Hp as <-.
  unfold layer_weight_params, layer_bias_params.
  cbn [VarLinear._w_mu VarLinear._w_rho VarLinear._b_mu VarLinear._b_rho
       value assign].
  split; [apply rows_pruned | apply combine_pruned].
Qed.

Lemma mapM_Forall2 {A B : Type} (f : A -> result B) (l : list A)
  (l' : list B) :
  mapM f l = Ok l' -> Forall2 (fun a b => f a = Ok b) l l'.
Proof.
  revert l'. induction l as [| a l IH]; intros l' H; simpl in H.
  - injection H as <-. constructor.
  - destruct (f a) as [b |] eqn:E; [| discriminate]. cbn [bind] in H.
    destruct (mapM f l) as [bs |]; [| discriminate]. cbn [bind] in H.
    injection H as <-. constructor; [exact E | apply IH; reflexivity].
Qed.

(** X6.  Pruning a built network succeeds and prunes every parameter on its
    own, keeping their order and number.  Every parameter is either kept or
    pruned.  A kept parameter keeps its mean, and its raw scale is derived
    again from its scale, as softplus_inverse(softplus(raw scale)); a pruned
    parameter ends with mean 0 and raw scale -inf, hence scale 0 (NaN where
    it was not finite).  The network stays built, and its [kl_divergence]
    is not refreshed: it is still the value of the last forward pass. *)
Theorem network_prune_is_pointwise (self : VarEstimator.t) (snr : scalar) :
  built_network self ->
  exists self',
    VarEstimator.prune_below_snr self snr = Ok self' /\
    built_network self' /\
    parameters self' = map (prune_entry snr) (parameters self) /\
    VarEstimator.kl_divergence self' = VarEstimator.kl_divergence self /\
    (forall m rho : scalar,
        keep_mask snr m rho = Real 1 \/ keep_mask snr m rho = Real 0) /\
    (forall m rho : scalar,
        keep_mask snr m rho = Real 1 ->
        prune_entry snr (m, rho) = (m, softplus_inverse (softplus rho))) /\
    (forall m rho : scalar,
        keep_mask snr m rho = Real 0 ->
        (fst (prune_entry snr (m, rho)) = Real 0
         \/ fst (prune_entry snr (m, rho)) = NaN) /\
        dead_scale (snd (prune_entry snr (m, rho)))) /\
    (forall m rho : R,
        keep_mask snr (Real m) (Real rho) = Real 0 ->
        prune_entry snr (Real m, Real rho) = (Real 0, NInf)) /\
    mean_of (Real 0, NInf) = Real 0 /\ scale_of (Real 0, NInf) = Real 0.
Proof.
  intros Hb.
  destruct (@prune_keeps_network_built self snr Hb) as (self' & Hp & Hb' & Hk).
  exists self'. split; [exact Hp |]. split; [exact Hb' |].
  split; [| split; [exact Hk |]].
  - destruct Hb as (Hc & _ & Hl).
    unfold VarEstimator.prune_below_snr, VarEstimator._ensure_is_connected
      in Hp.
    rewrite Hc in Hp. cbn [bind] in Hp.
    destruct (mapM _ (VarEstimator._layers self)) as [layers' |] eqn:HM;
      [| discriminate].
    cbn [bind] in Hp. injection Hp as <-.
    apply mapM_Forall2 in HM.
    unfold parameters, VarEstimator.set_layers. cbn [VarEstimator._layers].
    rewrite map_app.
    assert (HW : forall ls ls',
               Forall (fun layer => built_layer layer
                                    /\ VarLinear._use_bias layer = true) ls ->
               Forall2 (fun l l' => VarLinear.prune_below_snr l snr = Ok l')
                       ls ls' ->
               List.concat (map layer_weight_params ls')
               = map (prune_entry snr)
                     (List.concat (map layer_weight_params ls)) /\
               List.concat (map layer_bias_params ls')
               = map (prune_entry snr)
                     (List.concat (map layer_bias_params ls))).
    { intros ls ls' HF H2. induction H2 as [| l l' ls ls' Hl1 _ IH]; simpl.
      - split; reflexivity.
      - inversion HF as [| ? ? [Hbl Hul] HF']; subst.
        destruct (IH HF') as [IW IB].
        destruct (@prune_layer_params l l' snr Hbl Hul Hl1) as [EW EB].
        rewrite !map_app, IW, IB, EW, EB. split; reflexivity. }
    destruct (HW _ _ Hl HM) as [EW EB]. rewrite EW, EB. reflexivity.
  - split; [intros m rho; apply keep_mask_cases |].
    split.
    { intros m rho K. unfold prune_entry. cbn [fst snd].
      destruct (kept_entry _ _ _ K) as [-> ->]. reflexivity. }
    split.
    { intros m rho K. unfold prune_entry. cbn [fst snd].
      apply pruned_entry. exact K. }
    split.
    { intros m rho K. unfold prune_entry, pruned_mean, pruned_rho.
      cbn [fst snd]. rewrite K, softplus_Real. cbn [fmul]. f_equal.
      - apply Real_ext. lra.
      - rewrite <- softplus_inverse_0. f_equal. apply Real_ext. lra. }
    split; [reflexivity | apply softplus_NInf].
Qed.

Lemma network_prune_is_pointwise_witness :
  exists self',
    VarEstimator.prune_below_snr called_network (Real 0) = Ok self' /\
    parameters self' = map (prune_entry (Real 0)) (parameters called_network).
Proof.
  destruct (@network_prune_is_pointwise called_network (Real 0)
              built_called_network)
    as (self' & Hp & _ & Hpar & _).
  exists self'. split; assumption.
Defined.

(** ** The KL estimate of a posterior that sits on the prior *)

Lemma reduce_sum_vector_zero (v : vector) :
  Forall (fun x => x = Real 0) v -> reduce_sum_vector v = Real 0.
Proof.
  unfold reduce_sum_vector. generalize (Real 0) at 2 3 as acc.
  intros acc H. revert acc.
  induction H as [| x v Hx _ IH]; intros acc; simpl.
  - reflexivity.
  - subst x. rewrite IH. destruct acc; simpl; try reflexivity.
    apply Real_ext. lra.
Qed.

Lemma kl_vector_zero (m0 r0 : R) (mu rho eps : vector) :
  Forall (fun e => e = Real m0) mu ->
  Forall (fun e => e = Real r0) rho ->
  Forall finite eps ->
  Forall (fun x => x = Real 0)
    (zipWith fsub
       (log_prob_vector mu (map softplus rho)
          (zipWith fadd mu (zipWith fmul (map softplus rho) eps)))
       (map (log_prob (NormalDist (mkNormal (Real m0) (softplus (Real r0)))))
            (zipWith fadd mu (zipWith fmul (map softplus rho) eps)))).
Proof.
  intros Hmu. revert rho eps.
  induction Hmu as [| m mu Hm _ IH]; intros rho eps Hrho Heps.
  - constructor.
  - destruct Hrho as [| r rho Hr Hrho]; [constructor |].
    destruct Heps as [| e eps [v He] Heps]; [constructor |].
    subst m r e. cbn [map zipWith].
    unfold log_prob_vector, zipWith3. cbn [combine zipWith fst snd].
    constructor.
    + cbn [log_prob]. rewrite softplus_Real. cbn [fmul fadd].
      rewrite Normal_log_prob_finite by apply softplus_Real_pos.
      unfold fsub. cbn [fneg fadd]. apply Real_ext. lra.
    + apply (IH rho eps Hrho Heps).
Qed.

Lemma kl_matrix_zero (m0 r0 : R) (mu rho eps : matrix) :
  Forall (Forall (fun e => e = Real m0)) mu ->
  Forall (Forall (fun e => e = Real r0)) rho ->
  Forall (Forall finite) eps ->
  reduce_sum
    (mzip fsub
       (log_prob_matrix mu (mmap softplus rho)
          (mzip fadd mu (mzip fmul (mmap softplus rho) eps)))
       (mmap (log_prob (NormalDist (mkNormal (Real m0) (softplus (Real r0)))))
             (mzip fadd mu (mzip fmul (mmap softplus rho) eps))))
  = Real 0.
Proof.
  intros Hmu Hrho Heps. unfold reduce_sum, flatten.
  apply reduce_sum_vector_zero. apply Forall_concat.
  revert rho eps Hrho Heps.
  induction Hmu as [| m mu Hm _ IH]; intros rho eps Hrho Heps.
  - constructor.
  - destruct Hrho as [| r rho Hr Hrho]; [constructor |].
    destruct Heps as [| e eps He Heps]; [constructor |].
    unfold mzip, mmap, log_prob_matrix, zipWith3.
    cbn [map zipWith combine fst snd].
    constructor.
    + apply kl_vector_zero; assumption.
    + apply (IH rho eps Hrho Heps).
Qed.

Lemma finite_stream_vector (s : nat -> scalar) (pos n : nat) :
  (forall i, finite (s i)) -> Forall finite (stream_vector s pos n).
Proof.
  intros H. unfold stream_vector. apply Forall_forall. intros x Hx.
  apply in_map_iff in Hx. destruct Hx as (i & <- & _). apply H.
Qed.

Lemma finite_stream_matrix (s : nat -> scalar) (pos r c : nat) :
  (forall i, finite (s i)) -> Forall (Forall finite) (stream_matrix s pos r c).
Proof.
  intros H. unfold stream_matrix. apply Forall_forall. intros x Hx.
  apply in_map_iff in Hx. destruct Hx as (i & <- & _).
  apply finite_stream_vector. exact H.
Qed.

(** X7.  When every weight and bias of a layer has the mean and the scale
    of its Gaussian prior, the one-sample KL estimate of a forward pass is
    exactly 0 whatever finite noise is drawn: the posterior and the prior
    log-densities are evaluated at the same sample and cancel entry by
    entry. *)
Theorem kl_is_zero_at_the_prior (m0 r0 : R) (self : VarLinear.t)
  (inputs : Tensor) (g : Rng) (y : matrix) (self' : VarLinear.t) (g' : Rng) :
  at_prior m0 r0 self ->
  (forall i, finite (normal_stream g i)) ->
  VarLinear.__call__ self inputs g = Ok (y, self', g') ->
  VarLinear.kl_divergence self' = Ok (Real 0).
Proof.
  intros (Hprior & (wm & wr & Hwm & Hwr & Fm & Fr) & Hbias) Hfin.
  unfold VarLinear.__call__. intros H.
  destruct (VarLinear._build self inputs g) as [[[y0 s0] g0] |] eqn:Hb;
    [| discriminate].
  cbn [bind fst snd] in H. injection H as <- <- <-.
  apply _build_inversion in Hb.
  destruct Hb as (width & w_mu & g1 & w_rho & g2 & _ & _ & _ & Hb).
  cbv zeta in Hb. destruct Hb as (E1 & E2 & Hb).
  pose proof (@get_variable_noise _ _ _ _ _ _ _ (mu_init_matrix_noise _ _) E1)
    as (S1 & _ & _).
  pose proof (@get_variable_noise _ _ _ _ _ _ _ (rho_init_matrix_noise _ _) E2)
    as (S2 & _ & _).
  apply get_variable_cases in E1. apply get_variable_cases in E2.
  rewrite Hwm in E1. rewrite Hwr in E2.
  destruct E1 as [E1 | [E1 _]]; [| discriminate].
  destruct E2 as [E2 | [E2 _]]; [| discriminate].
  injection E1 as <-. injection E2 as <-.
  assert (Hs2 : forall i, finite (normal_stream g2 i)).
  { intros i. rewrite S2, S1. apply Hfin. }
  assert (Kw : reduce_sum
                 (mzip fsub
                    (log_prob_matrix (value wm) (mmap softplus (value wr))
                       (fst (sample_matrix (value wm)
                               (mmap softplus (value wr)) width
                               (VarLinear.output_size self) g2)))
                    (mmap (log_prob (VarLinear.prior self))
                       (fst (sample_matrix (value wm)
                               (mmap softplus (value wr)) width
                               (VarLinear.output_size self) g2))))
               = Real 0).
  { rewrite Hprior. cbn [sample_matrix fst].
    apply kl_matrix_zero; try assumption.
    apply finite_stream_matrix. exact Hs2. }
  unfold VarLinear.kl_divergence, VarLinear._ensure_is_connected.
  destruct (VarLinear._use_bias self) eqn:Hub.
  - destruct Hb as (b_mu & g3 & b_rho & g4 & E3 & E4 & _ & _ & ->).
    destruct (Hbias eq_refl) as (bm & br & Hbm & Hbr & Gm & Gr).
    pose proof (@get_variable_noise _ _ _ _ _ _ _ (mu_init_vector_noise _) E3)
      as (S3 & _ & _).
    pose proof (@get_variable_noise _ _ _ _ _ _ _ (rho_init_vector_noise _) E4)
      as (S4 & _ & _).
    apply get_variable_cases in E3. apply get_variable_cases in E4.
    rewrite Hbm in E3. rewrite Hbr in E4.
    destruct E3 as [E3 | [E3 _]]; [| discriminate].
    destruct E4 as [E4 | [E4 _]]; [| discriminate].
    injection E3 as <-. injection E4 as <-.
    cbn [VarLinear.set_connected VarLinear.is_connected
         VarLinear._kl_divergence bind attr].
    rewrite Kw.
    assert (Kb : reduce_sum_vector
                   (zipWith fsub
                      (log_prob_vector (value bm) (map softplus (value br))
                         (fst (sample_vector (value bm)
                                 (map softplus (value br))
                                 (VarLinear.output_size self) g4)))
                      (map (log_prob (VarLinear.prior self))
                         (fst (sample_vector (value bm)
                                 (map softplus (value br))
                                 (VarLinear.output_size self) g4))))
                 = Real 0).
    { rewrite Hprior. cbn [sample_vector fst].
      apply reduce_sum_vector_zero. apply kl_vector_zero; try assumption.
      apply finite_stream_vector. intros i. rewrite S4, S3.
      cbn [sample_matrix snd after_sample normal_stream]. apply Hs2. }
    rewrite Kb. cbn [fadd]. f_equal. apply Real_ext. lra.
  - destruct Hb as (_ & _ & ->).
    cbn [VarLinear.set_connected VarLinear.is_connected
         VarLinear._kl_divergence bind attr].
    rewrite Kw. reflexivity.
Qed.

Lemma kl_is_zero_at_the_prior_witness :
  exists y self' g',
    VarLinear.__call__ prior_layer one_feature
                       (constant_rng (Real 2) (Real 0))
    = Ok (y, self', g') /\
    VarLinear.kl_divergence self' = Ok (Real 0).
Proof.
  eexists. eexists. eexists. split; [reflexivity |].
  eapply (@kl_is_zero_at_the_prior 0 0 prior_layer one_feature
            (constant_rng (Real 2) (Real 0))).
  - split; [reflexivity |]. split.
    + eexists. eexists. split; [reflexivity |]. split; [reflexivity |].
      split; repeat constructor.
    + intros H. discriminate H.
  - intros i. exists 2%R. reflexivity.
  - reflexivity.
Defined.

(** ** A layer without bias *)

(** X8.  A layer made with [use_bias=False] draws one sample per forward
    pass, and never gets bias attributes: after a forward pass [b_mu],
    [b_rho] and [b_sigma] raise [AttributeError], not the not-connected
    error, while [prune_below_snr] succeeds and prunes the weights only. *)
Theorem bias_free_layer_has_no_bias (out : nat) (p : Distribution)
  (inputs : Tensor) (g : Rng) (y : matrix) (self' : VarLinear.t) (g' : Rng)
  (snr : scalar) :
  VarLinear.__call__ (VarLinear.__init__ out p false) inputs g
  = Ok (y, self', g') ->
  VarLinear.b_mu self' = Raise (AttributeError "_b_mu") /\
  VarLinear.b_rho self' = Raise (AttributeError "_b_rho") /\
  VarLinear.b_sigma self' = Raise (AttributeError "_b_rho") /\
  sample_calls g' = S (sample_calls g) /\
  exists pruned w_mu w_rho,
    VarLinear._w_mu self' = Some w_mu /\
    VarLinear._w_rho self' = Some w_rho /\
    VarLinear.prune_below_snr self' snr = Ok pruned /\
    VarLinear._w_mu pruned
    = Some (assign w_mu
              (mzip (pruned_mean snr) (value w_mu) (value w_rho))) /\
    VarLinear._b_mu pruned = None /\ VarLinear._b_rho pruned = None.
Proof.
  unfold VarLinear.__call__. intros H.
  destruct (VarLinear._build _ inputs g) as [[[y0 s0] g0] |] eqn:Hb;
    [| discriminate].
  cbn [bind fst snd] in H. injection H as <- <- <-.
  apply _build_inversion in Hb.
  destruct Hb as (width & w_mu & g1 & w_rho & g2 & _ & _ & _ & Hb).
  cbv zeta in Hb. destruct Hb as (E1 & E2 & Hb).
  apply get_variable_noise in E1; [| apply mu_init_matrix_noise].
  apply get_variable_noise in E2; [| apply rho_init_matrix_noise].
  destruct E1 as (_ & _ & C1). destruct E2 as (_ & _ & C2).
  cbn [VarLinear._use_bias VarLinear.__init__] in Hb.
  destruct Hb as (_ & -> & ->).
  split; [reflexivity |]. split; [reflexivity |]. split; [reflexivity |].
  split.
  - cbn [sample_matrix snd after_sample sample_calls]. congruence.
  - destruct (@prune_layer_result true (Some (static_shape inputs)) false out
                p (Some (width * out)%nat) None w_mu w_rho None None
                (Some (reduce_sum
                   (mzip fsub
                      (log_prob_matrix (value w_mu)
                         (mmap softplus (value w_rho))
                         (fst (sample_matrix (value w_mu)
                                 (mmap softplus (value w_rho)) width out g2)))
                      (mmap (log_prob p)
                         (fst (sample_matrix (value w_mu)
                                 (mmap softplus (value w_rho)) width out
                                 g2)))))) snr)
      as (bm' & br' & Hp & Hbb).
    { discriminate. }
    cbn in Hbb. destruct Hbb as [-> ->].
    eexists. exists w_mu, w_rho.
    split; [reflexivity |]. split; [reflexivity |].
    split; [exact Hp |]. repeat split.
Qed.

Lemma bias_free_layer_has_no_bias_witness :
  exists y self' g',
    VarLinear.__call__ (VarLinear.__init__ 1 standard_normal_prior false)
                       batch_4_5 (constant_rng (Real 0) (Real 1))
    = Ok (y, self', g') /\
    VarLinear.b_mu self' = Raise (AttributeError "_b_mu").
Proof.
  destruct (fresh_layer_call_succeeds 1 standard_normal_prior false
              (Some 4%nat) 5 (repeat (repeat (Real 1) 5) 4)
              (constant_rng (Real 0) (Real 1)))
    as (y & l & g & E).
  change (VarLinear.__call__ (VarLinear.__init__ 1 standard_normal_prior false)
            batch_4_5 (constant_rng (Real 0) (Real 1)) = Ok (y, l, g)) in E.
  exists y, l, g. split; [exact E |].
  apply (@bias_free_layer_has_no_bias 1 standard_normal_prior batch_4_5
           (constant_rng (Real 0) (Real 1)) y l g (Real 0) E).
Defined.

(** ** Transplanting the stored parameters into a reduced network *)

Lemma tf_assign_same_shape {A : Type} (ref new : Array A) :
  shape ref = shape new -> ReducedVarMNIST.tf_assign ref new = Ok new.
Proof.
  intros H. unfold ReducedVarMNIST.tf_assign, assign.
  destruct (list_eq_dec Nat.eq_dec (shape ref) (shape new)) as [_ | N];
    [| contradiction].
  rewrite H. destruct new; reflexivity.
Qed.

Lemma assign_layer_reads_back (w_mus w_sigmas : list (Array matrix))
  (b_mus b_sigmas : list (Array vector)) (i : nat) (layer : VarLinear.t)
  (wm ws : Array matrix) (bm bs : Array vector) :
  nth_error w_mus i = Some wm -> nth_error w_sigmas i = Some ws ->
  nth_error b_mus i = Some bm -> nth_error b_sigmas i = Some bs ->
  receives layer wm ws bm bs ->
  exists layer',
    ReducedVarMNIST.assign_layer w_mus w_sigmas b_mus b_sigmas i layer
    = Ok layer' /\
    reads_back layer' wm ws bm bs /\
    VarLinear.kl_divergence layer' = VarLinear.kl_divergence layer.
Proof.
  intros E1 E2 E3 E4 (Hc & w_mu & w_rho & b_mu & b_rho & F1 & F2 & F3
                      & F4 & H1 & H2 & H3 & H4).
  destruct layer as [c ish ub out p nw nb m r bm0 br0 kl].
  cbn [VarLinear.is_connected VarLinear._w_mu VarLinear._w_rho
       VarLinear._b_mu VarLinear._b_rho] in Hc, F1, F2, F3, F4.
  subst c m r bm0 br0.
  unfold ReducedVarMNIST.assign_layer, VarLinear.w_mu, VarLinear.w_rho,
    VarLinear.b_mu, VarLinear.b_rho, VarLinear._ensure_is_connected, index.
  rewrite E1, E2, E3, E4.
  cbn [VarLinear.is_connected VarLinear._w_mu VarLinear._w_rho
       VarLinear._b_mu VarLinear._b_rho attr bind VarLinear.set_w_mu
       VarLinear.set_w_rho VarLinear.set_b_mu VarLinear.set_b_rho
       VarLinear._input_shape VarLinear._use_bias VarLinear.output_size
       VarLinear.prior VarLinear._num_weights VarLinear._num_biases
       VarLinear._kl_divergence].
  rewrite (tf_assign_same_shape w_mu wm H1).
  cbn [bind VarLinear.is_connected VarLinear._w_mu VarLinear._w_rho
       VarLinear._b_mu VarLinear._b_rho attr].
  rewrite (tf_assign_same_shape b_mu bm H3).
  cbn [bind VarLinear.is_connected VarLinear._w_mu VarLinear._w_rho
       VarLinear._b_mu VarLinear._b_rho attr].
  rewrite (@tf_assign_same_shape matrix w_rho
             (mkArray (shape ws) (mmap softplus_inverse (value ws))) H2).
  cbn [bind VarLinear.is_connected VarLinear._w_mu VarLinear._w_rho
       VarLinear._b_mu VarLinear._b_rho attr].
  rewrite (@tf_assign_same_shape vector b_rho
             (mkArray (shape bs) (map softplus_inverse (value bs))) H4).
  eexists. split; [reflexivity |]. split; [| reflexivity].
  unfold reads_back, VarLinear.w_mu, VarLinear.w_rho, VarLinear.b_mu,
    VarLinear.b_rho, VarLinear._ensure_is_connected.
  cbn [VarLinear.is_connected VarLinear._w_mu VarLinear._w_rho
       VarLinear._b_mu VarLinear._b_rho attr bind VarLinear.set_b_rho
       VarLinear.set_w_mu VarLinear.set_w_rho VarLinear.set_b_mu].
  repeat split.
Qed.

Lemma assign_layers_read_back (a : VarEstimator.architecture)
  (w_mus w_sigmas : list (Array matrix)) (b_mus b_sigmas : list (Array vector))
  (idx : list Z) :
  a = VarEstimator.ReducedVarMNIST idx w_mus w_sigmas b_mus b_sigmas ->
  forall (layers : list VarLinear.t) (i : nat),
    (forall k layer,
        nth_error layers k = Some layer ->
        exists wm ws bm bs,
          stored a (i + k) wm ws bm bs /\ receives layer wm ws bm bs) ->
    exists layers',
      mapM (fun il => ReducedVarMNIST.assign_layer w_mus w_sigmas b_mus
                        b_sigmas (fst il) (snd il))
           (ReducedVarMNIST.enumerate_from i layers) = Ok layers' /\
      List.length layers' = List.length layers /\
      forall k layer',
        nth_error layers' k = Some layer' ->
        exists layer wm ws bm bs,
          nth_error layers k = Some layer /\
          stored a (i + k) wm ws bm bs /\
          reads_back layer' wm ws bm bs /\
          VarLinear.kl_divergence layer' = VarLinear.kl_divergence layer.
Proof.
  intros ->. induction layers as [| layer layers IH]; intros i H.
  - exists []. split; [reflexivity |]. split; [reflexivity |].
    intros [| k] l' E; discriminate.
  - destruct (H 0%nat layer eq_refl) as (wm & ws & bm & bs & Hs & Hr).
    pose proof Hs as Hs0.
    cbn [stored] in Hs. rewrite Nat.add_0_r in Hs.
    destruct Hs as (E1 & E2 & E3 & E4).
    destruct (@assign_layer_reads_back w_mus w_sigmas b_mus b_sigmas i layer
                wm ws bm bs E1 E2 E3 E4 Hr)
      as (layer' & El & Hb & Hk).
    destruct (IH (S i)) as (layers' & Em & Hlen & Hall).
    { intros k l E. destruct (H (S k) l E) as (wm' & ws' & bm' & bs' & Hs' & Hr').
      exists wm', ws', bm', bs'. split; [| exact Hr'].
      replace (S i + k)%nat with (i + S k)%nat by lia. exact Hs'. }
    exists (layer' :: layers').
    cbn [ReducedVarMNIST.enumerate_from mapM fst snd].
    rewrite El. cbn [bind]. rewrite Em. cbn [bind].
    split; [reflexivity |]. split; [cbn [List.length]; congruence |].
    intros [| k] l' E.
    + injection E as <-. exists layer, wm, ws, bm, bs.
      split; [reflexivity |]. split; [exact Hs0 |]. split; assumption.
    + destruct (Hall k l' E) as (l & wm' & ws' & bm' & bs' & En & Hs' & Hb' & Hk').
      exists l, wm', ws', bm', bs'. split; [exact En |].
      split; [| split; assumption].
      replace (i + S k)%nat with (S i + k)%nat by lia. exact Hs'.
Qed.

(** X9.  [assign_params] of a reduced network whose layers are connected
    and hold variables of the shapes of the stored arrays succeeds, and
    afterwards every layer holds the stored arrays: [w_mu] and [b_mu] are
    the stored means as they are, and [w_rho] and [b_rho] are the softplus
    inverse of the stored scales, in the shapes of the stored arrays.  The
    KL term of each layer is left as the last forward pass computed it. *)
Theorem assign_params_assigns_the_stored_arrays (self : VarEstimator.t) :
  VarEstimator._layers self <> [] ->
  (forall k layer,
      nth_error (VarEstimator._layers self) k = Some layer ->
      exists wm ws bm bs,
        stored (VarEstimator.arch self) k wm ws bm bs /\
        receives layer wm ws bm bs) ->
  exists self',
    ReducedVarMNIST.assign_params self = Ok self' /\
    VarEstimator.arch self' = VarEstimator.arch self /\
    List.length (VarEstimator._layers self')
    = List.length (VarEstimator._layers self) /\
    forall k layer',
      nth_error (VarEstimator._layers self') k = Some layer' ->
      exists layer wm ws bm bs,
        nth_error (VarEstimator._layers self) k = Some layer /\
        stored (VarEstimator.arch self) k wm ws bm bs /\
        reads_back layer' wm ws bm bs /\
        VarLinear.kl_divergence layer' = VarLinear.kl_divergence layer.
Proof.
  intros Hne H.
  destruct (VarEstimator.arch self) as [u | u | u | idx wms wss bms bss] eqn:Ea.
  1-3: destruct (VarEstimator._layers self) as [| l ls]; [contradiction |];
    destruct (H 0%nat l eq_refl) as (? & ? & ? & ? & [] & _).
  destruct (@assign_layers_read_back
              (VarEstimator.ReducedVarMNIST idx wms wss bms bss)
              wms wss bms bss idx eq_refl (VarEstimator._layers self) 0 H)
    as (layers' & Em & Hlen & Hall).
  exists (VarEstimator.set_layers self layers').
  unfold ReducedVarMNIST.assign_params, ReducedVarMNIST.enumerate.
  rewrite Ea, Em. cbn [bind].
  split; [reflexivity |]. split; [exact Ea |]. split; [exact Hlen |].
  exact Hall.
Qed.

Lemma assign_params_assigns_the_stored_arrays_witness :
  exists self',
    ReducedVarMNIST.assign_params transplant_network = Ok self' /\
    List.length (VarEstimator._layers self') = 3%nat.
Proof.
  destruct (@assign_params_assigns_the_stored_arrays transplant_network)
    as (self' & E & _ & Hlen & _).
  - discriminate.
  - intros [| [| [| k]]] layer E; cbn in E;
      [injection E as <- .. | destruct k; discriminate].
    + exists (stored_matrix 1 (Real 2)), (stored_matrix 1 (Real 1)),
        (stored_vector 1 (Real 3)), (stored_vector 1 (Real 1)).
      split.
      * cbn. repeat split.
      * split; [reflexivity |]. do 4 eexists. repeat split.
    + exists (stored_matrix 1 (Real 2)), (stored_matrix 1 (Real 1)),
        (stored_vector 1 (Real 3)), (stored_vector 1 (Real 1)).
      split.
      * cbn. repeat split.
      * split; [reflexivity |]. do 4 eexists. repeat split.
    + exists (stored_matrix 10 (Real 2)), (stored_matrix 10 (Real 1)),
        (stored_vector 10 (Real 3)), (stored_vector 10 (Real 1)).
      split.
      * cbn. repeat split.
      * split; [reflexivity |]. do 4 eexists. repeat split.
  - exists self'. split; [exact E | exact Hlen].
Defined.

(** X10.  The reduced network that [compress] hands back has no layers
    yet: [assign_params] on it, before a forward pass, raises nothing and
    assigns nothing (the network is returned as it was), and its parameter
    vectors are still unreadable. *)
Theorem assign_params_before_forward_assigns_nothing
  (eliminate_dead_neurons :
     list (Array matrix) -> list (Array matrix) ->
     list (Array vector) -> list (Array vector) -> list activation ->
     option (list Z * list (Array matrix) * list (Array matrix)
             * list (Array vector) * list (Array vector)))
  (self reduced self' : VarEstimator.t) :
  VarEstimator.compress eliminate_dead_neurons self
  = Ok (VarEstimator.Module_ reduced, self') ->
  ReducedVarMNIST.assign_params reduced = Ok reduced /\
  VarEstimator._layers reduced = [] /\
  VarEstimator.mu_vector reduced = Raise NotConnectedError /\
  VarEstimator.sigma_vector reduced = Raise NotConnectedError.
Proof.
  unfold VarEstimator.compress. intros H.
  destruct (mapM VarLinear.w_mu _) as [wm |]; [| discriminate].
  destruct (mapM VarLinear.w_sigma _) as [ws |]; [| discriminate].
  destruct (mapM VarLinear.b_mu _) as [bm |]; [| discriminate].
  destruct (mapM VarLinear.b_sigma _) as [bs |]; [| discriminate].
  cbn [bind] in H.
  destruct (eliminate_dead_neurons wm ws bm bs _)
    as [[[[[i wm'] ws'] bm'] bs'] |]; [| discriminate].
  injection H as <- _. repeat split.
Qed.

Lemma assign_params_before_forward_assigns_nothing_witness :
  exists reduced,
    VarEstimator.compress keep_everything called_network
    = Ok (VarEstimator.Module_ reduced, called_network) /\
    ReducedVarMNIST.assign_params reduced = Ok reduced.
Proof.
  destruct (compress_of_built_network keep_everything built_called_network)
    as (wm & ws & bm & bs & _ & _ & _ & _ & E).
  remember (VarEstimator.compress keep_everything called_network) as c.
  unfold keep_everything in E. subst c.
  eexists. split; [exact E |].
  eapply (@assign_params_before_forward_assigns_nothing keep_everything
            called_network _ called_network E).
Defined.

(** ** The Gaussian likelihood term *)

Lemma fold_left_fadd_Real (rs : list R) (a : R) :
  fold_left fadd (map Real rs) (Real a) = Real (a + Rsum rs).
Proof.
  revert a. induction rs as [| r rs IH]; intros a; cbn [map fold_left Rsum
                                                          fold_right].
  - apply Real_ext. lra.
  - cbn [fadd]. rewrite IH. apply Real_ext. unfold Rsum. lra.
Qed.

Lemma weighted_squares_Real (ps ys : list R) :
  map (fun l => fmul l (Real 1))
      (zipWith (fun p y => fsquare (fsub p y)) (map Real ps) (map Real ys))
  = map Real (zipWith (fun p y => ((p - y) * (p - y))%R) ps ys).
Proof.
  revert ys. induction ps as [| p ps IH]; intros [| y ys];
    cbn [map zipWith]; try reflexivity.
  rewrite IH. f_equal. unfold fsquare, fsub. cbn [fneg fadd fmul].
  apply Real_ext. lra.
Qed.


Lemma Rsum_gaussian_nll (sd : R) (ps ys : list R) :
  (0 < sd)%R -> List.length ys = List.length ps ->
  Rsum (zipWith (gaussian_nll sd) ps ys)
  = (Rsum (zipWith (fun p y => ((p - y) * (p - y))%R) ps ys) / (2 * (sd * sd))
     + INR (List.length ps) * (ln sd + ln (2 * PI) / 2))%R.
Proof.
  intros Hs. revert ys. induction ps as [| p ps IH]; intros [| y ys] H;
    try discriminate.
  - cbn. lra.
  - cbn [zipWith Rsum fold_right List.length]. rewrite S_INR.
    fold (Rsum (zipWith (gaussian_nll sd) ps ys)).
    fold (Rsum (zipWith (fun p y => ((p - y) * (p - y))%R) ps ys)).
    rewrite IH by (cbn in H; congruence).
    unfold gaussian_nll at 1. rewrite ln_normal_pdf by exact Hs.
    field. lra.
Qed.

Lemma neg_log_prob_with_gaussian_finite
  (predictions : matrix) (labels : Array vector) (sd : R) (ps ys : list R) :
  (0 < sd)%R ->
  flatten predictions = map Real ps ->
  value labels = map Real ys ->
  shape labels = [List.length ps; 1%nat] ->
  List.length ys = List.length ps ->
  neg_log_prob_with_gaussian predictions labels (Real sd)
  = Ok (Real ((if Nat.eqb (List.length ps) 0 then 0%R
               else Rsum (zipWith (fun p y => ((p - y) * (p - y))%R) ps ys)
                    / INR (List.length ps))
              / (2 * (sd * sd)) + ln sd)).
Proof.
  intros Hs Hp Hy Hsh Hlen.
  unfold neg_log_prob_with_gaussian, mean_squared_error.
  cbv zeta. cbn [shape value]. rewrite Hp, Hy, Hsh, length_map.
  destruct (list_eq_dec Nat.eq_dec _ _) as [_ | N]; [| contradiction].
  rewrite weighted_squares_Real.
  rewrite length_zipWith, !length_map, Hlen, Nat.min_id.
  assert (H2 : (0 < 2 * (sd * sd))%R) by nra.
  destruct (Nat.eqb_spec (List.length ps) 0) as [E | E].
  - cbn [bind]. unfold fsquare. cbn [fmul].
    rewrite (fdiv_Real_pos _ H2), (flog_Real_pos Hs). reflexivity.
  - assert (Hn : (0 < INR (List.length ps))%R) by (apply lt_0_INR; lia).
    unfold reduce_sum_vector. rewrite fold_left_fadd_Real.
    cbn [bind]. rewrite (fdiv_Real_pos _ Hn).
    unfold fsquare. cbn [fmul].
    rewrite (fdiv_Real_pos _ H2), (flog_Real_pos Hs). cbn [fadd].
    f_equal. apply Real_ext. f_equal. f_equal. f_equal. lra.
Qed.




(** X11.  For predictions and labels of magnitude at most 2^20, one label
    per prediction given as a column, and [sigma] between 2^-20 and 2^20,
    the Gaussian likelihood term is finite: it is the negative log-density
    of the labels under Normal(prediction, sigma) averaged over the batch
    (not summed), less the constant ln(2 pi)/2. *)
Theorem gaussian_likelihood_is_mean_negative_log_density
  (predictions : matrix) (labels : Array vector) (sd : R) (ps ys : list R) :
  moderate_scale sd ->
  Forall moderate ps -> Forall moderate ys ->
  flatten predictions = map Real ps ->
  value labels = map Real ys ->
  shape labels = [List.length ps; 1%nat] ->
  List.length ys = List.length ps ->
  ps <> [] ->
  neg_log_prob_with_gaussian predictions labels (Real sd)
  = Ok (Real (Rsum (zipWith (gaussian_nll sd) ps ys) / INR (List.length ps)
              - ln (2 * PI) / 2)).
Proof.
  intros [Hsd _] _ _ Hp Hy Hsh Hlen Hne.
  assert (Hs : (0 < sd)%R) by lra.
  rewrite (@neg_log_prob_with_gaussian_finite predictions labels sd ps ys
             Hs Hp Hy Hsh Hlen).
  assert (Hn : (0 < INR (List.length ps))%R).
  { apply lt_0_INR. destruct ps; [contradiction | cbn; lia]. }
  destruct (Nat.eqb_spec (List.length ps) 0) as [E | _].
  { rewrite E in Hn. cbn in Hn. lra. }
  f_equal. apply Real_ext.
  rewrite (@Rsum_gaussian_nll sd ps ys Hs Hlen). field. lra.
Qed.

Lemma gaussian_likelihood_is_mean_negative_log_density_witness :
  neg_log_prob_with_gaussian two_predictions two_labels (Real 1)
  = Ok (Real (Rsum (zipWith (gaussian_nll 1) [2; 5] [1; 3])%R
              / INR (List.length [2; 5]%R) - ln (2 * PI) / 2)).
Proof.
  apply (@gaussian_likelihood_is_mean_negative_log_density
           two_predictions two_labels 1 [2; 5]%R [1; 3]%R).
  - unfold moderate_scale. lra.
  - repeat constructor; unfold moderate; rewrite Rabs_right; lra.
  - repeat constructor; unfold moderate; rewrite Rabs_right; lra.
  - reflexivity.
  - reflexivity.
  - reflexivity.
  - reflexivity.
  - discriminate.
Defined.



(** X13.  The labels of the Gaussian likelihood term must be a column
    with one row per entry of the predictions: labels of any other shape,
    a flat vector of the right length included, raise [ValueError] whatever
    [sigma] is; nothing is broadcast. *)
Theorem gaussian_likelihood_refuses_other_label_shapes
  (predictions : matrix) (labels : Array vector) (sigma : scalar) :
  shape labels <> [List.length (flatten predictions); 1%nat] ->
  neg_log_prob_with_gaussian predictions labels sigma = Raise ValueError.
Proof.
  intros H. unfold neg_log_prob_with_gaussian, mean_squared_error.
  cbv zeta. cbn [shape].
  destruct (list_eq_dec Nat.eq_dec _ _) as [E | _]; [| reflexivity].
  exfalso. apply H. symmetry. exact E.
Qed.

Lemma gaussian_likelihood_refuses_other_label_shapes_witness :
  neg_log_prob_with_gaussian two_predictions
    (mkArray [2%nat] [Real 1; Real 3]) (Real 1)
  = Raise ValueError.
Proof.
  apply gaussian_likelihood_refuses_other_label_shapes.
  cbn. discriminate.
Defined.

(** X14.  On an empty batch the mean squared error is 0, not 0/0, so the
    Gaussian likelihood term of an empty batch is ln(sigma) for every
    positive [sigma]. *)
Theorem gaussian_likelihood_of_empty_batch
  (predictions : matrix) (labels : Array vector) (sd : R) :
  (0 < sd)%R ->
  flatten predictions = [] ->
  shape labels = [0%nat; 1%nat] ->
  neg_log_prob_with_gaussian predictions labels (Real sd) = Ok (Real (ln sd)).
Proof.
  intros Hs Hp Hsh.
  unfold neg_log_prob_with_gaussian, mean_squared_error.
  cbv zeta. cbn [shape value]. rewrite Hp, Hsh. cbn [List.length].
  destruct (list_eq_dec Nat.eq_dec _ _) as [_ | N]; [| contradiction].
  cbn [zipWith map List.length Nat.eqb bind].
  assert (H2 : (0 < 2 * (sd * sd))%R) by nra.
  unfold fsquare. cbn [fmul].
  rewrite (fdiv_Real_pos _ H2), (flog_Real_pos Hs). cbn [fadd].
  f_equal. apply Real_ext. unfold Rdiv. lra.
Qed.

Lemma gaussian_likelihood_of_empty_batch_witness :
  neg_log_prob_with_gaussian [] (mkArray [0%nat; 1%nat] []) (Real 2)
  = Ok (Real (ln 2)).
Proof.
  apply gaussian_likelihood_of_empty_batch.
  - lra.
  - reflexivity.
  - reflexivity.
Defined.

(** ** Calling a network again *)

Lemma get_variable_holds {A : Type} (v : option (Array A)) (shp : list nat)
  (initializer : Rng -> A * Rng) (g : Rng) :
  holds v shp -> exists a g', get_variable v shp initializer g = Ok (a, g').
Proof.
  destruct v as [a |]; cbn [holds]; intros H.
  - exists a, g. apply get_variable_existing. exact H.
  - rewrite get_variable_fresh. eexists. eexists. reflexivity.
Qed.

Lemma call_establishes_takes (self : VarLinear.t) (inputs : Tensor) (g : Rng)
  (y : matrix) (self' : VarLinear.t) (g' : Rng) (width : nat) :
  VarLinear.__call__ self inputs g = Ok (y, self', g') ->
  VarLinear._use_bias self = true ->
  nth 1 (static_shape inputs) None = Some width ->
  takes (Some self') width (VarLinear.output_size self).
Proof.
  unfold VarLinear.__call__. intros H Hub Hw.
  destruct (VarLinear._build self inputs g) as [[[y0 s0] g0] |] eqn:Hb;
    [| discriminate].
  cbn [bind fst snd] in H. injection H as <- <- <-.
  apply _build_inversion in Hb.
  destruct Hb as (width' & w_mu & g1 & w_rho & g2 & Hw' & _ & _ & Hb).
  rewrite Hw in Hw'. injection Hw' as <-.
  cbv zeta in Hb. destruct Hb as (E1 & E2 & Hb). rewrite Hub in Hb.
  destruct Hb as (b_mu & g3 & b_rho & g4 & E3 & E4 & _ & _ & ->).
  apply get_variable_shape in E1, E2, E3, E4.
  cbn [takes holds VarLinear.set_connected VarLinear._w_mu VarLinear._w_rho
       VarLinear._b_mu VarLinear._b_rho].
  repeat split; [apply E1 | apply E2 | apply E3 | apply E4].
Qed.

Ltac get_held_variable :=
  match goal with
  | |- context [get_variable ?v ?s ?i ?g] =>
      let a := fresh "a" in
      let g' := fresh "g" in
      let E := fresh "E" in
      destruct (@get_variable_holds _ v s i g ltac:(assumption))
        as (a & g' & E);
      rewrite E; cbn [bind fst snd]
  end.

Lemma new_layer_call_succeeds (out : nat) (p : Distribution)
  (previous : option VarLinear.t) (batch : option nat) (width : nat)
  (x : matrix) (g : Rng) :
  takes previous width out ->
  exists y self' g',
    VarLinear.__call__ (VarEstimator.new_layer out p previous)
                       (mkTensor [batch; Some width] x) g
    = Ok (y, self', g').
Proof.
  destruct previous as [old |]; cbn [takes VarEstimator.new_layer].
  - intros (H1 & H2 & H3 & H4).
    unfold VarLinear.__call__, VarLinear._build.
    cbn [static_shape List.length Nat.eqb negb nth VarLinear.width_changed
         VarLinear._input_shape VarLinear._w_mu VarLinear._w_rho
         VarLinear._b_mu VarLinear._b_rho VarLinear.output_size
         VarLinear._use_bias].
    do 4 get_held_variable.
    eexists. eexists. eexists. reflexivity.
  - intros _. apply fresh_layer_call_succeeds.
Qed.

Lemma new_layer_fields (out : nat) (p : Distribution)
  (previous : option VarLinear.t) :
  VarLinear._use_bias (VarEstimator.new_layer out p previous) = true /\
  VarLinear.output_size (VarEstimator.new_layer out p previous) = out.
Proof. destruct previous; split; reflexivity. Qed.

(** A task network that accepts inputs of [width] features returns on
    every batch of that width, and accepts that width afterwards. *)
Lemma network_call_accepts (self : VarEstimator.t) (inputs : Tensor)
  (batch : option nat) (rest : list (option nat)) (width : nat) (g : Rng) :
  task_network (VarEstimator.arch self) ->
  accepts self width ->
  static_shape inputs = batch :: rest ->
  prod_dims rest = Some width ->
  exists y self' g',
    VarEstimator.__call__ self inputs g = Ok (y, self', g') /\
    accepts self' width /\
    VarEstimator.arch self' = VarEstimator.arch self /\
    has_shape (List.length (rows inputs)) (out_dim (VarEstimator.arch self)) y.
Proof.
  intros Ha (Hws & n1 & n2 & n3 & Hs & T1 & T2 & T3) Hsh Hw.
  destruct (task_network_sizes _ Ha) as (_ & Hsel).
  destruct (@new_layer_call_succeeds n1 (VarEstimator.prior self)
              (nth_error (VarEstimator._layers self) 0) batch width
              (rows inputs) g T1) as (y1 & l1 & g1 & E1).
  destruct (@new_layer_call_succeeds n2 (VarEstimator.prior self)
              (nth_error (VarEstimator._layers self) 1) batch n1
              (mmap relu y1) g1 T2) as (y2 & l2 & g2 & E2).
  destruct (@new_layer_call_succeeds n3 (VarEstimator.prior self)
              (nth_error (VarEstimator._layers self) 2) batch n2
              (mmap relu y2) g2 T3) as (y3 & l3 & g3 & E3).
  assert (E : VarEstimator.__call__ self inputs g
              = Ok (y3,
                    VarEstimator.set_connected
                      (VarEstimator.mk (VarEstimator.arch self)
                         (VarEstimator.prior self) [l1; l2; l3]
                         (VarEstimator.is_training self)
                         (VarEstimator.is_connected self)),
                    g3)).
  { unfold VarEstimator.__call__, VarEstimator._build, BatchFlatten.
    rewrite Hs, Hsh. cbn [bind fst snd]. rewrite Hw, Hsel.
    cbn [bind fst snd]. rewrite E1. cbn [bind fst snd].
    unfold VarEstimator.hidden at 1 2. cbn [static_shape nth].
    rewrite E2. cbn [bind fst snd].
    unfold VarEstimator.hidden. cbn [static_shape nth].
    rewrite E3. reflexivity. }
  exists y3. eexists. exists g3. split; [exact E |].
  destruct (@logits_shape_after_call self inputs g _ _ _ Ha Hws E)
    as (Hy & Hws' & _).
  split; [| split; [reflexivity | exact Hy]].
  split; [exact Hws' |].
  exists n1, n2, n3.
  cbn [VarEstimator.set_connected VarEstimator.arch VarEstimator._layers
       nth_error].
  split; [exact Hs |].
  destruct (new_layer_fields n1 (VarEstimator.prior self)
              (nth_error (VarEstimator._layers self) 0)) as [U1 O1].
  destruct (new_layer_fields n2 (VarEstimator.prior self)
              (nth_error (VarEstimator._layers self) 1)) as [U2 O2].
  destruct (new_layer_fields n3 (VarEstimator.prior self)
              (nth_error (VarEstimator._layers self) 2)) as [U3 O3].
  split; [| split].
  - pose proof (@call_establishes_takes _ _ _ _ _ _ width E1 U1 eq_refl) as T.
    rewrite O1 in T. exact T.
  - pose proof (@call_establishes_takes _ _ _ _ _ _ n1 E2 U2 eq_refl) as T.
    rewrite O2 in T. exact T.
  - pose proof (@call_establishes_takes _ _ _ _ _ _ n2 E3 U3 eq_refl) as T.
    rewrite O3 in T. exact T.
Qed.

(** ** Choosing an action *)

Lemma iadd_shape (n : nat) (r : rewards) (y : matrix) :
  reward_shape n r -> has_shape n 1 y ->
  reward_shape n (iadd r y) /\ is_array (iadd r y).
Proof.
  intros Hr Hy. destruct r as [z | m]; cbn [iadd reward_shape] in *.
  - split; [apply has_shape_mmap; exact Hy | eexists; reflexivity].
  - split; [apply has_shape_mzip; assumption | eexists; reflexivity].
Qed.

Lemma thompson_sampling_succeeds (n width : nat) (batch : option nat)
  (rest : list (option nat)) (no_eat_action eat_action : Tensor) :
  static_shape no_eat_action = batch :: rest ->
  static_shape eat_action = batch :: rest ->
  prod_dims rest = Some width ->
  List.length (rows no_eat_action) = n ->
  List.length (rows eat_action) = n ->
  forall (rounds : nat) (agent : VarEstimator.t) (ne ea : rewards) (g : Rng),
    task_network (VarEstimator.arch agent) ->
    out_dim (VarEstimator.arch agent) = 1%nat ->
    accepts agent width ->
    reward_shape n ne -> reward_shape n ea ->
    exists ne' ea' agent' g',
      thompson_sampling rounds agent no_eat_action eat_action ne ea g
      = Ok (ne', ea', agent', g') /\
      accepts agent' width /\
      VarEstimator.arch agent' = VarEstimator.arch agent /\
      reward_shape n ne' /\ reward_shape n ea' /\
      ((0 < rounds)%nat \/ (is_array ne /\ is_array ea) ->
       is_array ne' /\ is_array ea').
Proof.
  intros S1 S2 Hw L1 L2.
  induction rounds as [| rounds IH]; intros agent ne ea g Ha Ho Hacc Hne Hea.
  - exists ne, ea, agent, g. cbn [thompson_sampling].
    split; [reflexivity |]. split; [exact Hacc |]. split; [reflexivity |].
    split; [exact Hne |]. split; [exact Hea |].
    intros [H | H]; [lia | exact H].
  - destruct (@network_call_accepts agent no_eat_action batch rest width g
                Ha Hacc S1 Hw) as (y1 & a1 & g1 & E1 & Hacc1 & Ar1 & Hy1).
    rewrite L1, Ho in Hy1.
    assert (Ha1 : task_network (VarEstimator.arch a1)) by (rewrite Ar1; exact Ha).
    destruct (@network_call_accepts a1 eat_action batch rest width g1
                Ha1 Hacc1 S2 Hw) as (y2 & a2 & g2 & E2 & Hacc2 & Ar2 & Hy2).
    rewrite L2, Ar1, Ho in Hy2.
    destruct (iadd_shape ne Hne Hy1) as [Hne1 An1].
    destruct (iadd_shape ea Hea Hy2) as [Hea1 An2].
    destruct (IH a2 (iadd ne y1) (iadd ea y2) g2)
      as (ne' & ea' & agent' & g' & E & Hacc' & Ar' & Hne' & Hea' & Harr);
      try assumption.
    { rewrite Ar2, Ar1. exact Ha. }
    { rewrite Ar2, Ar1. exact Ho. }
    exists ne', ea', agent', g'. cbn [thompson_sampling].
    rewrite E1. cbn [bind fst snd]. rewrite E2. cbn [bind fst snd].
    split; [exact E |]. split; [exact Hacc' |].
    split; [rewrite Ar', Ar2, Ar1; reflexivity |].
    split; [exact Hne' |]. split; [exact Hea' |].
    intros _. apply Harr. right. split; assumption.
Qed.

Lemma argmax_pair (a b : scalar) :
  argmax ([a] ++ [b]) = Ok (if beats b a then 1%nat else 0%nat).
Proof.
  cbn [app argmax argmax_from]. destruct (beats b a); reflexivity.
Qed.

Lemma argmax_rows (n : nat) (m1 m2 : matrix) :
  has_shape n 1 m1 -> has_shape n 1 m2 ->
  exists greedy,
    mapM argmax (zipWith (@app scalar) m1 m2) = Ok greedy /\
    List.length greedy = n /\ Forall is_action greedy.
Proof.
  intros [L1 F1] [L2 F2]. subst n. revert m2 L2 F2.
  induction F1 as [| r1 m1 Hr1 _ IH]; intros m2 L2 F2.
  - exists []. destruct m2; [| discriminate].
    split; [reflexivity |]. split; [reflexivity | constructor].
  - destruct m2 as [| r2 m2]; [discriminate |].
    inversion F2 as [| ? ? Hr2 F2']; subst.
    destruct (IH m2) as (greedy & E & Hl & Hf);
      [cbn in L2; congruence | exact F2' |].
    destruct r1 as [| a [| ? ?]]; try discriminate.
    destruct r2 as [| b [| ? ?]]; try discriminate.
    exists ((if beats b a then 1%nat else 0%nat) :: greedy).
    cbn [zipWith mapM]. rewrite argmax_pair. cbn [bind]. rewrite E.
    cbn [bind]. split; [reflexivity |].
    split; [cbn [List.length]; congruence |].
    constructor; [| exact Hf].
    destruct (beats b a); [right | left]; reflexivity.
Qed.

Lemma length_masked_assign (action : list nat) (mask : list bool)
  (values : list nat) :
  List.length mask = List.length action ->
  List.length values = List.length action ->
  List.length (masked_assign action mask values) = List.length action.
Proof.
  intros H1 H2. unfold masked_assign.
  rewrite length_zipWith, length_combine. lia.
Qed.

Lemma masked_assign_actions (action : list nat) (mask : list bool)
  (values : list nat) :
  Forall is_action action -> Forall is_action values ->
  Forall is_action (masked_assign action mask values).
Proof.
  unfold masked_assign. intros Ha. revert mask values.
  induction Ha as [| a action Ha _ IH]; intros mask values Hv.
  - constructor.
  - destruct mask as [| b mask]; [constructor |].
    destruct values as [| v values]; [constructor |].
    inversion Hv; subst. cbn [combine zipWith fst snd].
    constructor; [destruct b; assumption | apply IH; assumption].
Qed.

Lemma masked_assign_none (action : list nat) (mask : list bool)
  (values : list nat) :
  List.length mask = List.length action ->
  List.length values = List.length action ->
  Forall (fun b => b = false) mask ->
  masked_assign action mask values = action.
Proof.
  unfold masked_assign. revert mask values.
  induction action as [| a action IH]; intros [| b mask] [| v values] H1 H2 Hm;
    try discriminate; [reflexivity |].
  inversion Hm; subst. cbn [combine zipWith fst snd].
  rewrite IH; [reflexivity | cbn in *; congruence .. | assumption].
Qed.

Lemma masked_assign_all (action : list nat) (mask : list bool)
  (values : list nat) :
  List.length mask = List.length action ->
  List.length values = List.length action ->
  Forall (fun b => b = true) mask ->
  masked_assign action mask values = values.
Proof.
  unfold masked_assign. revert mask values.
  induction action as [| a action IH]; intros [| b mask] [| v values] H1 H2 Hm;
    try discriminate; [reflexivity |].
  inversion Hm; subst. cbn [combine zipWith fst snd].
  rewrite IH; [reflexivity | cbn in *; congruence .. | assumption].
Qed.

Lemma choice_actions (n : nat) (np : NumpyRandom) :
  Forall is_action (fst (np_random_choice n np)) /\
  List.length (fst (np_random_choice n np)) = n.
Proof.
  unfold np_random_choice. cbn [fst]. split.
  - apply Forall_forall. intros a Ha. apply in_map_iff in Ha.
    destruct Ha as (i & <- & _).
    destruct (choice_draws np i); [right | left]; reflexivity.
  - rewrite length_map, length_seq. reflexivity.
Qed.

(** What [get_action] computes for an agent with one output that accepts
    the width of the context plus the two action columns. *)
Lemma get_action_unfolded (agent : VarEstimator.t) (context : Array matrix)
  (epsilon : scalar) (rounds : nat) (g : Rng) (np : NumpyRandom) (n d : nat) :
  task_network (VarEstimator.arch agent) ->
  out_dim (VarEstimator.arch agent) = 1%nat ->
  accepts agent (d + 2) ->
  shape context = [n; d] ->
  List.length (value context) = n ->
  (0 < rounds)%nat ->
  exists m1 m2 agent' g' greedy,
    thompson_sampling rounds agent (no_eat_input context n d)
                      (eat_input context n d) (IntReward 0) (IntReward 1) g
    = Ok (ArrayReward m1, ArrayReward m2, agent', g') /\
    has_shape n 1 m1 /\ has_shape n 1 m2 /\
    accepts agent' (d + 2) /\
    VarEstimator.arch agent' = VarEstimator.arch agent /\
    mapM argmax (zipWith (@app scalar) m1 m2) = Ok greedy /\
    List.length greedy = n /\ Forall is_action greedy /\
    get_action agent context epsilon rounds g np
    = Ok (masked_assign greedy
            (map (fun u => fgreater epsilon u) (fst (np_random_uniform n np)))
            (fst (np_random_choice n (snd (np_random_uniform n np)))),
          agent', g',
          snd (np_random_choice n (snd (np_random_uniform n np)))).
Proof.
  intros Ha Ho Hacc Hsh Hlen Hk.
  destruct (@thompson_sampling_succeeds n (d + 2) (Some n)
              [Some (d + 2)%nat] (no_eat_input context n d)
              (eat_input context n d) eq_refl eq_refl)
    with (rounds := rounds) (agent := agent) (ne := IntReward 0)
         (ea := IntReward 1) (g := g)
    as (ne' & ea' & agent' & g' & E & Hacc' & Ar' & Hne' & Hea' & Harr);
    try assumption.
  { cbn [prod_dims]. rewrite Nat.mul_1_r. reflexivity. }
  { unfold no_eat_input, with_action. cbn [rows]. rewrite length_map.
    exact Hlen. }
  { unfold eat_input, with_action. cbn [rows]. rewrite length_map.
    exact Hlen. }
  { exact I. }
  { exact I. }
  destruct Harr as [[m1 ->] [m2 ->]]; [left; exact Hk |].
  cbn [reward_shape] in Hne', Hea'.
  destruct (argmax_rows Hne' Hea') as (greedy & Eg & Lg & Fg).
  exists m1, m2, agent', g', greedy.
  repeat (split; [assumption |]).
  unfold get_action. rewrite Hsh.
  fold (no_eat_input context n d). fold (eat_input context n d).
  rewrite E. cbn [bind fst snd hstack_rewards]. rewrite Eg. cbn [bind].
  rewrite Lg, Nat.eqb_refl. reflexivity.
Qed.

Lemma mask_lengths (epsilon : scalar) (n : nat) (np : NumpyRandom) :
  List.length (map (fun u => fgreater epsilon u)
                   (fst (np_random_uniform n np))) = n.
Proof.
  unfold np_random_uniform. cbn [fst].
  rewrite !length_map, length_seq. reflexivity.
Qed.

Lemma mask_none (e : R) (n : nat) (np : NumpyRandom) :
  (e <= 0)%R -> (forall i, unit_interval (uniform_draws np i)) ->
  Forall (fun b => b = false)
         (map (fun u => fgreater (Real e) u) (fst (np_random_uniform n np))).
Proof.
  intros He Hu. unfold np_random_uniform. cbn [fst].
  apply Forall_forall. intros b Hb. apply in_map_iff in Hb.
  destruct Hb as (u & <- & Hin). apply in_map_iff in Hin.
  destruct Hin as (i & <- & _). destruct (Hu i) as (u & -> & Hr).
  cbn [fgreater]. destruct (Rgt_dec e u) as [H | _]; [| reflexivity].
  unfold Rgt in H. lra.
Qed.

Lemma mask_all (e : R) (n : nat) (np : NumpyRandom) :
  (1 <= e)%R -> (forall i, unit_interval (uniform_draws np i)) ->
  Forall (fun b => b = true)
         (map (fun u => fgreater (Real e) u) (fst (np_random_uniform n np))).
Proof.
  intros He Hu. unfold np_random_uniform. cbn [fst].
  apply Forall_forall. intros b Hb. apply in_map_iff in Hb.
  destruct Hb as (u & <- & Hin). apply in_map_iff in Hin.
  destruct Hin as (i & <- & _). destruct (Hu i) as (u & -> & Hr).
  cbn [fgreater]. destruct (Rgt_dec e u) as [_ | H]; [reflexivity |].
  exfalso. apply H. unfold Rgt. lra.
Qed.

Lemma mushroom_agent (agent : VarEstimator.t) (units : nat) :
  VarEstimator.arch agent = VarEstimator.VarMushroomRL units ->
  task_network (VarEstimator.arch agent) /\
  out_dim (VarEstimator.arch agent) = 1%nat.
Proof. intros ->. split; [exact I | reflexivity]. Qed.

Lemma accepts_fresh_agent (width : nat) : accepts fresh_agent width.
Proof.
  split; [constructor |]. exists 1%nat, 1%nat, 1%nat.
  repeat split.
Qed.

Lemma half_draws_unit_interval (i : nat) :
  unit_interval (uniform_draws half_draws i).
Proof. exists (/ 2)%R. split; [reflexivity | lra]. Qed.

Lemma nth_error_zipWith {A B C : Type} (f : A -> B -> C) (u : list A)
  (v : list B) (i : nat) (a : A) (b : B) :
  nth_error u i = Some a -> nth_error v i = Some b ->
  nth_error (zipWith f u v) i = Some (f a b).
Proof.
  revert v i. induction u as [| x u IH]; intros [| y v] [| i] Hu Hv;
    try discriminate.
  - injection Hu as ->. injection Hv as ->. reflexivity.
  - cbn [zipWith nth_error]. apply IH; assumption.
Qed.

Lemma mapM_nth_error {A B : Type} (f : A -> result B) (l : list A)
  (l' : list B) (i : nat) (a : A) :
  mapM f l = Ok l' -> nth_error l i = Some a ->
  exists b, nth_error l' i = Some b /\ f a = Ok b.
Proof.
  revert l' i. induction l as [| x l IH]; intros l' i H Hi.
  - destruct i; discriminate.
  - cbn [mapM] in H. destruct (f x) as [b |] eqn:E; [| discriminate].
    cbn [bind] in H. destruct (mapM f l) as [bs |]; [| discriminate].
    cbn [bind] in H. injection H as <-.
    destruct i as [| i].
    + injection Hi as ->. exists b. split; [reflexivity | exact E].
    + apply (IH bs i eq_refl Hi).
Qed.

(** X15.  For the mushroom agent, new or built for the width of the
    context plus the two action columns, and at least one Thompson sample,
    [get_action] never raises: it returns one action per context, each 0
    (do not eat) or 1 (eat); it makes one uniform draw and one random choice
    per context; and it leaves the agent able to take the same contexts
    again. *)
Theorem get_action_returns_one_action_per_context
  (agent : VarEstimator.t) (context : Array matrix) (epsilon : scalar)
  (rounds : nat) (g : Rng) (np : NumpyRandom) (n d units : nat) :
  VarEstimator.arch agent = VarEstimator.VarMushroomRL units ->
  accepts agent (d + 2) ->
  shape context = [n; d] ->
  List.length (value context) = n ->
  (0 < rounds)%nat ->
  exists actions agent' g' np',
    get_action agent context epsilon rounds g np
    = Ok (actions, agent', g', np') /\
    List.length actions = n /\
    Forall is_action actions /\
    accepts agent' (d + 2) /\
    VarEstimator.arch agent' = VarEstimator.arch agent /\
    draws_made np' = (draws_made np + n + n)%nat.
Proof.
  intros Harch Hacc Hsh Hlen Hk.
  destruct (mushroom_agent agent Harch) as [Ha Ho].
  destruct (@get_action_unfolded agent context epsilon rounds g np n d
              Ha Ho Hacc Hsh Hlen Hk)
    as (m1 & m2 & agent' & g' & greedy & _ & _ & _ & Hacc' & Ar & _ & Lg
        & Fg & E).
  destruct (choice_actions n (snd (np_random_uniform n np))) as [Fc Lc].
  eexists. exists agent', g'. eexists. split; [exact E |].
  split.
  { rewrite length_masked_assign; [exact Lg | |].
    - rewrite mask_lengths. symmetry. exact Lg.
    - rewrite Lc. symmetry. exact Lg. }
  split; [apply masked_assign_actions; assumption |].
  split; [exact Hacc' |]. split; [exact Ar |]. reflexivity.
Qed.

Lemma get_action_returns_one_action_per_context_witness :
  exists actions agent' g' np',
    get_action fresh_agent one_context (Real 0) 2
               (constant_rng (Real 0) (Real 1)) half_draws
    = Ok (actions, agent', g', np') /\
    List.length actions = 1%nat.
Proof.
  destruct (@get_action_returns_one_action_per_context fresh_agent
              one_context (Real 0) 2 (constant_rng (Real 0) (Real 1))
              half_draws 1 1 1)
    as (actions & agent' & g' & np' & E & L & _).
  - reflexivity.
  - apply accepts_fresh_agent.
  - reflexivity.
  - reflexivity.
  - lia.
  - exists actions, agent', g', np'. split; [exact E | exact L].
Defined.

(** X16.  With [epsilon] at its default 0 (or below) and uniform draws in
    [0, 1), no action is replaced by a random one: [get_action] returns
    the row-wise argmax of the two totals of the Thompson rounds.  For
    finite totals the action is 1 (eat) exactly when the eat total, which
    starts at 1, is larger than the no-eat total, which starts at 0; a tie
    is resolved as 0. *)
Theorem get_action_is_greedy_without_exploration
  (agent : VarEstimator.t) (context : Array matrix) (e : R)
  (rounds : nat) (g : Rng) (np : NumpyRandom) (n d units : nat) :
  VarEstimator.arch agent = VarEstimator.VarMushroomRL units ->
  accepts agent (d + 2) ->
  shape context = [n; d] ->
  List.length (value context) = n ->
  (0 < rounds)%nat ->
  (e <= 0)%R ->
  (forall i, unit_interval (uniform_draws np i)) ->
  exists no_eat eat actions agent' g' np',
    thompson_sampling rounds agent (no_eat_input context n d)
                      (eat_input context n d) (IntReward 0) (IntReward 1) g
    = Ok (ArrayReward no_eat, ArrayReward eat, agent', g') /\
    get_action agent context (Real e) rounds g np
    = Ok (actions, agent', g', np') /\
    mapM argmax (zipWith (@app scalar) no_eat eat) = Ok actions /\
    forall i a b,
      nth_error no_eat i = Some [Real a] ->
      nth_error eat i = Some [Real b] ->
      nth_error actions i = Some (if Rlt_dec a b then 1%nat else 0%nat).
Proof.
  intros Harch Hacc Hsh Hlen Hk He Hu.
  destruct (mushroom_agent agent Harch) as [Ha Ho].
  destruct (@get_action_unfolded agent context (Real e) rounds g np n d
              Ha Ho Hacc Hsh Hlen Hk)
    as (m1 & m2 & agent' & g' & greedy & Et & _ & _ & _ & _ & Eg & Lg
        & _ & E).
  destruct (choice_actions n (snd (np_random_uniform n np))) as [_ Lc].
  rewrite masked_assign_none in E.
  - exists m1, m2, greedy, agent', g'. eexists.
    split; [exact Et |]. split; [exact E |]. split; [exact Eg |].
    intros i a b H1 H2.
    pose proof (@nth_error_zipWith _ _ _ (@app scalar) m1 m2 i _ _ H1 H2)
      as Hz.
    destruct (mapM_nth_error _ _ i Eg Hz) as (act & Hact & Ea).
    rewrite Hact. f_equal. rewrite argmax_pair in Ea. injection Ea as <-.
    cbn [beats fgreater].
    destruct (Rgt_dec b a) as [H | H], (Rlt_dec a b) as [H' | H'];
      try reflexivity; unfold Rgt in H; contradiction.
  - rewrite mask_lengths. symmetry. exact Lg.
  - rewrite Lc. symmetry. exact Lg.
  - apply mask_none; assumption.
Qed.

Lemma get_action_is_greedy_without_exploration_witness :
  exists no_eat eat actions agent' g' np',
    get_action fresh_agent one_context (Real 0) 2
               (constant_rng (Real 0) (Real 1)) half_draws
    = Ok (actions, agent', g', np') /\
    mapM argmax (zipWith (@app scalar) no_eat eat) = Ok actions.
Proof.
  destruct (@get_action_is_greedy_without_exploration fresh_agent
              one_context 0 2 (constant_rng (Real 0) (Real 1))
              half_draws 1 1 1)
    as (no_eat & eat & actions & agent' & g' & np' & _ & E & Eg & _).
  - reflexivity.
  - apply accepts_fresh_agent.
  - reflexivity.
  - reflexivity.
  - lia.
  - lra.
  - apply half_draws_unit_interval.
  - exists no_eat, eat, actions, agent', g', np'.
    split; [exact E | exact Eg].
Defined.

(** ** What the forward passes of [get_action] cost *)

Lemma layer_call_counts_samples (self : VarLinear.t) (inputs : Tensor)
  (g : Rng) (y : matrix) (self' : VarLinear.t) (g' : Rng) :
  VarLinear.__call__ self inputs g = Ok (y, self', g') ->
  VarLinear._use_bias self = true ->
  sample_calls g' = (sample_calls g + 2)%nat.
Proof.
  unfold VarLinear.__call__. intros H Hub.
  destruct (VarLinear._build self inputs g) as [[[y0 s0] g0] |] eqn:Hb;
    [| discriminate].
  cbn [bind fst snd] in H. injection H as <- <- <-.
  apply _build_inversion in Hb.
  destruct Hb as (width & w_mu & g1 & w_rho & g2 & _ & _ & _ & Hb).
  cbv zeta in Hb. destruct Hb as (E1 & E2 & Hb). rewrite Hub in Hb.
  destruct Hb as (b_mu & g3 & b_rho & g4 & E3 & E4 & _ & -> & _).
  apply get_variable_noise in E1; [| apply mu_init_matrix_noise].
  apply get_variable_noise in E2; [| apply rho_init_matrix_noise].
  apply get_variable_noise in E3; [| apply mu_init_vector_noise].
  apply get_variable_noise in E4; [| apply rho_init_vector_noise].
  destruct E1 as (_ & _ & C1). destruct E2 as (_ & _ & C2).
  destruct E3 as (_ & _ & C3). destruct E4 as (_ & _ & C4).
  cbn [sample_matrix sample_vector snd after_sample sample_calls] in *.
  lia.
Qed.

Lemma network_call_counts_samples (self : VarEstimator.t) (inputs : Tensor)
  (g : Rng) (y : matrix) (self' : VarEstimator.t) (g' : Rng) :
  task_network (VarEstimator.arch self) ->
  VarEstimator.__call__ self inputs g = Ok (y, self', g') ->
  sample_calls g' = (sample_calls g + 6)%nat /\
  VarEstimator.arch self' = VarEstimator.arch self.
Proof.
  intros Ha. unfold VarEstimator.__call__, VarEstimator._build. intros H.
  destruct (task_network_sizes _ Ha) as ((n1 & n2 & Hs) & Hsel).
  rewrite Hs in H. cbn [bind fst snd] in H.
  unfold BatchFlatten in H.
  destruct (static_shape inputs) as [| batch rest]; [discriminate |].
  cbn [bind] in H. rewrite Hsel in H. cbn [bind] in H.
  destruct (VarLinear.__call__ (VarEstimator.new_layer n1 _ _) _ g)
    as [[[y1 l1] g1] |] eqn:E1; [| discriminate].
  cbn [bind fst snd] in H.
  destruct (VarLinear.__call__ (VarEstimator.new_layer n2 _ _) _ g1)
    as [[[y2 l2] g2] |] eqn:E2; [| discriminate].
  cbn [bind fst snd] in H.
  destruct (VarLinear.__call__ (VarEstimator.new_layer _ _ _) _ g2)
    as [[[y3 l3] g3] |] eqn:E3; [| discriminate].
  cbn [bind fst snd] in H. injection H as <- <- <-.
  apply layer_call_counts_samples in E1; [| apply new_layer_fields].
  apply layer_call_counts_samples in E2; [| apply new_layer_fields].
  apply layer_call_counts_samples in E3; [| apply new_layer_fields].
  split; [lia | reflexivity].
Qed.

Lemma thompson_sampling_counts_samples (no_eat_action eat_action : Tensor) :
  forall (rounds : nat) (agent : VarEstimator.t) (ne ea : rewards) (g : Rng)
         (ne' ea' : rewards) (agent' : VarEstimator.t) (g' : Rng),
    task_network (VarEstimator.arch agent) ->
    thompson_sampling rounds agent no_eat_action eat_action ne ea g
    = Ok (ne', ea', agent', g') ->
    sample_calls g' = (sample_calls g + 12 * rounds)%nat.
Proof.
  induction rounds as [| rounds IH];
    intros agent ne ea g ne' ea' agent' g' Ha H; cbn [thompson_sampling] in H.
  - injection H as _ _ _ <-. lia.
  - destruct (VarEstimator.__call__ agent no_eat_action g)
      as [[[y1 a1] g1] |] eqn:E1; [| discriminate].
    cbn [bind fst snd] in H.
    destruct (VarEstimator.__call__ a1 eat_action g1)
      as [[[y2 a2] g2] |] eqn:E2; [| discriminate].
    cbn [bind fst snd] in H.
    destruct (@network_call_counts_samples _ _ _ _ _ _ Ha E1) as [C1 A1].
    assert (Ha1 : task_network (VarEstimator.arch a1))
      by (rewrite A1; exact Ha).
    destruct (@network_call_counts_samples _ _ _ _ _ _ Ha1 E2) as [C2 A2].
    apply IH in H; [lia |]. rewrite A2. exact Ha1.
Qed.

(** X17.  With [epsilon] at 1 (or above) and uniform draws in [0, 1),
    every action is the random choice made for its context: the result
    does not depend on what the agent predicts.  The forward passes are
    made all the same: two per Thompson round, each drawing the weights
    and the biases of three layers, twelve calls of [sample()] per round. *)
Theorem get_action_is_random_under_full_exploration
  (agent : VarEstimator.t) (context : Array matrix) (e : R)
  (rounds : nat) (g : Rng) (np : NumpyRandom) (n d units : nat) :
  VarEstimator.arch agent = VarEstimator.VarMushroomRL units ->
  accepts agent (d + 2) ->
  shape context = [n; d] ->
  List.length (value context) = n ->
  (0 < rounds)%nat ->
  (1 <= e)%R ->
  (forall i, unit_interval (uniform_draws np i)) ->
  exists agent' g' np',
    get_action agent context (Real e) rounds g np
    = Ok (map (fun i => if choice_draws np i then 1%nat else 0%nat)
              (seq (draws_made np + n) n),
          agent', g', np') /\
    sample_calls g' = (sample_calls g + 12 * rounds)%nat.
Proof.
  intros Harch Hacc Hsh Hlen Hk He Hu.
  destruct (mushroom_agent agent Harch) as [Ha Ho].
  destruct (@get_action_unfolded agent context (Real e) rounds g np n d
              Ha Ho Hacc Hsh Hlen Hk)
    as (m1 & m2 & agent' & g' & greedy & Et & _ & _ & _ & _ & _ & Lg
        & _ & E).
  destruct (choice_actions n (snd (np_random_uniform n np))) as [_ Lc].
  rewrite masked_assign_all in E.
  - exists agent', g'. eexists. split; [exact E |].
    apply (@thompson_sampling_counts_samples _ _ _ _ _ _ _ _ _ _ _ Ha Et).
  - rewrite mask_lengths. symmetry. exact Lg.
  - rewrite Lc. symmetry. exact Lg.
  - apply mask_all; assumption.
Qed.

Lemma get_action_is_random_under_full_exploration_witness :
  exists agent' g' np',
    get_action fresh_agent one_context (Real 1) 2
               (constant_rng (Real 0) (Real 1)) half_draws
    = Ok ([1%nat], agent', g', np').
Proof.
  destruct (@get_action_is_random_under_full_exploration fresh_agent
              one_context 1 2 (constant_rng (Real 0) (Real 1))
              half_draws 1 1 1)
    as (agent' & g' & np' & E & _).
  - reflexivity.
  - apply accepts_fresh_agent.
  - reflexivity.
  - reflexivity.
  - lia.
  - lra.
  - apply half_draws_unit_interval.
  - exists agent', g', np'. exact E.
Defined.

(** ** The KL term after pruning *)

Lemma fadd_NaN_l (x : scalar) : fadd NaN x = NaN.
Proof. destruct x; reflexivity. Qed.

Lemma fadd_NaN_r (x : scalar) : fadd x NaN = NaN.
Proof. destruct x; reflexivity. Qed.

Lemma fold_left_fadd_NaN (l : vector) : fold_left fadd l NaN = NaN.
Proof.
  induction l as [| x l IH]; cbn [fold_left]; [reflexivity |].
  rewrite fadd_NaN_l. exact IH.
Qed.

Lemma fold_left_fadd_In_NaN (l : vector) (a : scalar) :
  In NaN l -> fold_left fadd l a = NaN.
Proof.
  revert a. induction l as [| x l IH]; intros a H; [contradiction |].
  cbn [fold_left]. destruct H as [-> | H].
  - rewrite fadd_NaN_r. apply fold_left_fadd_NaN.
  - apply IH. exact H.
Qed.

(** The log-density of a normal distribution of scale 0 or NaN is NaN at
    every point: at the mean it is 0/0, elsewhere -inf + inf. *)
Lemma Normal_log_prob_dead_scale (m s x : scalar) :
  s = Real 0 \/ s = NaN -> Normal_log_prob (mkNormal m s) x = NaN.
Proof.
  assert (Hz : Rsign 0 = Eq) by (apply Rsign_zero; reflexivity).
  assert (Hn : Rsign (- / 2) = Lt) by (apply Rsign_neg; lra).
  intros [-> | ->]; unfold Normal_log_prob; cbn [loc scale].
  - rewrite (flog_Real_zero eq_refl).
    destruct (fsub x m) as [a | | |]; unfold fdiv, fsquare.
    + rewrite Hz. destruct (Rsign a); cbn [fmul fsub fadd fneg];
        unfold inf_times_sign; rewrite ?Hn; reflexivity.
    + rewrite Hz. cbn [fmul]. unfold inf_times_sign. rewrite Hn. reflexivity.
    + rewrite Hz. cbn [fmul]. unfold inf_times_sign. rewrite Hn. reflexivity.
    + reflexivity.
  - destruct (fsub x m); reflexivity.
Qed.

Lemma softplus_dead_scale (rho : scalar) :
  dead_scale rho -> softplus rho = Real 0 \/ softplus rho = NaN.
Proof.
  intros [-> | ->]; [left; apply softplus_NInf | right; apply softplus_NaN].
Qed.

Lemma entry_mzip (f : scalar -> scalar -> scalar) (a b : matrix) (i j : nat)
  (x y : scalar) :
  entry a i j = Some x -> entry b i j = Some y ->
  entry (mzip f a b) i j = Some (f x y).
Proof.
  unfold entry, mzip. intros Ha Hb.
  destruct (nth_error a i) as [ra |] eqn:Ea; [| discriminate].
  destruct (nth_error b i) as [rb |] eqn:Eb; [| discriminate].
  rewrite (nth_error_zipWith (zipWith f) _ _ _ Ea Eb).
  apply nth_error_zipWith; assumption.
Qed.

Lemma entry_mmap (f : scalar -> scalar) (a : matrix) (i j : nat) (x : scalar) :
  entry a i j = Some x -> entry (mmap f a) i j = Some (f x).
Proof.
  unfold entry, mmap. intros Ha.
  destruct (nth_error a i) as [ra |] eqn:Ea; [| discriminate].
  rewrite nth_error_map, Ea. cbn [option_map].
  rewrite nth_error_map, Ha. reflexivity.
Qed.

Lemma nth_error_combine {A B : Type} (u : list A) (v : list B) (i : nat)
  (a : A) (b : B) :
  nth_error u i = Some a -> nth_error v i = Some b ->
  nth_error (combine u v) i = Some (a, b).
Proof.
  revert v i. induction u as [| x u IH]; intros [| y v] [| i] Hu Hv;
    try discriminate.
  - injection Hu as ->. injection Hv as ->. reflexivity.
  - cbn [combine nth_error]. apply IH; assumption.
Qed.

Lemma entry_log_prob_matrix (locs scales xs : matrix) (i j : nat)
  (l s x : scalar) :
  entry locs i j = Some l -> entry scales i j = Some s ->
  entry xs i j = Some x ->
  entry (log_prob_matrix locs scales xs) i j
  = Some (Normal_log_prob (mkNormal l s) x).
Proof.
  unfold entry, log_prob_matrix, log_prob_vector, zipWith3.
  intros Hl Hs Hx.
  destruct (nth_error locs i) as [rl |] eqn:El; [| discriminate].
  destruct (nth_error scales i) as [rs |] eqn:Es; [| discriminate].
  destruct (nth_error xs i) as [rx |] eqn:Ex; [| discriminate].
  rewrite (nth_error_zipWith _ _ _ _ (nth_error_combine _ _ _ El Es) Ex).
  cbn [fst snd].
  rewrite (nth_error_zipWith _ _ _ _ (nth_error_combine _ _ _ Hl Hs) Hx).
  reflexivity.
Qed.

Lemma entry_has_shape (r c : nat) (m : matrix) (i j : nat) :
  has_shape r c m ->
  (i < r /\ j < c)%nat <-> exists x, entry m i j = Some x.
Proof.
  intros [Hl Hr]. unfold entry. split.
  - intros [Hi Hj].
    destruct (nth_error m i) as [row |] eqn:E.
    + rewrite Forall_forall in Hr.
      pose proof (Hr row (nth_error_In _ _ E)) as Hlen.
      destruct (nth_error row j) as [x |] eqn:Ej; [exists x; reflexivity |].
      apply nth_error_None in Ej. lia.
    + apply nth_error_None in E. lia.
  - intros [x Hx].
    destruct (nth_error m i) as [row |] eqn:E; [| discriminate].
    rewrite Forall_forall in Hr.
    pose proof (Hr row (nth_error_In _ _ E)) as Hlen.
    split.
    + rewrite <- Hl. apply nth_error_Some. congruence.
    + rewrite <- Hlen. apply nth_error_Some. congruence.
Qed.

Lemma entry_In_flatten (m : matrix) (i j : nat) (x : scalar) :
  entry m i j = Some x -> In x (flatten m).
Proof.
  unfold entry, flatten. intros H.
  destruct (nth_error m i) as [row |] eqn:E; [| discriminate].
  apply in_concat. exists row.
  split; [eapply nth_error_In; exact E | eapply nth_error_In; exact H].
Qed.

(** A forward pass of a layer that holds a weight of dead raw scale stores
    NaN as its KL term. *)
Lemma dead_scale_gives_nan_kl (self : VarLinear.t) (inputs : Tensor) (g : Rng)
  (y : matrix) (self' : VarLinear.t) (g' : Rng) (wm wr : Array matrix)
  (i j : nat) (rho : scalar) :
  VarLinear.__call__ self inputs g = Ok (y, self', g') ->
  VarLinear._w_mu self = Some wm -> VarLinear._w_rho self = Some wr ->
  fits2 wm -> fits2 wr ->
  entry (value wr) i j = Some rho -> dead_scale rho ->
  VarLinear.kl_divergence self' = Ok NaN.
Proof.
  unfold VarLinear.__call__. intros H Hwm Hwr Fm Fr He Hd.
  destruct (VarLinear._build self inputs g) as [[[y0 s0] g0] |] eqn:Hb;
    [| discriminate].
  cbn [bind fst snd] in H. injection H as <- <- <-.
  apply _build_inversion in Hb.
  destruct Hb as (width & w_mu & g1 & w_rho & g2 & _ & _ & _ & Hb).
  cbv zeta in Hb. destruct Hb as (E1 & E2 & Hb).
  rewrite Hwm in E1. rewrite Hwr in E2.
  apply get_variable_shape in E1, E2.
  destruct E1 as [S1 [E1 | [E1 _]]]; [| discriminate].
  destruct E2 as [S2 [E2 | [E2 _]]]; [| discriminate].
  injection E1 as <-. injection E2 as <-.
  pose proof (fits2_shape Fm S1) as Sm.
  pose proof (fits2_shape Fr S2) as Sr.
  assert (Hij : (i < width /\ j < VarLinear.output_size self)%nat).
  { apply (entry_has_shape i j Sr). exists rho. exact He. }
  destruct (proj1 (entry_has_shape i j Sm) Hij) as [m Hm].
  pose proof (has_shape_stream_matrix (normal_stream g2) (normal_pos g2)
                width (VarLinear.output_size self)) as Sn.
  destruct (proj1 (entry_has_shape i j Sn) Hij) as [eps Heps].
  pose proof (entry_mmap softplus _ _ _ He) as Hs.
  pose proof (entry_mzip fadd _ _ _ _ Hm (entry_mzip fmul _ _ _ _ Hs Heps))
    as Hw.
  pose proof (entry_log_prob_matrix _ _ _ _ _ Hm Hs Hw) as Hq.
  rewrite (Normal_log_prob_dead_scale _ _ (softplus_dead_scale Hd)) in Hq.
  pose proof (entry_mmap (log_prob (VarLinear.prior self)) _ _ _ Hw) as Hp.
  pose proof (entry_mzip fsub _ _ _ _ Hq Hp) as Hkl.
  unfold fsub in Hkl at 2. rewrite fadd_NaN_l in Hkl.
  apply entry_In_flatten in Hkl.
  assert (Ekl : reduce_sum
                  (mzip fsub
                     (log_prob_matrix (value wm) (mmap softplus (value wr))
                        (fst (sample_matrix (value wm)
                                (mmap softplus (value wr)) width
                                (VarLinear.output_size self) g2)))
                     (mmap (log_prob (VarLinear.prior self))
                        (fst (sample_matrix (value wm)
                                (mmap softplus (value wr)) width
                                (VarLinear.output_size self) g2))))
                = NaN).
  { unfold reduce_sum, reduce_sum_vector.
    apply fold_left_fadd_In_NaN. exact Hkl. }
  destruct (VarLinear._use_bias self).
  - destruct Hb as (b_mu & g3 & b_rho & g4 & _ & _ & _ & _ & ->).
    unfold VarLinear.kl_divergence, VarLinear._ensure_is_connected.
    cbn [VarLinear.set_connected VarLinear.is_connected
         VarLinear._kl_divergence bind attr].
    rewrite Ekl, fadd_NaN_l. reflexivity.
  - destruct Hb as (_ & _ & ->).
    unfold VarLinear.kl_divergence, VarLinear._ensure_is_connected.
    cbn [VarLinear.set_connected VarLinear.is_connected
         VarLinear._kl_divergence bind attr].
    rewrite Ekl. reflexivity.
Qed.

Lemma fits2_assign_mzip (f : scalar -> scalar -> scalar) (a b : Array matrix)
  (v : Array matrix) :
  fits2 a -> fits2 b -> shape a = shape b -> shape v = shape a ->
  fits2 (assign v (mzip f (value a) (value b))).
Proof.
  intros (r & c & Sa & Ha) (r' & c' & Sb & Hb) E Ev.
  rewrite Sa in E. rewrite Sb in E. injection E as <- <-.
  exists r, c. unfold assign. cbn [shape value].
  split; [congruence | apply has_shape_mzip; assumption].
Qed.

(** What pruning leaves of a weight whose keep-mask is 0. *)
Lemma pruned_layer_has_dead_scale (self pruned : VarLinear.t) (snr : scalar)
  (wm wr : Array matrix) (i j : nat) (m rho : scalar) :
  built_layer self -> well_shaped_layer self ->
  VarLinear._w_mu self = Some wm -> VarLinear._w_rho self = Some wr ->
  entry (value wm) i j = Some m -> entry (value wr) i j = Some rho ->
  keep_mask snr m rho = Real 0 ->
  VarLinear.prune_below_snr self snr = Ok pruned ->
  exists wm' wr' rho',
    VarLinear._w_mu pruned = Some wm' /\ VarLinear._w_rho pruned = Some wr' /\
    fits2 wm' /\ fits2 wr' /\
    entry (value wr') i j = Some rho' /\ dead_scale rho'.
Proof.
  intros Hb Hws Hwm Hwr Em Er Hk Hp.
  destruct (built_layer_fields Hb) as (Hc & _ & _ & Hbias).
  destruct Hws as [Hw _]. rewrite Hwm, Hwr in Hw.
  destruct Hw as (Fm & Fr & Hsh).
  destruct self as [c ish ub out p nw nb owm owr bm br kl].
  cbn [VarLinear.is_connected VarLinear._w_mu VarLinear._w_rho
       VarLinear._use_bias VarLinear._b_mu VarLinear._b_rho] in *.
  subst c owm owr.
  destruct (@prune_layer_result true ish ub out p nw nb wm wr bm br kl snr)
    as (bm' & br' & E & _).
  { intros Hu. destruct (Hbias Hu) as (b1 & b2 & -> & ->).
    split; discriminate. }
  rewrite E in Hp. injection Hp as <-.
  cbn [VarLinear._w_mu VarLinear._w_rho].
  eexists. eexists. exists (pruned_rho snr m rho).
  split; [reflexivity |]. split; [reflexivity |].
  split; [apply fits2_assign_mzip; auto |].
  split; [apply fits2_assign_mzip; auto |].
  split.
  - unfold assign. cbn [value]. apply entry_mzip; assumption.
  - apply pruned_entry. exact Hk.
Qed.

Lemma layer_call_again_succeeds (self : VarLinear.t) (batch : option nat)
  (width : nat) (x : matrix) (g : Rng) :
  takes (Some self) width (VarLinear.output_size self) ->
  VarLinear.width_changed self width = false ->
  exists y self' g',
    VarLinear.__call__ self (mkTensor [batch; Some width] x) g
    = Ok (y, self', g').
Proof.
  cbn [takes]. intros (H1 & H2 & H3 & H4) Hw.
  unfold VarLinear.__call__, VarLinear._build.
  cbn [static_shape List.length Nat.eqb negb nth]. rewrite Hw.
  do 2 get_held_variable.
  destruct (VarLinear._use_bias self).
  - do 2 get_held_variable. eexists. eexists. eexists. reflexivity.
  - eexists. eexists. eexists. reflexivity.
Qed.

Lemma keep_mask_zero_mean (t rho : R) :
  keep_mask (Real t) (Real 0) (Real rho) = Real 0.
Proof.
  rewrite keep_mask_finite.
  destruct (Req_dec_T 0 0) as [_ | N]; [reflexivity | contradiction].
Qed.

Lemma built_weak_layer : built_layer weak_layer /\ well_shaped_layer weak_layer.
Proof.
  split.
  - unfold built_layer, aligned_layer, weak_layer. cbn.
    repeat split; try discriminate; reflexivity.
  - unfold well_shaped_layer, weak_layer, fits2, fits1, has_shape. cbn.
    repeat split; try reflexivity;
      exists 1%nat, 1%nat; repeat split; repeat constructor.
Qed.

(** X5.  Pruning is not undone by pruning again: a weight that a prune has
    pruned is left exactly as it is by every later prune, whatever the
    threshold of that prune.  Its mean stays 0 and its raw scale -inf (NaN
    where the weight was not finite): its ratio |mean| / scale is 0/0, and
    no threshold is below NaN. *)
Theorem pruned_entries_stay_pruned
  (self self1 : VarLinear.t) (snr1 snr2 : scalar) (wm wr : Array matrix)
  (i j : nat) (m rho : scalar) :
  built_layer self ->
  VarLinear._w_mu self = Some wm -> VarLinear._w_rho self = Some wr ->
  entry (value wm) i j = Some m -> entry (value wr) i j = Some rho ->
  keep_mask snr1 m rho = Real 0 ->
  VarLinear.prune_below_snr self snr1 = Ok self1 ->
  exists self2 wm1 wr1 wm2 wr2 m1 rho1,
    VarLinear.prune_below_snr self1 snr2 = Ok self2 /\
    VarLinear._w_mu self1 = Some wm1 /\ VarLinear._w_rho self1 = Some wr1 /\
    VarLinear._w_mu self2 = Some wm2 /\ VarLinear._w_rho self2 = Some wr2 /\
    entry (value wm1) i j = Some m1 /\ entry (value wr1) i j = Some rho1 /\
    (m1 = Real 0 \/ m1 = NaN) /\ dead_scale rho1 /\
    (forall a b : R, m = Real a -> rho = Real b ->
                     m1 = Real 0 /\ rho1 = NInf) /\
    entry (value wm2) i j = Some m1 /\ entry (value wr2) i j = Some rho1.
Proof.
  intros Hb Hwm Hwr Em Er Hk Hp.
  destruct (built_layer_fields Hb) as (Hc & _ & _ & Hbias).
  destruct self as [c ish ub out p nw nb owm owr bm br kl].
  cbn [VarLinear.is_connected VarLinear._w_mu VarLinear._w_rho
       VarLinear._use_bias VarLinear._b_mu VarLinear._b_rho] in *.
  subst c owm owr.
  assert (Hbm : ub = true -> bm <> None /\ br <> None).
  { intros Hu. destruct (Hbias Hu) as (b1 & b2 & -> & ->).
    split; discriminate. }
  destruct (@prune_layer_result true ish ub out p nw nb wm wr bm br kl snr1
              Hbm) as (bm1 & br1 & E1 & Hbb).
  rewrite E1 in Hp. injection Hp as <-.
  assert (Hbm1 : ub = true -> bm1 <> None /\ br1 <> None).
  { intros Hu. subst ub. destruct (Hbias eq_refl) as (b1 & b2 & -> & ->).
    destruct Hbb as [-> ->]. split; discriminate. }
  destruct (@prune_layer_result true ish ub out p nw nb
              (assign wm (mzip (pruned_mean snr1) (value wm) (value wr)))
              (assign wr (mzip (pruned_rho snr1) (value wm) (value wr)))
              bm1 br1 kl snr2 Hbm1) as (bm2 & br2 & E2 & _).
  destruct (pruned_entry _ _ _ Hk) as [Hm1 Hr1].
  destruct (dead_entry_fixed snr2 Hm1 Hr1) as [F1 F2].
  pose proof (entry_mzip (pruned_mean snr1) _ _ _ _ Em Er) as Em1.
  pose proof (entry_mzip (pruned_rho snr1) _ _ _ _ Em Er) as Er1.
  eexists. eexists. eexists. eexists. eexists.
  exists (pruned_mean snr1 m rho), (pruned_rho snr1 m rho).
  split; [exact E2 |].
  cbn [VarLinear._w_mu VarLinear._w_rho].
  split; [reflexivity |]. split; [reflexivity |].
  split; [reflexivity |]. split; [reflexivity |].
  unfold assign. cbn [value].
  split; [exact Em1 |]. split; [exact Er1 |].
  split; [exact Hm1 |]. split; [exact Hr1 |].
  split.
  { intros a b -> ->. unfold pruned_mean, pruned_rho.
    rewrite Hk, softplus_Real. cbn [fmul]. split.
    - apply Real_ext. lra.
    - rewrite <- softplus_inverse_0. f_equal. apply Real_ext. lra. }
  split.
  - pose proof (entry_mzip (pruned_mean snr2) _ _ _ _ Em1 Er1) as G.
    rewrite F1 in G. exact G.
  - pose proof (entry_mzip (pruned_rho snr2) _ _ _ _ Em1 Er1) as G.
    rewrite F2 in G. exact G.
Qed.

Lemma pruned_entries_stay_pruned_witness :
  exists self1 self2 wm2 wr2,
    VarLinear.prune_below_snr weak_layer (Real 10) = Ok self1 /\
    VarLinear.prune_below_snr self1 (Real 0) = Ok self2 /\
    VarLinear._w_mu self2 = Some wm2 /\ VarLinear._w_rho self2 = Some wr2 /\
    entry (value wm2) 0 0 = Some (Real 0) /\
    entry (value wr2) 0 0 = Some NInf.
Proof.
  destruct built_weak_layer as [Hb _].
  destruct (@prune_layer_result true (Some [Some 1%nat; Some 1%nat]) true 1
              standard_normal_prior (Some 1%nat) (Some 1%nat)
              (mkArray [1%nat; 1%nat] [[Real 0]])
              (mkArray [1%nat; 1%nat] [[Real 0]])
              (Some (mkArray [1%nat] [Real 1]))
              (Some (mkArray [1%nat] [Real 0]))
              (Some (Real 0)) (Real 10))
    as (bm' & br' & Hp & _).
  { intros _. split; discriminate. }
  match type of Hp with _ = Ok ?p => set (self1 := p) in * end.
  change (VarLinear.prune_below_snr weak_layer (Real 10) = Ok self1) in Hp.
  destruct (@pruned_entries_stay_pruned weak_layer self1 (Real 10) (Real 0)
              (mkArray [1%nat; 1%nat] [[Real 0]])
              (mkArray [1%nat; 1%nat] [[Real 0]]) 0 0 (Real 0) (Real 0)
              Hb eq_refl eq_refl eq_refl eq_refl (keep_mask_zero_mean 10 0)
              Hp)
    as (self2 & wm1 & wr1 & wm2 & wr2 & m1 & rho1 & E2 & _ & _ & W2 & R2
        & _ & _ & _ & _ & Hfin & Em2 & Er2).
  destruct (Hfin 0%R 0%R eq_refl eq_refl) as [-> ->].
  exists self1, self2, wm2, wr2.
  repeat (split; [assumption |]). exact Er2.
Defined.

(** X18.  Pruning and training do not mix: when [prune_below_snr] prunes
    at least one weight of a layer, every later forward pass of that layer
    stores NaN as its KL term, whatever the input and the noise.  The
    pruned weight has scale softplus(-inf) = 0, and the log-density of a
    normal distribution of scale 0 is NaN. *)
Theorem forward_pass_after_pruning_has_nan_kl
  (self pruned : VarLinear.t) (snr : scalar) (wm wr : Array matrix)
  (i j : nat) (m rho : scalar) (inputs : Tensor) (g : Rng) (y : matrix)
  (self' : VarLinear.t) (g' : Rng) :
  built_layer self -> well_shaped_layer self ->
  VarLinear._w_mu self = Some wm -> VarLinear._w_rho self = Some wr ->
  entry (value wm) i j = Some m -> entry (value wr) i j = Some rho ->
  keep_mask snr m rho = Real 0 ->
  VarLinear.prune_below_snr self snr = Ok pruned ->
  VarLinear.__call__ pruned inputs g = Ok (y, self', g') ->
  VarLinear.kl_divergence self' = Ok NaN.
Proof.
  intros Hb Hws Hwm Hwr Em Er Hk Hp Hcall.
  destruct (@pruned_layer_has_dead_scale self pruned snr wm wr i j m rho
              Hb Hws Hwm Hwr Em Er Hk Hp)
    as (wm' & wr' & rho' & Hwm' & Hwr' & Fm & Fr & Er' & Hd).
  apply (@dead_scale_gives_nan_kl pruned inputs g y self' g' wm' wr' i j rho'
           Hcall Hwm' Hwr' Fm Fr Er' Hd).
Qed.

Lemma forward_pass_after_pruning_has_nan_kl_witness :
  exists pruned y self' g',
    VarLinear.prune_below_snr weak_layer (Real 10) = Ok pruned /\
    VarLinear.__call__ pruned one_feature (constant_rng (Real 0) (Real 1))
    = Ok (y, self', g') /\
    VarLinear.kl_divergence self' = Ok NaN.
Proof.
  destruct built_weak_layer as [Hb Hws].
  destruct (@prune_layer_result true (Some [Some 1%nat; Some 1%nat]) true 1
              standard_normal_prior (Some 1%nat) (Some 1%nat)
              (mkArray [1%nat; 1%nat] [[Real 0]])
              (mkArray [1%nat; 1%nat] [[Real 0]])
              (Some (mkArray [1%nat] [Real 1]))
              (Some (mkArray [1%nat] [Real 0]))
              (Some (Real 0)) (Real 10))
    as (bm' & br' & Hp & Hbb).
  { intros _. split; discriminate. }
  cbn beta iota in Hbb. destruct Hbb as [-> ->].
  fold weak_layer in Hp.
  match type of Hp with _ = Ok ?p => set (pruned := p) in * end.
  destruct (@layer_call_again_succeeds pruned (Some 1%nat) 1 [[Real 1]]
              (constant_rng (Real 0) (Real 1)))
    as (y & self' & g' & Hcall).
  { repeat split. }
  { reflexivity. }
  change (mkTensor [Some 1%nat; Some 1%nat] [[Real 1]]) with one_feature
    in Hcall.
  exists pruned, y, self', g'. split; [exact Hp |]. split; [exact Hcall |].
  apply (@forward_pass_after_pruning_has_nan_kl weak_layer pruned (Real 10)
           (mkArray [1%nat; 1%nat] [[Real 0]])
           (mkArray [1%nat; 1%nat] [[Real 0]]) 0 0 (Real 0) (Real 0)
           one_feature (constant_rng (Real 0) (Real 1)) y self' g'
           Hb Hws eq_refl eq_refl eq_refl eq_refl
           (keep_mask_zero_mean 10 0) Hp Hcall).
Defined.

(** The three layer calls behind one forward pass of a network. *)
Lemma network_call_layers (self : VarEstimator.t) (inputs : Tensor) (g : Rng)
  (y : matrix) (self' : VarEstimator.t) (g' : Rng) :
  VarEstimator.__call__ self inputs g = Ok (y, self', g') ->
  exists n1 n2 n3 t1 t2 t3 ga gb gc y1 y2 y3 l1 l2 l3 g1 g2 g3,
    VarEstimator._layers self' = [l1; l2; l3] /\
    VarLinear.__call__
      (VarEstimator.new_layer n1 (VarEstimator.prior self)
         (nth_error (VarEstimator._layers self) 0)) t1 ga = Ok (y1, l1, g1) /\
    VarLinear.__call__
      (VarEstimator.new_layer n2 (VarEstimator.prior self)
         (nth_error (VarEstimator._layers self) 1)) t2 gb = Ok (y2, l2, g2) /\
    VarLinear.__call__
      (VarEstimator.new_layer n3 (VarEstimator.prior self)
         (nth_error (VarEstimator._layers self) 2)) t3 gc = Ok (y3, l3, g3).
Proof.
  unfold VarEstimator.__call__, VarEstimator._build. intros H.
  destruct (VarEstimator.layer_sizes (VarEstimator.arch self))
    as [[[n1 n2] n3] |]; [| discriminate].
  cbn [bind fst snd] in H.
  destruct (BatchFlatten inputs) as [flat |]; [| discriminate].
  cbn [bind] in H.
  destruct (VarEstimator.select_inputs (VarEstimator.arch self) flat)
    as [sel |]; [| discriminate].
  cbn [bind] in H.
  destruct (VarLinear.__call__ (VarEstimator.new_layer n1 _ _) _ g)
    as [[[y1 l1] g1] |] eqn:E1; [| discriminate].
  cbn [bind fst snd] in H.
  destruct (VarLinear.__call__ (VarEstimator.new_layer n2 _ _) _ g1)
    as [[[y2 l2] g2] |] eqn:E2; [| discriminate].
  cbn [bind fst snd] in H.
  destruct (VarLinear.__call__ (VarEstimator.new_layer n3 _ _) _ g2)
    as [[[y3 l3] g3] |] eqn:E3; [| discriminate].
  cbn [bind fst snd] in H. injection H as <- <- <-.
  do 18 eexists. split; [reflexivity |].
  split; [exact E1 |]. split; [exact E2 | exact E3].
Qed.

Lemma new_layer_weights (out : nat) (p : Distribution) (old : VarLinear.t) :
  VarLinear._w_mu (VarEstimator.new_layer out p (Some old))
  = VarLinear._w_mu old /\
  VarLinear._w_rho (VarEstimator.new_layer out p (Some old))
  = VarLinear._w_rho old.
Proof. split; reflexivity. Qed.

(** X19.  When [prune_below_snr] prunes at least one weight of a network,
    the KL divergence of the network is NaN after every later forward
    pass: the objective of training, which adds the KL divergence to the
    likelihood term, is NaN from then on. *)
Theorem network_kl_after_pruning_is_nan
  (self pruned : VarEstimator.t) (snr : scalar) (k : nat)
  (layer : VarLinear.t) (wm wr : Array matrix) (i j : nat) (m rho : scalar)
  (inputs : Tensor) (g : Rng) (y : matrix) (self' : VarEstimator.t)
  (g' : Rng) :
  built_network self ->
  Forall well_shaped_layer (VarEstimator._layers self) ->
  (k < 3)%nat ->
  nth_error (VarEstimator._layers self) k = Some layer ->
  VarLinear._w_mu layer = Some wm -> VarLinear._w_rho layer = Some wr ->
  entry (value wm) i j = Some m -> entry (value wr) i j = Some rho ->
  keep_mask snr m rho = Real 0 ->
  VarEstimator.prune_below_snr self snr = Ok pruned ->
  VarEstimator.__call__ pruned inputs g = Ok (y, self', g') ->
  VarEstimator.kl_divergence self' = Ok NaN.
Proof.
  intros Hb Hws Hk Hn Hwm Hwr Em Er Hmask Hp Hcall.
  pose proof Hb as (Hc & _ & Hl).
  assert (Hbl : built_layer layer).
  { rewrite Forall_forall in Hl. apply (Hl layer (nth_error_In _ _ Hn)). }
  assert (Hwl : well_shaped_layer layer).
  { rewrite Forall_forall in Hws. apply (Hws layer (nth_error_In _ _ Hn)). }
  destruct (@prune_keeps_network_built self snr Hb) as (pruned' & Hp' & Hb' & _).
  rewrite Hp in Hp'. injection Hp' as <-.
  unfold VarEstimator.prune_below_snr, VarEstimator._ensure_is_connected in Hp.
  rewrite Hc in Hp. cbn [bind] in Hp.
  destruct (mapM (fun layer => VarLinear.prune_below_snr layer snr)
                 (VarEstimator._layers self)) as [layers' |] eqn:HM;
    [| discriminate].
  cbn [bind] in Hp. injection Hp as <-.
  destruct (mapM_nth_error _ _ k HM Hn) as (pl & Hpl & Hprune).
  destruct (@pruned_layer_has_dead_scale layer pl snr wm wr i j m rho
              Hbl Hwl Hwm Hwr Em Er Hmask Hprune)
    as (wm' & wr' & rho' & Hwm' & Hwr' & Fm & Fr & Er' & Hd).
  assert (Hal : Forall aligned_layer
                  (VarEstimator._layers (VarEstimator.set_layers self layers'))).
  { destruct Hb' as (_ & _ & Hl'). eapply Forall_impl; [| exact Hl'].
    intros a [(_ & _ & _ & _ & Ha) _]. exact Ha. }
  destruct (@forward_pass_sums_three_kls _ inputs g y self' g' Hal Hcall)
    as (l1 & l2 & l3 & k1 & k2 & k3 & El & K1 & K2 & K3 & Ekl).
  destruct (network_call_layers _ _ _ Hcall)
    as (n1 & n2 & n3 & t1 & t2 & t3 & ga & gb & gc & y1 & y2 & y3
        & l1' & l2' & l3' & g1 & g2 & g3 & El' & E1 & E2 & E3).
  rewrite El in El'. injection El' as <- <- <-.
  cbn [VarEstimator.set_layers VarEstimator._layers VarEstimator.prior]
    in E1, E2, E3.
  rewrite Ekl. f_equal.
  destruct k as [| [| [| k]]]; [| | | lia].
  - rewrite Hpl in E1.
    destruct (new_layer_weights n1 (VarEstimator.prior self) pl) as [W1 W2].
    rewrite Hwm' in W1. rewrite Hwr' in W2.
    pose proof (@dead_scale_gives_nan_kl _ _ _ _ _ _ wm' wr' i j rho'
                  E1 W1 W2 Fm Fr Er' Hd) as N.
    rewrite K1 in N. injection N as ->.
    rewrite fadd_NaN_r, !fadd_NaN_l. reflexivity.
  - rewrite Hpl in E2.
    destruct (new_layer_weights n2 (VarEstimator.prior self) pl) as [W1 W2].
    rewrite Hwm' in W1. rewrite Hwr' in W2.
    pose proof (@dead_scale_gives_nan_kl _ _ _ _ _ _ wm' wr' i j rho'
                  E2 W1 W2 Fm Fr Er' Hd) as N.
    rewrite K2 in N. injection N as ->.
    rewrite fadd_NaN_r, fadd_NaN_l. reflexivity.
  - rewrite Hpl in E3.
    destruct (new_layer_weights n3 (VarEstimator.prior self) pl) as [W1 W2].
    rewrite Hwm' in W1. rewrite Hwr' in W2.
    pose proof (@dead_scale_gives_nan_kl _ _ _ _ _ _ wm' wr' i j rho'
                  E3 W1 W2 Fm Fr Er' Hd) as N.
    rewrite K3 in N. injection N as ->.
    apply fadd_NaN_r.
Qed.

Lemma network_kl_after_pruning_is_nan_witness :
  exists pruned y self' g',
    VarEstimator.prune_below_snr weak_network (Real 10) = Ok pruned /\
    VarEstimator.__call__ pruned one_feature (constant_rng (Real 0) (Real 1))
    = Ok (y, self', g') /\
    VarEstimator.kl_divergence self' = Ok NaN.
Proof.
  destruct built_weak_layer as [Hb Hws].
  assert (Hbn : built_network weak_network).
  { split; [reflexivity |]. split; [discriminate |].
    repeat (apply Forall_cons; [split; [exact Hb | reflexivity] |]).
    apply Forall_nil. }
  assert (Hwn : Forall well_shaped_layer (VarEstimator._layers weak_network)).
  { repeat (apply Forall_cons; [exact Hws |]). apply Forall_nil. }
  destruct (@prune_layer_result true (Some [Some 1%nat; Some 1%nat]) true 1
              standard_normal_prior (Some 1%nat) (Some 1%nat)
              (mkArray [1%nat; 1%nat] [[Real 0]])
              (mkArray [1%nat; 1%nat] [[Real 0]])
              (Some (mkArray [1%nat] [Real 1]))
              (Some (mkArray [1%nat] [Real 0]))
              (Some (Real 0)) (Real 10))
    as (bm' & br' & Hp & Hbb).
  { intros _. split; discriminate. }
  cbn beta iota in Hbb. destruct Hbb as [-> ->].
  match type of Hp with _ = Ok ?p => set (pl := p) in * end.
  change (VarLinear.prune_below_snr weak_layer (Real 10) = Ok pl) in Hp.
  assert (Hpn : VarEstimator.prune_below_snr weak_network (Real 10)
                = Ok (VarEstimator.set_layers weak_network [pl; pl; pl])).
  { unfold VarEstimator.prune_below_snr, VarEstimator._ensure_is_connected.
    cbn [weak_network VarEstimator.is_connected VarEstimator._layers bind
         mapM].
    rewrite Hp. reflexivity. }
  assert (Hwp : well_shaped_layer pl).
  { unfold well_shaped_layer, pl, fits2, fits1, has_shape, assign.
    cbn [VarLinear._w_mu VarLinear._w_rho VarLinear._b_mu VarLinear._b_rho
         shape value mzip zipWith List.length].
    repeat split; try reflexivity;
      exists 1%nat, 1%nat; repeat split; repeat constructor. }
  destruct (@network_call_accepts
              (VarEstimator.set_layers weak_network [pl; pl; pl]) one_feature
              (Some 1%nat) [Some 1%nat] 1 (constant_rng (Real 0) (Real 1)))
    as (y & self' & g' & Hcall & _).
  { exact I. }
  { split.
    - repeat (apply Forall_cons; [exact Hwp |]). apply Forall_nil.
    - exists 1%nat, 1%nat, 1%nat. repeat split. }
  { reflexivity. }
  { reflexivity. }
  exists (VarEstimator.set_layers weak_network [pl; pl; pl]), y, self', g'.
  split; [exact Hpn |]. split; [exact Hcall |].
  apply (@network_kl_after_pruning_is_nan weak_network
           (VarEstimator.set_layers weak_network [pl; pl; pl]) (Real 10) 0
           weak_layer (mkArray [1%nat; 1%nat] [[Real 0]])
           (mkArray [1%nat; 1%nat] [[Real 0]]) 0 0 (Real 0) (Real 0)
           one_feature (constant_rng (Real 0) (Real 1)) y self' g'
           Hbn Hwn).
  - lia.
  - reflexivity.
  - reflexivity.
  - reflexivity.
  - reflexivity.
  - reflexivity.
  - apply keep_mask_zero_mean.
  - exact Hpn.
  - exact Hcall.
Defined.

(** ** The categorical likelihood term *)

Lemma Rsum_exp_pos (row : list R) : row <> [] -> (0 < Rsum (map exp row))%R.
Proof.
  destruct row as [| l row]; [contradiction |]. intros _.
  cbn [map Rsum fold_right].
  assert (H : (0 <= fold_right Rplus 0 (map exp row))%R).
  { induction row as [| x row IH]; cbn [map fold_right]; [lra |].
    pose proof (exp_pos x). lra. }
  pose proof (exp_pos l). lra.
Qed.

Lemma exp_le_Rsum_exp (row : list R) (class : nat) :
  (class < List.length row)%nat ->
  (exp (nth class row 0) <= Rsum (map exp row))%R.
Proof.
  revert class. induction row as [| l row IH]; intros class H;
    [cbn in H; lia |].
  assert (Hs : (0 <= Rsum (map exp row))%R).
  { destruct row as [| x row']; [cbn; lra |].
    apply Rlt_le, Rsum_exp_pos. discriminate. }
  cbn [map Rsum fold_right]. fold (Rsum (map exp row)).
  destruct class as [| class]; cbn [nth].
  - lra.
  - cbn [List.length] in H. specialize (IH class ltac:(lia)).
    pose proof (exp_pos l). lra.
Qed.

Lemma reduce_logsumexp_finite (row : list R) :
  row <> [] ->
  reduce_logsumexp (map Real row) = Real (ln (Rsum (map exp row))).
Proof.
  intros H. unfold reduce_logsumexp, reduce_sum_vector.
  rewrite map_map. cbn [fexp].
  rewrite <- (map_map exp Real), fold_left_fadd_Real.
  rewrite Rplus_0_l. apply flog_Real_pos, Rsum_exp_pos, H.
Qed.

Lemma cross_entropy_finite (row : list R) (class : nat) :
  (class < List.length row)%nat ->
  fneg (nth class (log_softmax (map Real row)) NaN)
  = Real (- ln (softmax_probability row class)).
Proof.
  intros H.
  assert (Hne : row <> []) by (destruct row; [cbn in H; lia | discriminate]).
  unfold log_softmax. rewrite (reduce_logsumexp_finite Hne), map_map.
  unfold fsub. cbn [fneg fadd].
  rewrite (nth_indep _ NaN
             (Real (0 + - ln (Rsum (map exp row)))))
    by (rewrite length_map; exact H).
  rewrite (map_nth (fun x => Real (x + - ln (Rsum (map exp row)))) row 0%R).
  cbn [fneg]. apply Real_ext. unfold softmax_probability, Rdiv.
  pose proof (Rsum_exp_pos Hne) as Hs.
  rewrite ln_mult; [| apply exp_pos | apply Rinv_0_lt_compat; exact Hs].
  rewrite ln_exp, ln_Rinv by exact Hs. reflexivity.
Qed.

Lemma softmax_probability_bounds (row : list R) (class : nat) :
  (class < List.length row)%nat ->
  (0 < softmax_probability row class <= 1)%R.
Proof.
  intros H.
  assert (Hne : row <> []) by (destruct row; [cbn in H; lia | discriminate]).
  pose proof (Rsum_exp_pos Hne) as Hs.
  pose proof (exp_le_Rsum_exp row H) as Hle.
  pose proof (exp_pos (nth class row 0%R)) as He.
  unfold softmax_probability. split.
  - apply Rdiv_lt_0_compat; assumption.
  - apply Rmult_le_reg_r with (r := Rsum (map exp row)); [exact Hs |].
    unfold Rdiv. rewrite Rmult_assoc, Rinv_l by lra. lra.
Qed.

(** The losses of a batch of finite logits with labels in range. *)
Lemma cross_entropy_rows (num_classes : nat) :
  forall (rows_ : list (list R)) (classes : list nat),
    List.length classes = List.length rows_ ->
    Forall (fun row => List.length row = num_classes) rows_ ->
    Forall (fun class => (class < num_classes)%nat) classes ->
    mapM (fun example : Z * vector =>
            class <- class_index num_classes (fst example) ;;
            Ok (fneg (nth class (log_softmax (snd example)) NaN)))
         (combine (map Z.of_nat classes) (map (map Real) rows_))
    = Ok (map Real
            (zipWith (fun row class => (- ln (softmax_probability row class))%R)
                     rows_ classes)).
Proof.
  induction rows_ as [| row rows_ IH]; intros [| class classes] Hl Hr Hc;
    try discriminate; [reflexivity |].
  inversion Hr; subst. inversion Hc; subst.
  cbn [map combine mapM zipWith fst snd].
  unfold class_index at 1.
  replace ((0 <=? Z.of_nat class)%Z && (Z.of_nat class <? Z.of_nat
             (List.length row))%Z) with true
    by (symmetry; apply andb_true_intro; split;
        [apply Z.leb_le; lia | apply Z.ltb_lt; lia]).
  cbn [bind]. rewrite Nat2Z.id.
  rewrite cross_entropy_finite by assumption.
  rewrite IH; [reflexivity | cbn in Hl; congruence | assumption .. ].
Qed.

Lemma Rsum_nonneg (l : list R) :
  Forall (fun x => (0 <= x)%R) l -> (0 <= Rsum l)%R.
Proof.
  induction 1 as [| x l Hx _ IH]; cbn [Rsum fold_right]; [lra |].
  unfold Rsum in IH. lra.
Qed.

(** X20.  For finite logits of shape [n, num_classes] and one label in
    [0, num_classes) per example, the categorical likelihood term is the
    sum over the batch (not the mean) of minus the logarithm of the softmax
    probability of each example's label; it is never negative. *)
Theorem categorical_likelihood_is_summed_cross_entropy
  (logits : Array matrix) (labels : Array (list Z)) (n num_classes : nat)
  (rows_ : list (list R)) (classes : list nat) :
  shape logits = [n; num_classes] ->
  shape labels = [n] ->
  value logits = map (map Real) rows_ ->
  value labels = map Z.of_nat classes ->
  List.length classes = List.length rows_ ->
  Forall (fun row => List.length row = num_classes) rows_ ->
  Forall (fun class => (class < num_classes)%nat) classes ->
  exists v : R,
    neg_log_prob_with_categorical logits labels = Ok (Real v) /\
    v = Rsum (zipWith (fun row class => (- ln (softmax_probability row class))%R)
                      rows_ classes) /\
    (0 <= v)%R.
Proof.
  intros Hs Hl Hv Hc Hlen Hr Hcl.
  eexists. split; [| split; [reflexivity |]].
  - unfold neg_log_prob_with_categorical,
      sparse_softmax_cross_entropy_with_logits.
    rewrite Hs, Hl, Hv, Hc.
    destruct (list_eq_dec Nat.eq_dec [n] [n]) as [_ | N]; [| contradiction].
    rewrite (cross_entropy_rows Hlen Hr Hcl). cbn [bind].
    unfold reduce_sum_vector. rewrite fold_left_fadd_Real.
    f_equal. apply Real_ext. lra.
  - apply Rsum_nonneg. clear Hs Hl Hv Hc.
    revert classes Hlen Hcl.
    induction Hr as [| row rows_ Hrow _ IH]; intros [| class classes] Hlen Hcl;
      try discriminate; [constructor |].
    inversion Hcl; subst. cbn [zipWith]. constructor.
    + destruct (@softmax_probability_bounds row class) as [Hp Hone];
        [congruence |].
      assert (H : (ln (softmax_probability row class) <= 0)%R).
      { rewrite <- ln_1.
        destruct (Rle_lt_or_eq_dec _ _ Hone) as [Hlt | ->]; [| lra].
        apply Rlt_le, ln_increasing; assumption. }
      lra.
    + apply IH; [cbn in Hlen; congruence | assumption].
Qed.

Lemma categorical_likelihood_is_summed_cross_entropy_witness :
  exists v : R,
    neg_log_prob_with_categorical two_examples two_classes = Ok (Real v) /\
    (0 <= v)%R.
Proof.
  destruct (@categorical_likelihood_is_summed_cross_entropy two_examples
              two_classes 2 3 [[0; 1; 2]; [5; 5; 5]]%R [2; 0]%nat)
    as (v & E & _ & Hv).
  - reflexivity.
  - reflexivity.
  - reflexivity.
  - reflexivity.
  - reflexivity.
  - repeat constructor.
  - repeat constructor.
  - exists v. split; [exact E | exact Hv].
Defined.

(** ** Forward passes do not touch the parameters *)

Lemma get_variable_keeps {A : Type} (v : Array A) (shp : list nat)
  (initializer : Rng -> A * Rng) (g : Rng) (v' : Array A) (g' : Rng) :
  get_variable (Some v) shp initializer g = Ok (v', g') -> v' = v.
Proof.
  intros H. apply get_variable_shape in H.
  destruct H as [_ [H | [H _]]]; [| discriminate].
  injection H as ->. reflexivity.
Qed.

(** A forward pass of a layer that has its variables keeps them. *)
Lemma layer_call_keeps_variables (self : VarLinear.t) (inputs : Tensor)
  (g : Rng) (y : matrix) (self' : VarLinear.t) (g' : Rng) :
  VarLinear.__call__ self inputs g = Ok (y, self', g') ->
  VarLinear._w_mu self <> None -> VarLinear._w_rho self <> None ->
  VarLinear._b_mu self <> None -> VarLinear._b_rho self <> None ->
  layer_variables self' = layer_variables self.
Proof.
  unfold VarLinear.__call__. intros H N1 N2 N3 N4.
  destruct (VarLinear._build self inputs g) as [[[y0 s0] g0] |] eqn:Hb;
    [| discriminate].
  cbn [bind fst snd] in H. injection H as <- <- <-.
  apply _build_inversion in Hb.
  destruct Hb as (width & w_mu & g1 & w_rho & g2 & _ & _ & _ & Hb).
  cbv zeta in Hb. destruct Hb as (E1 & E2 & Hb).
  destruct (VarLinear._w_mu self) as [wm |] eqn:F1; [| congruence].
  destruct (VarLinear._w_rho self) as [wr |] eqn:F2; [| congruence].
  destruct (VarLinear._b_mu self) as [bm |] eqn:F3; [| congruence].
  destruct (VarLinear._b_rho self) as [br |] eqn:F4; [| congruence].
  apply get_variable_keeps in E1, E2. subst w_mu w_rho.
  unfold layer_variables.
  destruct (VarLinear._use_bias self).
  - destruct Hb as (b_mu & g3 & b_rho & g4 & E3 & E4 & _ & _ & ->).
    apply get_variable_keeps in E3, E4. subst b_mu b_rho.
    cbn [VarLinear.set_connected VarLinear._w_mu VarLinear._w_rho
         VarLinear._b_mu VarLinear._b_rho].
    rewrite F1, F2, F3, F4. reflexivity.
  - destruct Hb as (_ & _ & ->).
    cbn [VarLinear.set_connected VarLinear._w_mu VarLinear._w_rho
         VarLinear._b_mu VarLinear._b_rho].
    rewrite F1, F2, F3, F4. reflexivity.
Qed.

Lemma built_layer_has_variables (layer : VarLinear.t) :
  built_layer layer -> VarLinear._use_bias layer = true ->
  VarLinear._w_mu layer <> None /\ VarLinear._w_rho layer <> None /\
  VarLinear._b_mu layer <> None /\ VarLinear._b_rho layer <> None.
Proof.
  intros Hb Hu.
  destruct (built_layer_fields Hb) as (_ & (wm & wr & -> & ->) & _ & Hbias).
  destruct (Hbias Hu) as (bm & br & -> & ->).
  repeat split; discriminate.
Qed.

Lemma new_layer_variables (out : nat) (p : Distribution) (old : VarLinear.t) :
  layer_variables (VarEstimator.new_layer out p (Some old))
  = layer_variables old.
Proof. reflexivity. Qed.

(** A forward pass of a network of three built layers keeps the variables
    of every layer. *)
Lemma network_call_keeps_variables (self : VarEstimator.t) (inputs : Tensor)
  (g : Rng) (y : matrix) (self' : VarEstimator.t) (g' : Rng) :
  built_network self ->
  List.length (VarEstimator._layers self) = 3%nat ->
  VarEstimator.__call__ self inputs g = Ok (y, self', g') ->
  variables self' = variables self /\
  built_network self' /\
  List.length (VarEstimator._layers self') = 3%nat /\
  VarEstimator.arch self' = VarEstimator.arch self.
Proof.
  intros Hb Hlen Hcall.
  pose proof Hb as (_ & _ & Hl).
  assert (Hal : Forall aligned_layer (VarEstimator._layers self)).
  { eapply Forall_impl; [| exact Hl].
    intros a [(_ & _ & _ & _ & Ha) _]. exact Ha. }
  destruct (@call_builds_network self inputs g y self' g' Hal Hcall)
    as (Hb' & Hlen').
  assert (Harch : VarEstimator.arch self' = VarEstimator.arch self).
  { revert Hcall. unfold VarEstimator.__call__, VarEstimator._build.
    intros H.
    destruct (VarEstimator.layer_sizes _) as [[[n1 n2] n3] |];
      [| discriminate].
    cbn [bind fst snd] in H.
    destruct (BatchFlatten inputs) as [flat |]; [| discriminate].
    cbn [bind] in H.
    destruct (VarEstimator.select_inputs _ flat) as [sel |]; [| discriminate].
    cbn [bind] in H.
    destruct (VarLinear.__call__ _ _ g) as [[[y1 l1] g1] |]; [| discriminate].
    cbn [bind fst snd] in H.
    destruct (VarLinear.__call__ _ _ g1) as [[[y2 l2] g2] |];
      [| discriminate].
    cbn [bind fst snd] in H.
    destruct (VarLinear.__call__ _ _ g2) as [[[y3 l3] g3] |];
      [| discriminate].
    cbn [bind fst snd] in H. injection H as _ <- _. reflexivity. }
  split; [| split; [exact Hb' | split; [exact Hlen' | exact Harch]]].
  destruct (network_call_layers _ _ _ Hcall)
    as (n1 & n2 & n3 & t1 & t2 & t3 & ga & gb & gc & y1 & y2 & y3
        & l1 & l2 & l3 & g1 & g2 & g3 & El & E1 & E2 & E3).
  destruct (VarEstimator._layers self) as [| o1 [| o2 [| o3 [| o4 os]]]]
    eqn:Eo; try discriminate.
  inversion Hl as [| ? ? [B1 U1] Hl1]; subst.
  inversion Hl1 as [| ? ? [B2 U2] Hl2]; subst.
  inversion Hl2 as [| ? ? [B3 U3] _]; subst.
  cbn [nth_error] in E1, E2, E3.
  destruct (built_layer_has_variables B1 U1) as (A1 & A2 & A3 & A4).
  destruct (built_layer_has_variables B2 U2) as (C1 & C2 & C3 & C4).
  destruct (built_layer_has_variables B3 U3) as (D1 & D2 & D3 & D4).
  apply layer_call_keeps_variables in E1; try assumption.
  apply layer_call_keeps_variables in E2; try assumption.
  apply layer_call_keeps_variables in E3; try assumption.
  unfold variables. rewrite El, Eo. cbn [map]. rewrite E1, E2, E3.
  reflexivity.
Qed.

Lemma thompson_sampling_keeps_variables (no_eat_action eat_action : Tensor) :
  forall (rounds : nat) (agent : VarEstimator.t) (ne ea : rewards) (g : Rng)
         (ne' ea' : rewards) (agent' : VarEstimator.t) (g' : Rng),
    built_network agent ->
    List.length (VarEstimator._layers agent) = 3%nat ->
    thompson_sampling rounds agent no_eat_action eat_action ne ea g
    = Ok (ne', ea', agent', g') ->
    variables agent' = variables agent /\ built_network agent'.
Proof.
  induction rounds as [| rounds IH];
    intros agent ne ea g ne' ea' agent' g' Hb Hlen H;
    cbn [thompson_sampling] in H.
  - injection H as _ _ <- _. split; [reflexivity | exact Hb].
  - destruct (VarEstimator.__call__ agent no_eat_action g)
      as [[[y1 a1] g1] |] eqn:E1; [| discriminate].
    cbn [bind fst snd] in H.
    destruct (VarEstimator.__call__ a1 eat_action g1)
      as [[[y2 a2] g2] |] eqn:E2; [| discriminate].
    cbn [bind fst snd] in H.
    destruct (@network_call_keeps_variables _ _ _ _ _ _ Hb Hlen E1)
      as (V1 & B1 & L1 & _).
    destruct (@network_call_keeps_variables _ _ _ _ _ _ B1 L1 E2)
      as (V2 & B2 & L2 & _).
    destruct (IH _ _ _ _ _ _ _ _ B2 L2 H) as (V & B).
    split; [congruence | exact B].
Qed.

Lemma parameters_of_variables (self self' : VarEstimator.t) :
  variables self' = variables self -> parameters self' = parameters self.
Proof.
  unfold variables, parameters. intros H.
  assert (W : forall ls ls',
             map layer_variables ls' = map layer_variables ls ->
             map layer_weight_params ls' = map layer_weight_params ls /\
             map layer_bias_params ls' = map layer_bias_params ls).
  { induction ls as [| l ls IH]; intros [| l' ls'] E; try discriminate.
    - split; reflexivity.
    - cbn [map] in E. injection E as E1 E2 E3 E4 E.
      destruct (IH ls' E) as [Ew Eb]. cbn [map].
      unfold layer_weight_params at 1 3. unfold layer_bias_params at 1 3.
      rewrite E1, E2, E3, E4, Ew, Eb. split; reflexivity. }
  destruct (W _ _ H) as [Ew Eb]. rewrite Ew, Eb. reflexivity.
Qed.

(** X21.  Choosing an action does not train the agent: for a built agent
    of three layers, whatever [get_action] returns, the agent afterwards
    holds the same variables as before, so the means and the scales of all
    its parameters are unchanged, and it is still built. *)
Theorem get_action_keeps_the_parameters
  (agent : VarEstimator.t) (context : Array matrix) (epsilon : scalar)
  (rounds : nat) (g : Rng) (np : NumpyRandom) (actions : list nat)
  (agent' : VarEstimator.t) (g' : Rng) (np' : NumpyRandom) :
  built_network agent ->
  List.length (VarEstimator._layers agent) = 3%nat ->
  get_action agent context epsilon rounds g np
  = Ok (actions, agent', g', np') ->
  variables agent' = variables agent /\
  parameters agent' = parameters agent /\
  built_network agent'.
Proof.
  intros Hb Hlen. unfold get_action. intros H.
  destruct (shape context) as [| n [| d [| ? ?]]]; try discriminate.
  destruct (thompson_sampling rounds agent _ _ _ _ g)
    as [[[[ne ea] a1] g1] |] eqn:Et; [| discriminate].
  cbn [bind fst snd] in H.
  destruct (hstack_rewards ne ea) as [rw |]; [| discriminate].
  cbn [bind] in H.
  destruct (mapM argmax rw) as [act |]; [| discriminate].
  cbn [bind] in H.
  destruct (Nat.eqb (List.length act) n); [| discriminate].
  injection H as _ <- _ _.
  destruct (@thompson_sampling_keeps_variables _ _ _ _ _ _ _ _ _ _ _
              Hb Hlen Et) as [V B].
  split; [exact V |]. split; [apply parameters_of_variables; exact V |].
  exact B.
Qed.

Lemma built_wide_layer : built_layer wide_layer /\ well_shaped_layer wide_layer.
Proof.
  split.
  - unfold built_layer, aligned_layer, wide_layer. cbn.
    repeat split; try discriminate; reflexivity.
  - unfold well_shaped_layer, wide_layer, fits2, fits1, has_shape. cbn.
    repeat split; try reflexivity;
      exists 3%nat, 1%nat; repeat split; repeat constructor.
Qed.

Lemma get_action_keeps_the_parameters_witness :
  exists actions agent' g' np',
    get_action built_agent one_context (Real 0) 1
               (constant_rng (Real 0) (Real 1)) half_draws
    = Ok (actions, agent', g', np') /\
    parameters agent' = parameters built_agent.
Proof.
  destruct built_weak_layer as [Hb Hws].
  destruct built_wide_layer as [Hb3 Hws3].
  destruct (@get_action_unfolded built_agent one_context (Real 0) 1
              (constant_rng (Real 0) (Real 1)) half_draws 1 1)
    as (m1 & m2 & agent' & g' & greedy & _ & _ & _ & _ & _ & _ & _ & _ & E).
  - exact I.
  - reflexivity.
  - split.
    + apply Forall_cons; [exact Hws3 |].
      repeat (apply Forall_cons; [exact Hws |]). apply Forall_nil.
    + exists 1%nat, 1%nat, 1%nat. repeat split.
  - reflexivity.
  - reflexivity.
  - lia.
  - eexists. exists agent', g'. eexists. split; [exact E |].
    eapply (@get_action_keeps_the_parameters built_agent one_context (Real 0)
              1 (constant_rng (Real 0) (Real 1)) half_draws).
    + split; [reflexivity |]. split; [discriminate |].
      apply Forall_cons; [split; [exact Hb3 | reflexivity] |].
      repeat (apply Forall_cons; [split; [exact Hb | reflexivity] |]).
      apply Forall_nil.
    + reflexivity.
    + exact E.
Defined.

(** X22.  A forward pass never changes the parameters of a built network
    of three layers: the three layer objects it makes hold the very
    variables of the layers they replace, so every mean and every scale is
    what it was, and the network is still built. *)
Theorem forward_pass_keeps_the_parameters (self : VarEstimator.t)
  (inputs : Tensor) (g : Rng) (y : matrix) (self' : VarEstimator.t)
  (g' : Rng) :
  built_network self ->
  List.length (VarEstimator._layers self) = 3%nat ->
  VarEstimator.__call__ self inputs g = Ok (y, self', g') ->
  variables self' = variables self /\
  parameters self' = parameters self /\
  built_network self' /\
  List.length (VarEstimator._layers self') = 3%nat.
Proof.
  intros Hb Hlen Hcall.
  destruct (@network_call_keeps_variables self inputs g y self' g'
              Hb Hlen Hcall) as (V & B & L & _).
  split; [exact V |]. split; [apply parameters_of_variables; exact V |].
  split; [exact B | exact L].
Qed.

Lemma forward_pass_keeps_the_parameters_witness :
  exists y self' g',
    VarEstimator.__call__ weak_network one_feature
                          (constant_rng (Real 0) (Real 1))
    = Ok (y, self', g') /\
    parameters self' = parameters weak_network.
Proof.
  destruct built_weak_layer as [Hb Hws].
  destruct (@network_call_accepts weak_network one_feature (Some 1%nat)
              [Some 1%nat] 1 (constant_rng (Real 0) (Real 1)))
    as (y & self' & g' & Hcall & _).
  - exact I.
  - split.
    + repeat (apply Forall_cons; [exact Hws |]). apply Forall_nil.
    + exists 1%nat, 1%nat, 1%nat. repeat split.
  - reflexivity.
  - reflexivity.
  - exists y, self', g'. split; [exact Hcall |].
    apply (@forward_pass_keeps_the_parameters weak_network one_feature
             (constant_rng (Real 0) (Real 1)) y self' g').
    + split; [reflexivity |]. split; [discriminate |].
      repeat (apply Forall_cons; [split; [exact Hb | reflexivity] |]).
      apply Forall_nil.
    + reflexivity.
    + exact Hcall.
Defined.

(** ** Later batches *)

Lemma get_variable_other_shape {A : Type} (v : Array A) (shp : list nat)
  (initializer : Rng -> A * Rng) (g : Rng) :
  shape v <> shp -> get_variable (Some v) shp initializer g = Raise ValueError.
Proof.
  intros N. unfold get_variable.
  destruct (list_eq_dec Nat.eq_dec shp (shape v)) as [E | _];
    [congruence | reflexivity].
Qed.

(** The first layer of a task network after a forward pass on inputs of
    [width] features holds a mean of shape [width, n1]. *)
Lemma first_layer_after_call (self : VarEstimator.t) (inputs : Tensor)
  (batch : option nat) (rest : list (option nat)) (width : nat) (g : Rng)
  (y : matrix) (self' : VarEstimator.t) (g' : Rng) :
  task_network (VarEstimator.arch self) ->
  static_shape inputs = batch :: rest ->
  prod_dims rest = Some width ->
  VarEstimator.__call__ self inputs g = Ok (y, self', g') ->
  exists n1 n2 l1 l2 l3 m,
    VarEstimator.layer_sizes (VarEstimator.arch self')
    = Ok (n1, n2, out_dim (VarEstimator.arch self)) /\
    VarEstimator.arch self' = VarEstimator.arch self /\
    VarEstimator._layers self' = [l1; l2; l3] /\
    VarLinear._w_mu l1 = Some m /\ shape m = [width; n1].
Proof.
  intros Ha Hsh Hw. unfold VarEstimator.__call__, VarEstimator._build.
  intros H.
  destruct (task_network_sizes _ Ha) as ((n1 & n2 & Hs) & Hsel).
  rewrite Hs in H. cbn [bind fst snd] in H.
  unfold BatchFlatten in H. rewrite Hsh in H.
  cbn [bind] in H. rewrite Hw, Hsel in H. cbn [bind] in H.
  destruct (VarLinear.__call__ (VarEstimator.new_layer n1 _ _) _ g)
    as [[[y1 l1] g1] |] eqn:E1; [| discriminate].
  cbn [bind fst snd] in H.
  destruct (VarLinear.__call__ (VarEstimator.new_layer n2 _ _) _ g1)
    as [[[y2 l2] g2] |] eqn:E2; [| discriminate].
  cbn [bind fst snd] in H.
  destruct (VarLinear.__call__ (VarEstimator.new_layer _ _ _) _ g2)
    as [[[y3 l3] g3] |] eqn:E3; [| discriminate].
  cbn [bind fst snd] in H. injection H as <- <- <-.
  unfold VarLinear.__call__ in E1.
  destruct (VarLinear._build _ _ g) as [[[ya sa] ga] |] eqn:Hb;
    [| discriminate].
  cbn [bind fst snd] in E1. injection E1 as <- <- <-.
  apply _build_inversion in Hb.
  destruct Hb as (width' & w_mu & gb & w_rho & gc & Hw' & _ & _ & Hb).
  cbn [static_shape nth] in Hw'. injection Hw' as <-.
  cbv zeta in Hb. destruct Hb as (V1 & _ & Hb).
  apply get_variable_shape in V1. destruct V1 as [S1 _].
  rewrite (proj2 (new_layer_fields n1 (VarEstimator.prior self)
                    (nth_error (VarEstimator._layers self) 0))) in S1, Hb.
  exists n1, n2. eexists. exists l2, l3, w_mu.
  cbn [VarEstimator.set_connected VarEstimator.arch VarEstimator._layers].
  split; [exact Hs |]. split; [reflexivity |]. split; [reflexivity |].
  split; [| exact S1].
  destruct (VarLinear._use_bias _).
  - destruct Hb as (b_mu & g3' & b_rho & g4 & _ & _ & _ & _ & ->).
    reflexivity.
  - destruct Hb as (_ & _ & ->). reflexivity.
Qed.

(** X23.  Once a task network has made a forward pass on inputs of [width]
    features, every later batch of that width is accepted, and a batch of
    any other width is refused with [ValueError]: the variables of the
    first layer keep the shape they were created with. *)
Theorem later_batches_need_the_same_width (self0 : VarEstimator.t)
  (x0 : Tensor) (batch0 : option nat) (rest0 : list (option nat))
  (width : nat) (g0 : Rng) (y0 : matrix) (self1 : VarEstimator.t) (g1 : Rng)
  (x : Tensor) (batch : option nat) (rest : list (option nat))
  (width' : nat) (g : Rng) :
  task_network (VarEstimator.arch self0) ->
  accepts self0 width ->
  static_shape x0 = batch0 :: rest0 ->
  prod_dims rest0 = Some width ->
  VarEstimator.__call__ self0 x0 g0 = Ok (y0, self1, g1) ->
  static_shape x = batch :: rest ->
  prod_dims rest = Some width' ->
  (width' = width ->
   exists y self2 g2, VarEstimator.__call__ self1 x g = Ok (y, self2, g2)) /\
  (width' <> width ->
   VarEstimator.__call__ self1 x g = Raise ValueError).
Proof.
  intros Ha Hacc Hsh0 Hw0 Hcall Hsh Hw.
  destruct (@network_call_accepts self0 x0 batch0 rest0 width g0
              Ha Hacc Hsh0 Hw0)
    as (y0' & self1' & g1' & Hcall' & Hacc1 & Harch & _).
  rewrite Hcall in Hcall'. injection Hcall' as <- <- <-.
  split.
  - intros ->.
    destruct (@network_call_accepts self1 x batch rest width g)
      as (y & self2 & g2 & E & _); try assumption.
    + rewrite Harch. exact Ha.
    + exists y, self2, g2. exact E.
  - intros Hne.
    destruct (@first_layer_after_call self0 x0 batch0 rest0 width g0 y0
                self1 g1 Ha Hsh0 Hw0 Hcall)
      as (n1 & n2 & l1 & l2 & l3 & m & Hs & _ & El & Hm & Sm).
    assert (Ha1 : task_network (VarEstimator.arch self1))
      by (rewrite Harch; exact Ha).
    destruct (task_network_sizes _ Ha1) as (_ & Hsel).
    unfold VarEstimator.__call__, VarEstimator._build, BatchFlatten.
    rewrite Hs, Hsh. cbn [bind fst snd]. rewrite Hw, Hsel, El.
    cbn [bind nth_error VarEstimator.new_layer].
    unfold VarLinear.__call__ at 1. unfold VarLinear._build at 1.
    cbn [static_shape List.length Nat.eqb negb nth VarLinear.width_changed
         VarLinear._input_shape VarLinear._w_mu VarLinear.output_size].
    rewrite Hm.
    rewrite get_variable_other_shape; [reflexivity |].
    rewrite Sm. intros E. injection E as E. congruence.
Qed.

Lemma later_batches_need_the_same_width_witness :
  exists y0 self1 g1,
    VarEstimator.__call__ weak_network one_feature
                          (constant_rng (Real 0) (Real 1))
    = Ok (y0, self1, g1) /\
    VarEstimator.__call__ self1 one_example (constant_rng (Real 0) (Real 1))
    = Raise ValueError.
Proof.
  destruct built_weak_layer as [Hb Hws].
  assert (Hacc : accepts weak_network 1).
  { split.
    - repeat (apply Forall_cons; [exact Hws |]). apply Forall_nil.
    - exists 1%nat, 1%nat, 1%nat. repeat split. }
  destruct (@network_call_accepts weak_network one_feature (Some 1%nat)
              [Some 1%nat] 1 (constant_rng (Real 0) (Real 1)) I Hacc
              eq_refl eq_refl)
    as (y0 & self1 & g1 & Hcall & _).
  exists y0, self1, g1. split; [exact Hcall |].
  apply (@later_batches_need_the_same_width weak_network one_feature
           (Some 1%nat) [Some 1%nat] 1 (constant_rng (Real 0) (Real 1))
           y0 self1 g1 one_example (Some 1%nat) [Some 2%nat] 2
           (constant_rng (Real 0) (Real 1)) I Hacc eq_refl eq_refl Hcall
           eq_refl eq_refl).
  lia.
Defined.
